(** * SynchronousAudioRouter: the user-mode engine [SarClient]

    A shallow embedding of [SarAsio/sarclient.cpp]: the sample codec
    ([SarClient::demux], [SarClient::mux]), the per-cycle engine
    ([SarClient::tick] with [updateNotificationHandles] and
    [processNotificationHandleUpdates]), the session life cycle
    ([SarClient::start], [SarClient::stop] and the bootstrap steps) and the
    device callbacks of [SarClient::NotificationClient].

    Conventions.
    - Machine integers are [Z]; every conversion and every wrap-around of
      the source is written out ([DWORD], [int], [size_t]).
    - A block of memory is a [list byte]; a pointer into a block is a byte
      offset.  An access that leaves its block is undefined in the source;
      the model loads the bytes that exist and stores the part that fits.
    - An entry of a [void **] buffer array is an [option buffer]: [None] is
      the null pointer.  Using a null pointer is the fault [NullDereference].
    - Calls into the operating system and the driver are recorded in a
      chronological trace; what they answer is read from an environment. *)

From stdpp Require Import base list strings.
From Stdlib Require Import ZArith Lia.
From Stdlib.Strings Require Import Byte.

Open Scope Z_scope.

(** ** Machine integers *)

(** [DWORD], [ULONG]: unsigned 32 bits. *)
Definition DWORD (x : Z) : Z := x mod 2 ^ 32.

(** [size_t] of the 64-bit build: unsigned 64 bits. *)
Definition size_t (x : Z) : Z := x mod 2 ^ 64.

(** [int]: signed 32 bits, two's complement conversion. *)
Definition int (x : Z) : Z := (x + 2 ^ 31) mod 2 ^ 32 - 2 ^ 31.

(** ** Outcomes *)

Inductive fault : Type :=
| NullDereference   (* a null pointer was used *)
| Hang.             (* the loop budget ran out *)

Inductive result (A : Type) : Type :=
| Ok (a : A)
| Fault (f : fault).
Arguments Ok {A} a.
Arguments Fault {A} f.

Definition bind {A B : Type} (m : result A) (k : A → result B) : result B :=
  match m with
  | Ok a => k a
  | Fault f => Fault f
  end.

Notation "x <- m ;; k" := (bind m (λ x, k))
  (at level 100, m at next level, right associativity).

(** [for (i ...)] over an explicit index range, stopping at a fault. *)
Fixpoint for_each {A : Type} (body : A → nat → result A) (range : list nat)
    (a : A) : result A :=
  match range with
  | [] => Ok a
  | i :: range => a' <- body a i ;; for_each body range a'
  end.

(** ** Memory *)

Abbreviation buffer := (list byte).

Definition load (m : buffer) (p n : Z) : list byte :=
  take (Z.to_nat n) (drop (Z.to_nat p) m).

Definition store (m : buffer) (p : Z) (bs : list byte) : buffer :=
  list_inserts (Z.to_nat p) bs m.

(** [memcpy(dst + d, src + s, n)] between two blocks. *)
Definition memcpy (dst : buffer) (d : Z) (src : buffer) (s n : Z) : buffer :=
  store dst d (load src s n).

(** [memset(dst, 0, n)] and [ZeroMemory(dst, n)]. *)
Definition memset0 (dst : buffer) (n : Z) : buffer :=
  store dst 0 (replicate (Z.to_nat n) x00).

Definition is_null {A : Type} (p : option A) : bool :=
  match p with
  | None => true
  | Some _ => false
  end.

Definition deref {A : Type} (p : option A) : result A :=
  match p with
  | Some b => Ok b
  | None => Fault NullDereference
  end.

(** ** The sample codec *)

Section copy_loop.
Context {A : Type}.
(** The [memcpy] of one sample: the block written, [j] and [buf]. *)
Variable copy : A → Z → Z → A.
Variables targetSize sourceStride sampleSize : Z.
(** [muxBufferSecond + sampleSize * i] and [secondSize]. *)
Variables secondBuf secondSize : Z.

(** The inner loop of [demux] and of [mux] (the source has it twice):
<<
    for (size_t j = 0; j < targetSize && remaining >= sourceStride;
         j += sampleSize) {
        memcpy(...);
        buf += sourceStride;
        remaining -= sourceStride;
        if (!remaining) { buf = second + sampleSize * i;
                          remaining = secondSize; }
    }
>>
    [j] is a [size_t] and [sampleSize] an [int]: the sum is taken in 64
    bits.  One unit of [fuel] pays for one test of the loop condition. *)
Fixpoint copy_loop (fuel : nat) (a : A) (j buf remaining : Z) : result A :=
  match fuel with
  | O => Fault Hang
  | S fuel =>
      if (j <? targetSize) && (sourceStride <=? remaining) then
        let a := copy a j buf in
        let buf := buf + sourceStride in
        let remaining := remaining - sourceStride in
        if remaining =? 0
        then copy_loop fuel a (size_t (j + sampleSize)) secondBuf secondSize
        else copy_loop fuel a (size_t (j + sampleSize)) buf remaining
      else Ok a
  end.
End copy_loop.

(** The loop budget the callers give: the byte index [j] advances by at least
    one byte per iteration when [sampleSize] is positive and [j] does not
    wrap. *)
Definition loop_budget (targetSize : Z) : nat := S (Z.to_nat targetSize).
Arguments loop_budget : simpl never.

(** [if (targetBuffers[i]) memset(targetBuffers[i], 0, targetSize);] *)
Definition silence_channel (targetSize : Z) (targetBuffers : list (option buffer))
    (i : nat) : result (list (option buffer)) :=
  let p := targetBuffers !!! i in
  if is_null p then Ok targetBuffers
  else
    b <- deref p ;;
    Ok (<[i := Some (memset0 b targetSize)]> targetBuffers).

(** One iteration of the channel loop of [demux].  [sampleSize * i] is a
    product of two [int]. *)
Definition demux_channel (fuel : nat) (mem : buffer)
    (muxBufferFirst firstSize muxBufferSecond secondSize : Z)
    (targetSize sourceStride sampleSize : Z)
    (targetBuffers : list (option buffer)) (i : nat)
    : result (list (option buffer)) :=
  let buf := muxBufferFirst + int (sampleSize * Z.of_nat i) in
  let remaining := firstSize in
  let p := targetBuffers !!! i in
  if is_null p then Ok targetBuffers
  else
    b <- deref p ;;
    b' <- copy_loop (λ tb j buf, memcpy tb j mem buf (size_t sampleSize))
            targetSize sourceStride sampleSize
            (muxBufferSecond + int (sampleSize * Z.of_nat i)) secondSize
            fuel b 0 buf remaining ;;
    Ok (<[i := Some b']> targetBuffers).

(** [SarClient::demux].  [mem] is the memory the two ring segments point
    into, [muxBufferFirst] and [muxBufferSecond] are their offsets.
    [sourceStride] is [(size_t)(sampleSize * nsources)]: the product of two
    [int], which wraps at 32 bits, converted to 64 bits. *)
Definition demux_with (fuel : nat) (mem : buffer)
    (muxBufferFirst firstSize muxBufferSecond secondSize : Z)
    (targetBuffers : list (option buffer))
    (ntargets nsources targetSize sampleSize : Z)
    : result (list (option buffer)) :=
  let sourceStride := size_t (int (sampleSize * nsources)) in
  let nsources := if ntargets <? nsources then ntargets else nsources in
  let i := Z.to_nat nsources in
  tbs <- for_each
           (demux_channel fuel mem muxBufferFirst firstSize
              muxBufferSecond secondSize targetSize sourceStride sampleSize)
           (seq 0 i) targetBuffers ;;
  (* Silence target channels not present in source *)
  for_each (silence_channel targetSize) (seq i (Z.to_nat ntargets - i)) tbs.

Definition demux (mem : buffer)
    (muxBufferFirst firstSize muxBufferSecond secondSize : Z)
    (targetBuffers : list (option buffer))
    (ntargets nsources targetSize sampleSize : Z)
    : result (list (option buffer)) :=
  demux_with (loop_budget targetSize) mem muxBufferFirst firstSize
    muxBufferSecond secondSize targetBuffers ntargets nsources targetSize
    sampleSize.

(** One iteration of the channel loop of [mux]. *)
Definition mux_channel (fuel : nat)
    (muxBufferFirst firstSize muxBufferSecond secondSize : Z)
    (targetSize sourceStride sampleSize : Z)
    (targetBuffers : list (option buffer)) (mem : buffer) (i : nat)
    : result buffer :=
  let buf := muxBufferFirst + int (sampleSize * Z.of_nat i) in
  let remaining := firstSize in
  let p := targetBuffers !!! i in
  if is_null p then Ok mem
  else
    b <- deref p ;;
    copy_loop (λ mem j buf, memcpy mem buf b j (size_t sampleSize))
      targetSize sourceStride sampleSize
      (muxBufferSecond + int (sampleSize * Z.of_nat i)) secondSize
      fuel mem 0 buf remaining.

(** [SarClient::mux]: the result is the memory of the ring segments. *)
Definition mux_with (fuel : nat) (mem : buffer)
    (muxBufferFirst firstSize muxBufferSecond secondSize : Z)
    (targetBuffers : list (option buffer))
    (ntargets nsources targetSize sampleSize : Z) : result buffer :=
  let sourceStride := size_t (int (sampleSize * nsources)) in
  let nsources := if ntargets <? nsources then ntargets else nsources in
  (* Channels in target not present in source are not used *)
  for_each
    (mux_channel fuel muxBufferFirst firstSize muxBufferSecond secondSize
       targetSize sourceStride sampleSize targetBuffers)
    (seq 0 (Z.to_nat nsources)) mem.

Definition mux (mem : buffer)
    (muxBufferFirst firstSize muxBufferSecond secondSize : Z)
    (targetBuffers : list (option buffer))
    (ntargets nsources targetSize sampleSize : Z) : result buffer :=
  mux_with (loop_budget targetSize) mem muxBufferFirst firstSize
    muxBufferSecond secondSize targetBuffers ntargets nsources targetSize
    sampleSize.

(** ** Configuration, registers and the engine object *)

Inductive EndpointType : Type := Playback | Recording.

(** [EndpointConfig].  The display name [description] and the identifier
    [id] are text the engine only forwards to the driver; the model keeps
    the text and not its encoding.  The field [id] is [endpointId] here,
    [id] being the identity function of the library. *)
Record EndpointConfig : Type := {
  endpointId : string;
  description : string;
  type : EndpointType;
  channelCount : Z;
}.

Record DriverConfig : Type := {
  endpoints : list EndpointConfig;
  enableApplicationRouting : bool;
  waveRtMinimumFrames : Z;
}.

(** [asioBuffers[bufferIndex][endpoint][channel]] is a [void *]; the model
    keeps the block it points to in its place. *)
Record BufferConfig : Type := {
  periodFrameSize : Z;
  sampleSize : Z;
  sampleRate : Z;
  asioBuffers : list (list (list (option buffer)));
}.

(** One [SarEndpointRegisters] of the shared register array; all fields are
    [ULONG]. *)
Record SarEndpointRegisters : Type := {
  generation : Z;
  positionRegister : Z;
  bufferOffset : Z;
  bufferSize : Z;
  notificationCount : Z;
  activeChannelCount : Z;
}.

(** The memory mapped by the driver: what [_registers] and [_sharedBuffer]
    point to. *)
Record SharedMemory : Type := {
  registers : list SarEndpointRegisters;
  sharedBuffer : buffer;
}.

(** An entry of [_notificationHandles]; a [HANDLE] is an integer, null is 0. *)
Record NotificationHandle : Type := {
  handleGeneration : Z;
  handle : Z;
}.

(** An entry of [_handleQueueCompletion.responses]. *)
Record SarHandleQueueResponse : Type := {
  responseHandle : Z;
  associatedData : Z;
}.

Definition INVALID_HANDLE_VALUE : Z := -1.
Definition nullptr : Z := 0.
Definition ERROR_INSUFFICIENT_BUFFER : Z := 122.
Definition ERROR_IO_PENDING : Z := 997.

Record SarClient : Type := {
  _driverConfig : DriverConfig;
  _bufferConfig : BufferConfig;
  _device : Z;
  _completionPort : Z;
  _handleQueueStarted : bool;
  _mmEnumerator : Z;
  _mmNotificationClient : Z;
  _mmNotificationClientRegistered : bool;
  _registers : Z;
  _sharedBuffer : Z;
  _sharedBufferSize : Z;
  _notificationHandles : list NotificationHandle;
  _updateSampleRateOnTick : bool;
}.

Global Instance NotificationHandle_inhabited : Inhabited NotificationHandle :=
  populate {| handleGeneration := 0; handle := nullptr |}.
Global Instance SarHandleQueueResponse_inhabited :
  Inhabited SarHandleQueueResponse :=
  populate {| responseHandle := nullptr; associatedData := 0 |}.
Global Instance SarEndpointRegisters_inhabited : Inhabited SarEndpointRegisters :=
  populate {| generation := 0; positionRegister := 0; bufferOffset := 0;
              bufferSize := 0; notificationCount := 0;
              activeChannelCount := 0 |}.
Global Instance EndpointConfig_inhabited : Inhabited EndpointConfig :=
  populate {| endpointId := ""; description := ""; type := Playback;
              channelCount := 0 |}.

(** Field updates. *)
Definition set_device (v : Z) (c : SarClient) : SarClient :=
  {| _driverConfig := _driverConfig c; _bufferConfig := _bufferConfig c;
     _device := v; _completionPort := _completionPort c;
     _handleQueueStarted := _handleQueueStarted c;
     _mmEnumerator := _mmEnumerator c;
     _mmNotificationClient := _mmNotificationClient c;
     _mmNotificationClientRegistered := _mmNotificationClientRegistered c;
     _registers := _registers c; _sharedBuffer := _sharedBuffer c;
     _sharedBufferSize := _sharedBufferSize c;
     _notificationHandles := _notificationHandles c;
     _updateSampleRateOnTick := _updateSampleRateOnTick c |}.

Definition set_completionPort (v : Z) (c : SarClient) : SarClient :=
  {| _driverConfig := _driverConfig c; _bufferConfig := _bufferConfig c;
     _device := _device c; _completionPort := v;
     _handleQueueStarted := _handleQueueStarted c;
     _mmEnumerator := _mmEnumerator c;
     _mmNotificationClient := _mmNotificationClient c;
     _mmNotificationClientRegistered := _mmNotificationClientRegistered c;
     _registers := _registers c; _sharedBuffer := _sharedBuffer c;
     _sharedBufferSize := _sharedBufferSize c;
     _notificationHandles := _notificationHandles c;
     _updateSampleRateOnTick := _updateSampleRateOnTick c |}.

Definition set_handleQueueStarted (v : bool) (c : SarClient) : SarClient :=
  {| _driverConfig := _driverConfig c; _bufferConfig := _bufferConfig c;
     _device := _device c; _completionPort := _completionPort c;
     _handleQueueStarted := v;
     _mmEnumerator := _mmEnumerator c;
     _mmNotificationClient := _mmNotificationClient c;
     _mmNotificationClientRegistered := _mmNotificationClientRegistered c;
     _registers := _registers c; _sharedBuffer := _sharedBuffer c;
     _sharedBufferSize := _sharedBufferSize c;
     _notificationHandles := _notificationHandles c;
     _updateSampleRateOnTick := _updateSampleRateOnTick c |}.

Definition set_mmEnumerator (v : Z) (c : SarClient) : SarClient :=
  {| _driverConfig := _driverConfig c; _bufferConfig := _bufferConfig c;
     _device := _device c; _completionPort := _completionPort c;
     _handleQueueStarted := _handleQueueStarted c;
     _mmEnumerator := v;
     _mmNotificationClient := _mmNotificationClient c;
     _mmNotificationClientRegistered := _mmNotificationClientRegistered c;
     _registers := _registers c; _sharedBuffer := _sharedBuffer c;
     _sharedBufferSize := _sharedBufferSize c;
     _notificationHandles := _notificationHandles c;
     _updateSampleRateOnTick := _updateSampleRateOnTick c |}.

Definition set_mmNotificationClient (v : Z) (c : SarClient) : SarClient :=
  {| _driverConfig := _driverConfig c; _bufferConfig := _bufferConfig c;
     _device := _device c; _completionPort := _completionPort c;
     _handleQueueStarted := _handleQueueStarted c;
     _mmEnumerator := _mmEnumerator c;
     _mmNotificationClient := v;
     _mmNotificationClientRegistered := _mmNotificationClientRegistered c;
     _registers := _registers c; _sharedBuffer := _sharedBuffer c;
     _sharedBufferSize := _sharedBufferSize c;
     _notificationHandles := _notificationHandles c;
     _updateSampleRateOnTick := _updateSampleRateOnTick c |}.

Definition set_mmNotificationClientRegistered (v : bool) (c : SarClient)
    : SarClient :=
  {| _driverConfig := _driverConfig c; _bufferConfig := _bufferConfig c;
     _device := _device c; _completionPort := _completionPort c;
     _handleQueueStarted := _handleQueueStarted c;
     _mmEnumerator := _mmEnumerator c;
     _mmNotificationClient := _mmNotificationClient c;
     _mmNotificationClientRegistered := v;
     _registers := _registers c; _sharedBuffer := _sharedBuffer c;
     _sharedBufferSize := _sharedBufferSize c;
     _notificationHandles := _notificationHandles c;
     _updateSampleRateOnTick := _updateSampleRateOnTick c |}.

(** [_registers], [_sharedBuffer] and [_sharedBufferSize] are always
    assigned together. *)
Definition set_mapping (regs buf size : Z) (c : SarClient) : SarClient :=
  {| _driverConfig := _driverConfig c; _bufferConfig := _bufferConfig c;
     _device := _device c; _completionPort := _completionPort c;
     _handleQueueStarted := _handleQueueStarted c;
     _mmEnumerator := _mmEnumerator c;
     _mmNotificationClient := _mmNotificationClient c;
     _mmNotificationClientRegistered := _mmNotificationClientRegistered c;
     _registers := regs; _sharedBuffer := buf;
     _sharedBufferSize := size;
     _notificationHandles := _notificationHandles c;
     _updateSampleRateOnTick := _updateSampleRateOnTick c |}.

Definition set_notificationHandles (v : list NotificationHandle)
    (c : SarClient) : SarClient :=
  {| _driverConfig := _driverConfig c; _bufferConfig := _bufferConfig c;
     _device := _device c; _completionPort := _completionPort c;
     _handleQueueStarted := _handleQueueStarted c;
     _mmEnumerator := _mmEnumerator c;
     _mmNotificationClient := _mmNotificationClient c;
     _mmNotificationClientRegistered := _mmNotificationClientRegistered c;
     _registers := _registers c; _sharedBuffer := _sharedBuffer c;
     _sharedBufferSize := _sharedBufferSize c;
     _notificationHandles := v;
     _updateSampleRateOnTick := _updateSampleRateOnTick c |}.

Definition set_updateSampleRateOnTick (v : bool) (c : SarClient) : SarClient :=
  {| _driverConfig := _driverConfig c; _bufferConfig := _bufferConfig c;
     _device := _device c; _completionPort := _completionPort c;
     _handleQueueStarted := _handleQueueStarted c;
     _mmEnumerator := _mmEnumerator c;
     _mmNotificationClient := _mmNotificationClient c;
     _mmNotificationClientRegistered := _mmNotificationClientRegistered c;
     _registers := _registers c; _sharedBuffer := _sharedBuffer c;
     _sharedBufferSize := _sharedBufferSize c;
     _notificationHandles := _notificationHandles c;
     _updateSampleRateOnTick := v |}.

(** Writing through the pointers of [asioBuffers[bufferIndex][i]]. *)
Definition set_asioBuffers (bufferIndex i : nat) (v : list (option buffer))
    (c : SarClient) : SarClient :=
  let bc := _bufferConfig c in
  let all := asioBuffers bc in
  {| _driverConfig := _driverConfig c;
     _bufferConfig :=
       {| periodFrameSize := periodFrameSize bc; sampleSize := sampleSize bc;
          sampleRate := sampleRate bc;
          asioBuffers := <[bufferIndex := <[i := v]> (all !!! bufferIndex)]> all |};
     _device := _device c; _completionPort := _completionPort c;
     _handleQueueStarted := _handleQueueStarted c;
     _mmEnumerator := _mmEnumerator c;
     _mmNotificationClient := _mmNotificationClient c;
     _mmNotificationClientRegistered := _mmNotificationClientRegistered c;
     _registers := _registers c; _sharedBuffer := _sharedBuffer c;
     _sharedBufferSize := _sharedBufferSize c;
     _notificationHandles := _notificationHandles c;
     _updateSampleRateOnTick := _updateSampleRateOnTick c |}.

Definition set_positionRegister (v : Z) (r : SarEndpointRegisters)
    : SarEndpointRegisters :=
  {| generation := generation r; positionRegister := v;
     bufferOffset := bufferOffset r; bufferSize := bufferSize r;
     notificationCount := notificationCount r;
     activeChannelCount := activeChannelCount r |}.

Definition set_generation (v : Z) (r : SarEndpointRegisters)
    : SarEndpointRegisters :=
  {| generation := v; positionRegister := positionRegister r;
     bufferOffset := bufferOffset r; bufferSize := bufferSize r;
     notificationCount := notificationCount r;
     activeChannelCount := activeChannelCount r |}.

(** ** Calls that leave the process *)

(** [request.type] of a [SarCreateEndpointRequest]. *)
Inductive SarEndpointType : Type :=
| SAR_ENDPOINT_TYPE_PLAYBACK
| SAR_ENDPOINT_TYPE_RECORDING.

(** [SarCreateEndpointRequest], the input buffer of [SAR_CREATE_ENDPOINT].
    [name] and [id] are arrays of wide characters filled by [wcscpy_s],
    [id] from [UTF8ToWide(endpoint.id)]; the model has the text that is
    copied. *)
Record SarCreateEndpointRequest : Type := {
  request_type : SarEndpointType;
  request_index : Z;
  request_channelCount : Z;
  request_name : string;
  request_id : string;
}.

(** The control code of a [DeviceIoControl] call; [SAR_CREATE_ENDPOINT] is
    recorded with the request it is sent with. *)
Inductive IoControlCode : Type :=
| SAR_SET_BUFFER_LAYOUT
| SAR_CREATE_ENDPOINT (request : SarCreateEndpointRequest)
| SAR_START_REGISTRY_FILTER
| SAR_WAIT_HANDLE_QUEUE
| SAR_SEND_FORMAT_CHANGE_EVENT.

Inductive OsCall : Type :=
| DeviceIoControl (device : Z) (code : IoControlCode)
| GetQueuedCompletionStatus (port : Z)
| SetEvent (h : Z)
| CloseHandle (h : Z)
| CancelIoEx (h : Z)
| CreateFile
| CreateIoCompletionPort (device : Z)
| SetupDiGetClassDevs
| SetupDiEnumDeviceInterfaces
| SetupDiGetDeviceInterfaceDetail
| SetupDiDestroyDeviceInfoList
| CoCreateInstance_MMDeviceEnumerator
| CreateInstance_NotificationClient
| RegisterEndpointNotificationCallback (enumerator client : Z)
| UnregisterEndpointNotificationCallback (enumerator client : Z)
| Release (object : Z).

(** The engine object together with the calls it has made so far. *)
Record Session : Type := {
  client : SarClient;
  calls : list OsCall;
}.

Definition call (e : OsCall) (s : Session) : Session :=
  {| client := client s; calls := calls s ++ [e] |}.

Definition update (f : SarClient → SarClient) (s : Session) : Session :=
  {| client := f (client s); calls := calls s |}.

(** ** [SarClient::stop] *)

(** [_registersLock] is taken around the fourth block; the model is
    sequential and has no lock.  [_mmEnumerator = nullptr] makes no call of
    its own in the source text. *)
Definition stop (s : Session) : Session :=
  let s :=
    if _mmNotificationClientRegistered (client s) then
      update (set_mmNotificationClientRegistered false)
        (call (UnregisterEndpointNotificationCallback
                 (_mmEnumerator (client s)) (_mmNotificationClient (client s)))
           s)
    else s in
  let s :=
    if negb (_mmNotificationClient (client s) =? nullptr) then
      update (set_mmNotificationClient nullptr)
        (call (Release (_mmNotificationClient (client s))) s)
    else s in
  let s :=
    if negb (_mmEnumerator (client s) =? nullptr) then
      update (set_mmEnumerator nullptr) s
    else s in
  let s :=
    if negb (_device (client s) =? INVALID_HANDLE_VALUE) then
      let s := call (CancelIoEx (_device (client s))) s in
      let s := call (CloseHandle (_device (client s))) s in
      let s := update (set_device INVALID_HANDLE_VALUE) s in
      update (set_mapping nullptr nullptr 0) s
    else s in
  if negb (_completionPort (client s) =? nullptr) then
    update (set_completionPort nullptr)
      (call (CloseHandle (_completionPort (client s))) s)
  else s.

(** ** [SarClient::start] and the bootstrap steps *)

Record SarSetBufferLayoutResponse : Type := {
  virtualAddress : Z;
  actualSize : Z;
  registerBase : Z;
}.

(** What the operating system and the driver answer during [start]. *)
Record BootEnv : Type := {
  classDevs : bool;           (* SetupDiGetClassDevs gave a device set *)
  enumInterfaces : bool;      (* SetupDiEnumDeviceInterfaces *)
  detailSizeError : Z;        (* GetLastError() after the size query *)
  interfaceDetail : bool;     (* SetupDiGetDeviceInterfaceDetail *)
  createdFile : Z;            (* CreateFile *)
  createdPort : Z;            (* CreateIoCompletionPort *)
  enumeratorInstance : option Z;  (* CoCreateInstance: failed, or the object *)
  clientInstance : option Z;      (* CreateInstance: failed, or the object *)
  registerCallback : bool;    (* RegisterEndpointNotificationCallback *)
  layoutResponse : option SarSetBufferLayoutResponse;
  createEndpoint : nat → bool;    (* SAR_CREATE_ENDPOINT for endpoint i *)
  registryFilter : bool;      (* SAR_START_REGISTRY_FILTER *)
}.

Definition openControlDevice (env : BootEnv) (s : Session) : bool * Session :=
  let s := call SetupDiGetClassDevs s in
  if negb (classDevs env) then (false, s) else
  let s := call SetupDiEnumDeviceInterfaces s in
  if negb (enumInterfaces env) then
    (false, call SetupDiDestroyDeviceInfoList s)
  else
  let s := call SetupDiGetDeviceInterfaceDetail s in
  if negb (detailSizeError env =? ERROR_INSUFFICIENT_BUFFER) then
    (false, call SetupDiDestroyDeviceInfoList s)
  else
  let s := call SetupDiGetDeviceInterfaceDetail s in
  if negb (interfaceDetail env) then
    (false, call SetupDiDestroyDeviceInfoList s)
  else
  let s := call SetupDiDestroyDeviceInfoList s in
  let s := update (set_device (createdFile env)) (call CreateFile s) in
  if _device (client s) =? INVALID_HANDLE_VALUE then (false, s) else
  let s := update (set_completionPort (createdPort env))
             (call (CreateIoCompletionPort (_device (client s))) s) in
  if _completionPort (client s) =? nullptr then
    let s := call (CloseHandle (_device (client s))) s in
    (false, update (set_device nullptr) s)
  else
  (* _notificationHandles.clear(); _notificationHandles.resize(...) *)
  let n := length (endpoints (_driverConfig (client s))) in
  (true, update (set_notificationHandles (replicate n inhabitant)) s).

Definition openMmNotificationClient (env : BootEnv) (s : Session)
    : bool * Session :=
  let s := call CoCreateInstance_MMDeviceEnumerator s in
  match enumeratorInstance env with
  | None => (false, s)
  | Some e =>
      let s := update (set_mmEnumerator e) s in
      let s := call CreateInstance_NotificationClient s in
      match clientInstance env with
      | None => (false, s)
      | Some n =>
          let s := update (set_mmNotificationClient n) s in
          let s := call (RegisterEndpointNotificationCallback
                           (_mmEnumerator (client s))
                           (_mmNotificationClient (client s))) s in
          if negb (registerCallback env) then (false, s)
          else (true, update (set_mmNotificationClientRegistered true) s)
      end
  end.

Definition setBufferLayout (env : BootEnv) (s : Session) : bool * Session :=
  let s := call (DeviceIoControl (_device (client s)) SAR_SET_BUFFER_LAYOUT) s in
  match layoutResponse env with
  | None => (false, s)
  | Some response =>
      (true,
       update (set_mapping (virtualAddress response + registerBase response)
                 (virtualAddress response) (actualSize response)) s)
  end.

(** Lines 384-391: the request for [endpoint], the [i]-th of the
    configuration; [i] is an [int]. *)
Definition createEndpointRequest (i : nat) (endpoint : EndpointConfig)
    : SarCreateEndpointRequest :=
  {| request_type :=
       match type endpoint with
       | Playback => SAR_ENDPOINT_TYPE_PLAYBACK
       | Recording => SAR_ENDPOINT_TYPE_RECORDING
       end;
     request_channelCount := channelCount endpoint;
     request_index := int (Z.of_nat i);
     request_name := description endpoint;
     request_id := endpointId endpoint |}.

(** The loop of [createEndpoints], from endpoint [i] on. *)
Fixpoint createEndpoints_from (env : BootEnv) (i : nat)
    (rest : list EndpointConfig) (s : Session) : bool * Session :=
  match rest with
  | [] => (true, s)
  | endpoint :: rest =>
      let request := createEndpointRequest i endpoint in
      let s := call (DeviceIoControl (_device (client s))
                       (SAR_CREATE_ENDPOINT request)) s in
      if negb (createEndpoint env i) then (false, s)
      else createEndpoints_from env (S i) rest s
  end.

Definition createEndpoints (env : BootEnv) (s : Session) : bool * Session :=
  createEndpoints_from env 0 (endpoints (_driverConfig (client s))) s.

Definition enableRegistryFilter (env : BootEnv) (s : Session) : bool * Session :=
  (registryFilter env,
   call (DeviceIoControl (_device (client s)) SAR_START_REGISTRY_FILTER) s).

(** [LOG(ERROR)] only writes to the log and is left out. *)
Definition start (env : BootEnv) (s : Session) : bool * Session :=
  let (ok, s) := openControlDevice env s in
  if negb ok then (false, s) else
  let (ok, s) := openMmNotificationClient env s in
  if negb ok then (false, stop s) else
  let (ok, s) := setBufferLayout env s in
  if negb ok then (false, stop s) else
  let (ok, s) := createEndpoints env s in
  if negb ok then (false, stop s) else
  if enableApplicationRouting (_driverConfig (client s)) then
    (true, snd (enableRegistryFilter env s))
  else (true, s).

(** ** The per-cycle engine *)

(** What [GetQueuedCompletionStatus(..., 0)] answers. *)
Inductive CompletionStatus : Type :=
| Dequeued (bytes : Z)                (* TRUE, with the byte count *)
| NotDequeued (overlapped : bool).    (* FALSE; is [overlapped] non-null? *)

(** What the driver and the operating system do during one [tick]. *)
Record TickEnv : Type := {
  (* the store of the driver into [_registers[i].generation], if any, that
     lands while endpoint [i] is copied *)
  driverGeneration : nat → option Z;
  completion : CompletionStatus;
  (* [_handleQueueCompletion.responses] when the queued request completed *)
  completedResponses : list SarHandleQueueResponse;
  (* [DeviceIoControl(SAR_WAIT_HANDLE_QUEUE)]: its status, [GetLastError()],
     [InternalHigh] and the responses of a synchronous completion *)
  waitStatus : bool;
  waitError : Z;
  waitInternalHigh : Z;
  waitResponses : list SarHandleQueueResponse;
}.

(** The state of the endpoint loop of [tick]. *)
Record TickState : Type := {
  session : Session;
  memory : SharedMemory;
  hasUpdatedNotificationHandles : bool;
}.

Definition with_session (f : Session → Session) (st : TickState) : TickState :=
  {| session := f (session st); memory := memory st;
     hasUpdatedNotificationHandles := hasUpdatedNotificationHandles st |}.

Definition with_registers
    (f : list SarEndpointRegisters → list SarEndpointRegisters)
    (st : TickState) : TickState :=
  {| session := session st;
     memory := {| registers := f (registers (memory st));
                  sharedBuffer := sharedBuffer (memory st) |};
     hasUpdatedNotificationHandles := hasUpdatedNotificationHandles st |}.

Definition with_sharedBuffer (v : buffer) (st : TickState) : TickState :=
  {| session := session st;
     memory := {| registers := registers (memory st); sharedBuffer := v |};
     hasUpdatedNotificationHandles := hasUpdatedNotificationHandles st |}.

Definition with_hasUpdated (v : bool) (st : TickState) : TickState :=
  {| session := session st; memory := memory st;
     hasUpdatedNotificationHandles := v |}.

(** The loop [for (ti = 0; ti < ntargets; ++ti) if (asioBuffers[ti])
    ZeroMemory(asioBuffers[ti], asioBufferSize);] that [tick] has three
    times. *)
Definition silence (asioBufferSize : Z) (asioBuffers : list (option buffer))
    (ntargets : Z) : result (list (option buffer)) :=
  for_each (silence_channel asioBufferSize) (seq 0 (Z.to_nat ntargets))
    asioBuffers.

(** [asioBuffers[bufferIndex][i]] of the engine object. *)
Definition endpointBuffers (c : SarClient) (bufferIndex i : nat)
    : list (option buffer) :=
  (asioBuffers (_bufferConfig c) !!! bufferIndex) !!! i.

(** [(DWORD)(periodFrameSize * sampleSize)], the bytes of one channel in one
    host period; both factors are [int]. *)
Definition hostPeriodBytes (bc : BufferConfig) : Z :=
  DWORD (int (periodFrameSize bc) * int (sampleSize bc)).

(** [_registers[i].generation] as it is read. *)
Definition read_generation (regs : list SarEndpointRegisters) (i : nat) : Z :=
  DWORD (generation (regs !!! i)).

(** [asioBufferSize * activeChannelCount] in 32 bits. *)
Definition frameChunkSizeOf (asioBufferSize activeChannelCount : Z) : Z :=
  DWORD (asioBufferSize * activeChannelCount).

(** [(positionRegister + frameChunkSize) % endpointBufferSize] in 32 bits. *)
Definition nextPositionOf (positionRegister frameChunkSize endpointBufferSize : Z)
    : Z :=
  DWORD (positionRegister + frameChunkSize) mod endpointBufferSize.

(** The registers after the driver's store of this iteration. *)
Definition driver_store (driverGeneration : nat → option Z) (i : nat)
    (regs : list SarEndpointRegisters) : list SarEndpointRegisters :=
  match driverGeneration i with
  | Some g => <[i := set_generation g (regs !!! i)]> regs
  | None => regs
  end.

(** The crossing test of [tick]. *)
Definition notification_due
    (notificationCount positionRegister nextPositionRegister
       endpointBufferSize : Z) : bool :=
  ((1 <=? notificationCount) &&
   (endpointBufferSize / 2 <=? positionRegister) &&
   (nextPositionRegister <? endpointBufferSize / 2)) ||
  ((2 <=? notificationCount) &&
   (endpointBufferSize / 2 <=? nextPositionRegister) &&
   (positionRegister <? endpointBufferSize / 2)).

Section engine.
(** [GENERATION_IS_ACTIVE], [GENERATION_NUMBER] and
    [sizeof(SarHandleQueueResponse)] come from the driver's header, which
    this translation unit only includes: they are parameters. *)
Variable GENERATION_IS_ACTIVE : Z → bool.
Variable GENERATION_NUMBER : Z → Z.
Variable sizeof_SarHandleQueueResponse : Z.

(** One iteration of [processNotificationHandleUpdates]. *)
Definition processNotificationHandleUpdate
    (responses : list SarHandleQueueResponse) (s : Session) (i : nat)
    : Session :=
  let response := responses !!! i in
  let endpointIndex := DWORD (Z.shiftr (associatedData response) 32) in
  let generation := DWORD (Z.land (associatedData response) 0xFFFFFFFF) in
  let old := _notificationHandles (client s) !!! Z.to_nat endpointIndex in
  let s := if negb (handle old =? nullptr) then call (CloseHandle (handle old)) s
           else s in
  update
    (λ c, set_notificationHandles
            (<[Z.to_nat endpointIndex :=
                 {| handleGeneration := generation;
                    handle := responseHandle response |}]>
               (_notificationHandles c)) c) s.

Definition processNotificationHandleUpdates
    (responses : list SarHandleQueueResponse) (updateCount : Z)
    (s : Session) : Session :=
  foldl (processNotificationHandleUpdate responses) s
    (seq 0 (Z.to_nat updateCount)).

Definition updateNotificationHandles (env : TickEnv) (s : Session) : Session :=
  let '(startNewOperation, s) :=
    if _handleQueueStarted (client s) then
      let s := call (GetQueuedCompletionStatus (_completionPort (client s))) s in
      match completion env with
      | Dequeued bytes =>
          (true,
           processNotificationHandleUpdates (completedResponses env)
             (int (DWORD bytes / sizeof_SarHandleQueueResponse)) s)
      | NotDequeued overlapped =>
          (* Ignore failed operations. *)
          (overlapped, s)
      end
    else (true, update (set_handleQueueStarted true) s) in
  if negb startNewOperation then s else
  let s := call (DeviceIoControl (_device (client s)) SAR_WAIT_HANDLE_QUEUE) s in
  let status := waitStatus env in
  let error := waitError env in
  (* DeviceIoControl completed synchronously, so process the result. *)
  let s :=
    if status then
      update (set_handleQueueStarted false)
        (processNotificationHandleUpdates (waitResponses env)
           (int (waitInternalHigh env / sizeof_SarHandleQueueResponse)) s)
    else s in
  if negb (error =? ERROR_IO_PENDING) then
    update (set_handleQueueStarted false) s
  else s.

(** Lines 77-83 of [tick]: refresh the handles, at most once per tick. *)
Definition refresh_handles (env : TickEnv) (st : TickState) (i : nat)
    : TickState :=
  let r := registers (memory st) !!! i in
  let generation := DWORD (generation r) in
  let notificationCount := DWORD (notificationCount r) in
  if negb (hasUpdatedNotificationHandles st) &&
     negb (notificationCount =? 0) &&
     negb (GENERATION_NUMBER generation =?
           GENERATION_NUMBER
             (handleGeneration
                (_notificationHandles (client (session st)) !!! i)))
  then with_hasUpdated true (with_session (updateNotificationHandles env) st)
  else st.

(** The test of the silence path, lines 86-89, on the values read from the
    registers. *)
Definition silence_path (c : SarClient) (r : SarEndpointRegisters) : bool :=
  let generation := DWORD (generation r) in
  let endpointBufferOffset := DWORD (bufferOffset r) in
  let endpointBufferSize := DWORD (bufferSize r) in
  let positionRegister := DWORD (positionRegister r) in
  negb (GENERATION_IS_ACTIVE generation) ||
  (endpointBufferSize =? 0) ||
  (endpointBufferSize <? positionRegister) ||
  (DWORD (_sharedBufferSize c) <?
     DWORD (endpointBufferOffset + endpointBufferSize)).

(** The loop that zeroes the host buffers of endpoint [i]; [tick] has it
    three times (lines 90-94, 131-135, 169-173).  [ntargets] is
    [(int)asioBuffers.size()]. *)
Definition silence_endpoint (bufferIndex i : nat) (asioBufferSize : Z)
    (asioBuffers : list (option buffer)) (st : TickState) : result TickState :=
  let ntargets := int (Z.of_nat (length asioBuffers)) in
  silent <- silence asioBufferSize asioBuffers ntargets ;;
  Ok (with_session (update (set_asioBuffers bufferIndex i silent)) st).

(** Lines 99-120: the copy between the ring of the endpoint and its host
    buffers.  The result is the host buffers and the shared buffer. *)
Definition copy_endpoint (c : SarClient) (endpoint : EndpointConfig)
    (r : SarEndpointRegisters) (asioBuffers : list (option buffer))
    (sharedBuffer : buffer) : result (list (option buffer) * buffer) :=
  let asioBufferSize := hostPeriodBytes (_bufferConfig c) in
  let activeChannelCount := DWORD (activeChannelCount r) in
  let endpointBufferOffset := DWORD (bufferOffset r) in
  let endpointBufferSize := DWORD (bufferSize r) in
  let positionRegister := DWORD (positionRegister r) in
  let ntargets := int (Z.of_nat (length asioBuffers)) in
  let frameChunkSize := frameChunkSizeOf asioBufferSize activeChannelCount in
  let position := DWORD (positionRegister + endpointBufferOffset) in
  let endpointDataFirst := position in
  let endpointDataSecond := endpointBufferOffset in
  let firstSize :=
    Z.min frameChunkSize (DWORD (endpointBufferSize - positionRegister)) in
  let secondSize := DWORD (frameChunkSize - firstSize) in
  match type endpoint with
  | Playback =>
      bufs <- demux sharedBuffer
                endpointDataFirst firstSize endpointDataSecond secondSize
                asioBuffers ntargets (int activeChannelCount)
                asioBufferSize (int (sampleSize (_bufferConfig c))) ;;
      Ok (bufs, sharedBuffer)
  | Recording =>
      ring <- mux sharedBuffer
                endpointDataFirst firstSize endpointDataSecond secondSize
                asioBuffers ntargets (int activeChannelCount)
                asioBufferSize (int (sampleSize (_bufferConfig c))) ;;
      Ok (asioBuffers, ring)
  end.

(** Lines 99-100: [nextPositionRegister], from the values read at the top
    of the iteration. *)
Definition nextPositionRegister (c : SarClient) (r : SarEndpointRegisters)
    : Z :=
  let asioBufferSize := hostPeriodBytes (_bufferConfig c) in
  let activeChannelCount := DWORD (activeChannelCount r) in
  let endpointBufferSize := DWORD (bufferSize r) in
  let positionRegister := DWORD (positionRegister r) in
  let frameChunkSize := frameChunkSizeOf asioBufferSize activeChannelCount in
  nextPositionOf positionRegister frameChunkSize endpointBufferSize.

(** Lines 122-126: the generation is read again, [lateGeneration]; has the
    endpoint lost its client or changed its generation number? *)
Definition generation_changed (r : SarEndpointRegisters)
    (regs : list SarEndpointRegisters) (i : nat) : bool :=
  let generation := DWORD (generation r) in
  let lateGeneration := read_generation regs i in
  negb (GENERATION_IS_ACTIVE lateGeneration) ||
  negb (GENERATION_NUMBER generation =? GENERATION_NUMBER lateGeneration).

(** Lines 148-153: is a notification due in this cycle? *)
Definition crossing_due (c : SarClient) (r : SarEndpointRegisters) : bool :=
  notification_due (DWORD (notificationCount r)) (DWORD (positionRegister r))
    (nextPositionRegister c r) (DWORD (bufferSize r)).

(** Lines 155-160: is there a handle, and is it of this generation? *)
Definition handle_current (r : SarEndpointRegisters)
    (handles : list NotificationHandle) (i : nat) : bool :=
  let generation := DWORD (generation r) in
  let evt := handle (handles !!! i) in
  let targetGeneration := handleGeneration (handles !!! i) in
  negb (evt =? nullptr) &&
  (GENERATION_NUMBER targetGeneration =? GENERATION_NUMBER generation).

(** [_registers[i].positionRegister = nextPositionRegister;] *)
Definition advance (c : SarClient) (r : SarEndpointRegisters) (i : nat)
    (st : TickState) : TickState :=
  with_registers
    (λ regs,
       <[i := set_positionRegister (nextPositionRegister c r) (regs !!! i)]>
         regs) st.

(** Lines 122-179: the copy is discarded, or the position register
    advances, with a signal when a crossing is due.  [c] and [r] are the
    engine object and the registers as read at the top of the iteration,
    [asioBuffers] the host buffers after the copy. *)
Definition publish (bufferIndex i : nat) (c : SarClient)
    (r : SarEndpointRegisters) (asioBuffers : list (option buffer))
    (st : TickState) : result TickState :=
  let asioBufferSize := hostPeriodBytes (_bufferConfig c) in
  if generation_changed r (registers (memory st)) i then
    (* Discard everything and output silence on ASIO side *)
    silence_endpoint bufferIndex i asioBufferSize asioBuffers st
  else if crossing_due c r then
    let evt := handle (_notificationHandles (client (session st)) !!! i) in
    if handle_current r (_notificationHandles (client (session st))) i
    then Ok (with_session (call (SetEvent evt)) (advance c r i st))
    else
      (* The handle generation is old => reset ASIO buffers to silence *)
      silence_endpoint bufferIndex i asioBufferSize asioBuffers st
  else
    (* No notification needed, just update the position register *)
    Ok (advance c r i st).

(** The body of the endpoint loop of [tick].  The registers of the
    endpoint are read once, before anything else (lines 68-75); the store
    of the driver into the generation lands after the copy. *)
Definition tick_endpoint (env : TickEnv) (bufferIndex : nat)
    (st : TickState) (i : nat) : result TickState :=
  let c := client (session st) in
  let endpoint := endpoints (_driverConfig c) !!! i in
  let asioBuffers := endpointBuffers c bufferIndex i in
  let asioBufferSize := hostPeriodBytes (_bufferConfig c) in
  let r := registers (memory st) !!! i in
  let st := refresh_handles env st i in
  (* If endpoint is not active (no audio client), generate silence *)
  if silence_path c r then
    silence_endpoint bufferIndex i asioBufferSize asioBuffers st
  else
    copied <- copy_endpoint c endpoint r asioBuffers
                (sharedBuffer (memory st)) ;;
    let st := with_sharedBuffer (snd copied) st in
    let st :=
      with_session (update (set_asioBuffers bufferIndex i (fst copied))) st in
    let st := with_registers (driver_store (driverGeneration env) i) st in
    publish bufferIndex i c r (fst copied) st.

(** The engine state on entry to the endpoint loop: lines 43-51. *)
Definition tick_begin (s : Session) (m : SharedMemory) : TickState :=
  let s :=
    if _updateSampleRateOnTick (client s) then
      call (DeviceIoControl (_device (client s)) SAR_SEND_FORMAT_CHANGE_EVENT)
        (update (set_updateSampleRateOnTick false) s)
    else s in
  {| session := s; memory := m; hasUpdatedNotificationHandles := false |}.

(** The endpoint loop up to, and without, endpoint [i]. *)
Definition tick_until (env : TickEnv) (bufferIndex : nat) (s : Session)
    (m : SharedMemory) (i : nat) : result TickState :=
  for_each (tick_endpoint env bufferIndex) (seq 0 i) (tick_begin s m).

(** [SarClient::tick]. *)
Definition tick (env : TickEnv) (bufferIndex : nat) (s : Session)
    (m : SharedMemory) : result (Session * SharedMemory) :=
  if _registers (client s) =? nullptr then Ok (s, m) else
  st <- tick_until env bufferIndex s m
          (length (endpoints (_driverConfig (client s)))) ;;
  Ok (session st, memory st).
End engine.

(** ** [SarClient::NotificationClient] *)

Definition S_OK : Z := 0.
Definition DEVICE_STATE_ACTIVE : Z := 1.

(** The calls [OnDeviceStateChanged] makes; [UpdateSampleRateOnTick] is
    [client->updateSampleRateOnTick()], a method of the engine object. *)
Inductive ComCall : Type :=
| CoInitialize
| CoCreateInstance_enumerator
| GetDevice
| OpenPropertyStore
| GetValue_EndpointId
| UpdateSampleRateOnTick
| PropVariantClear
| CoUninitialize.

(** What the callback finds: is the engine object still alive
    ([_client.lock()]), and which of the four requests succeed. *)
Record DeviceEnv : Type := {
  clientAlive : bool;
  enumeratorCreated : bool;   (* CoCreateInstance *)
  deviceFound : bool;         (* mmEnumerator->GetDevice *)
  storeOpened : bool;         (* device->OpenPropertyStore *)
  endpointIdRead : bool;      (* ps->GetValue(PKEY_..._EndpointId) *)
}.

(** The body of [do { ... } while (false)]: each [break] ends it. *)
Definition query_endpoint (env : DeviceEnv) : list ComCall :=
  [CoInitialize; CoCreateInstance_enumerator] ++
  if negb (enumeratorCreated env) then [] else
  [GetDevice] ++
  if negb (deviceFound env) then [] else
  [OpenPropertyStore] ++
  if negb (storeOpened env) then [] else
  [GetValue_EndpointId] ++
  if negb (endpointIdRead env) then [] else
  [UpdateSampleRateOnTick; PropVariantClear].

(** [NotificationClient::OnDeviceStateChanged]: the [HRESULT] and the calls
    made. *)
Definition OnDeviceStateChanged (env : DeviceEnv) (dwNewState : Z)
    : Z * list ComCall :=
  if negb (dwNewState =? DEVICE_STATE_ACTIVE) then (S_OK, []) else
  if clientAlive env then (S_OK, query_endpoint env ++ [CoUninitialize])
  else (S_OK, []).

(** [OnDeviceAdded], [OnDeviceRemoved], [OnDefaultDeviceChanged] and
    [OnPropertyValueChanged] return [S_OK] and do nothing else. *)
Definition OnDeviceAdded : Z * list ComCall := (S_OK, []).
Definition OnDeviceRemoved : Z * list ComCall := (S_OK, []).
Definition OnDefaultDeviceChanged : Z * list ComCall := (S_OK, []).
Definition OnPropertyValueChanged : Z * list ComCall := (S_OK, []).

Global Instance ComCall_eq_dec : EqDecision ComCall.
Proof. solve_decision. Defined.

Definition com_count (e : ComCall) (l : list ComCall) : nat :=
  length (filter (λ x, x = e) l).

(** ** Specification vocabulary and concrete sessions *)

(** The state [stop] leaves behind. *)
Definition torn_down (c : SarClient) : Prop :=
  _mmNotificationClientRegistered c = false ∧
  _mmNotificationClient c = nullptr ∧
  _mmEnumerator c = nullptr ∧
  _device c = INVALID_HANDLE_VALUE ∧
  _completionPort c = nullptr.

(** The bootstrap steps of [start], in their order. *)
Inductive BootStep : Type :=
| ControlDevice | MmNotificationClient | BufferLayout | Endpoints.

(** The first bootstrap step that reports failure, with the session as that
    step left it; [None] when all four succeed. *)
Definition first_failure (env : BootEnv) (s : Session)
    : option (BootStep * Session) :=
  let r1 := openControlDevice env s in
  if negb (fst r1) then Some (ControlDevice, snd r1) else
  let r2 := openMmNotificationClient env (snd r1) in
  if negb (fst r2) then Some (MmNotificationClient, snd r2) else
  let r3 := setBufferLayout env (snd r2) in
  if negb (fst r3) then Some (BufferLayout, snd r3) else
  let r4 := createEndpoints env (snd r3) in
  if negb (fst r4) then Some (Endpoints, snd r4) else None.

(** What [stop] releases once the control device had been opened. *)
Definition released (c : SarClient) : Prop :=
  torn_down c ∧
  _registers c = nullptr ∧ _sharedBuffer c = nullptr ∧ _sharedBufferSize c = 0.

(** A session as the constructor leaves it, with one playback endpoint. *)
Definition fresh_client : SarClient :=
  {| _driverConfig :=
       {| endpoints :=
            [ {| endpointId := "out"; description := "Speakers";
                 type := Playback; channelCount := 2 |} ];
          enableApplicationRouting := false;
          waveRtMinimumFrames := 0 |};
     _bufferConfig :=
       {| periodFrameSize := 64; sampleSize := 4; sampleRate := 48000;
          asioBuffers := [] |};
     _device := INVALID_HANDLE_VALUE; _completionPort := nullptr;
     _handleQueueStarted := false;
     _mmEnumerator := nullptr; _mmNotificationClient := nullptr;
     _mmNotificationClientRegistered := false;
     _registers := nullptr; _sharedBuffer := nullptr; _sharedBufferSize := 0;
     _notificationHandles := [];
     _updateSampleRateOnTick := false |}.

Definition fresh_session : Session := {| client := fresh_client; calls := [] |}.

(** The device opens as handle 5, the completion port cannot be created. *)
Definition boot_no_port : BootEnv :=
  {| classDevs := true; enumInterfaces := true;
     detailSizeError := ERROR_INSUFFICIENT_BUFFER; interfaceDetail := true;
     createdFile := 5; createdPort := nullptr;
     enumeratorInstance := Some 7; clientInstance := Some 8;
     registerCallback := true;
     layoutResponse := None;
     createEndpoint := λ _, true; registryFilter := true |}.

(** Which entries are null, and how long the blocks of the others are. *)
Definition block_size (p : option buffer) : option nat :=
  match p with
  | Some b => Some (length b)
  | None => None
  end.

Definition shape (tbs : list (option buffer)) : list (option nat) :=
  block_size <$> tbs.

(** The first [n] bytes of the block are zero. *)
Definition zero_filled (n : Z) (b : buffer) : Prop :=
  ∀ q : nat, (q < Z.to_nat n)%nat → (q < length b)%nat → b !! q = Some x00.

(** [new] has the null entries and the block sizes of [old], and each of its
    blocks is silence. *)
Definition silenced (n : Z) (old new : list (option buffer)) : Prop :=
  shape new = shape old ∧
  ∀ (k : nat) (b : buffer), new !! k = Some (Some b) → zero_filled n b.

(** The effect of one guarded channel step: nothing on a null entry, a block
    of the same size at [i] otherwise. *)
Definition channel_step (R : buffer → buffer → Prop)
    (tbs : list (option buffer)) (i : nat) (tbs' : list (option buffer)) : Prop :=
  (tbs !!! i = None ∧ tbs' = tbs) ∨
  (∃ b b', tbs !! i = Some (Some b) ∧ tbs' = <[i := Some b']> tbs ∧
           length b' = length b ∧ R b b').

(** The three ways the copy loop of a channel is sure to end: the byte
    index climbs to [targetSize] without wrapping, there is nothing to copy,
    or, with a negative [sampleSize], the index is beyond [targetSize] after
    one step. *)
Definition copy_ends (targetSize sampleSize : Z) : Prop :=
  (0 < sampleSize ∧ targetSize + sampleSize <= 2 ^ 64) ∨
  targetSize <= 0 ∨
  (sampleSize < 0 ∧ targetSize <= size_t sampleSize).

(** What neither the handle refresh nor an endpoint iteration changes in a
    session: the configuration, and the calls already made. *)
Definition session_kept (s s' : Session) : Prop :=
  _driverConfig (client s') = _driverConfig (client s) ∧
  periodFrameSize (_bufferConfig (client s')) = periodFrameSize (_bufferConfig (client s)) ∧
  sampleSize (_bufferConfig (client s')) = sampleSize (_bufferConfig (client s)) ∧
  _sharedBufferSize (client s') = _sharedBufferSize (client s) ∧
  ∃ new, calls s' = calls s ++ new.

(** The host buffers and the registers of endpoint [i] are as they were. *)
Definition untouched (bufferIndex i : nat) (st st' : TickState) : Prop :=
  endpointBuffers (client (session st')) bufferIndex i
    = endpointBuffers (client (session st)) bufferIndex i ∧
  registers (memory st') !! i = registers (memory st) !! i.

(** The register array with other values in [bufferOffset] and [bufferSize]
    of endpoint [i]. *)
Definition set_layout (offset size : Z) (r : SarEndpointRegisters)
    : SarEndpointRegisters :=
  {| generation := generation r; positionRegister := positionRegister r;
     bufferOffset := offset; bufferSize := size;
     notificationCount := notificationCount r;
     activeChannelCount := activeChannelCount r |}.

Definition relayout (i : nat) (offset size : Z)
    (regs : list SarEndpointRegisters) : list SarEndpointRegisters :=
  <[i := set_layout offset size (regs !!! i)]> regs.

Definition relayout_memory (i : nat) (offset size : Z) (m : SharedMemory)
    : SharedMemory :=
  {| registers := relayout i offset size (registers m);
     sharedBuffer := sharedBuffer m |}.

Definition relayout_state (i : nat) (offset size : Z) (st : TickState)
    : TickState :=
  with_registers (relayout i offset size) st.

(** The image of an outcome. *)
Definition map_result {A B : Type} (f : A → B) (m : result A) : result B :=
  match m with
  | Ok a => Ok (f a)
  | Fault e => Fault e
  end.

(** What the handle refresh keeps: everything but the handles, the
    request flag and the calls it adds. *)
Definition refresh_kept (s s' : Session) : Prop :=
  session_kept s s' ∧ _bufferConfig (client s') = _bufferConfig (client s).

(** The state [publish] starts from: the copy is in the host buffers and
    in the ring, and the store of the driver has landed. *)
Definition copied_state (env : TickEnv) (b i : nat)
    (copied : list (option buffer) * buffer) (st : TickState) : TickState :=
  with_registers (driver_store (driverGeneration env) i)
    (with_session (update (set_asioBuffers b i (fst copied)))
       (with_sharedBuffer (snd copied) st)).

(** What the session of an iteration of endpoint [i] keeps of the
    session [s0] it started from. *)
Definition session_frame (b i : nat) (s0 s : Session) : Prop :=
  session_kept s0 s ∧
  (∀ j, j ≠ i →
     endpointBuffers (client s) b j = endpointBuffers (client s0) b j) ∧
  shape (endpointBuffers (client s) b i)
    = shape (endpointBuffers (client s0) b i).

(** The register array after [_registers[i].positionRegister =
    nextPositionRegister]. *)
Definition advanced (c : SarClient) (r : SarEndpointRegisters) (i : nat)
    (regs : list SarEndpointRegisters) : list SarEndpointRegisters :=
  <[i := set_positionRegister (nextPositionRegister c r) (regs !!! i)]> regs.

(** Modelled from the spec: the macros [GENERATION_IS_ACTIVE] and
    [GENERATION_NUMBER] of the driver's header, which is not among the
    sources; "a versioned value whose low bits encode a monotonically
    increasing epoch and whose high bit (or equivalent sentinel) encodes
    'endpoint has an active client'". *)
Definition generation_is_active (g : Z) : bool := Z.testbit g 31.
Definition generation_number (g : Z) : Z := Z.land g (2 ^ 31 - 1).

(** The same two macros with the flag as the sentinel in bit 0 and the epoch
    above it. *)
Definition generation_is_active_bit0 (g : Z) : bool := Z.testbit g 0.
Definition generation_number_above (g : Z) : Z := Z.shiftr g 1.

(** An active generation, with the flag of both encodings set. *)
Definition g_active : Z := 2 ^ 31 + 15.

(** One playback endpoint of two channels, the second one not routed; a
    period of 75 frames of 4 bytes, so 300 bytes per channel and period. *)
Definition studio_client (handles : list NotificationHandle) : SarClient :=
  {| _driverConfig :=
       {| endpoints :=
            [ {| endpointId := "out"; description := "Speakers";
                 type := Playback; channelCount := 2 |} ];
          enableApplicationRouting := false;
          waveRtMinimumFrames := 0 |};
     _bufferConfig :=
       {| periodFrameSize := 75; sampleSize := 4; sampleRate := 48000;
          asioBuffers := [ [ [Some (replicate 300 x01); None] ];
                           [ [Some (replicate 300 x02); None] ] ] |};
     _device := 5; _completionPort := 6;
     _handleQueueStarted := false;
     _mmEnumerator := 7; _mmNotificationClient := 8;
     _mmNotificationClientRegistered := true;
     _registers := 69632; _sharedBuffer := 65536; _sharedBufferSize := 1024;
     _notificationHandles := handles;
     _updateSampleRateOnTick := false |}.

Definition studio (handles : list NotificationHandle) : Session :=
  {| client := studio_client handles; calls := [] |}.

(** The shared memory of the scenario of C3: a ring of 1024 bytes at offset
    0, the position at 512, two active channels; the generation and the
    notification count are left open. *)
Definition studio_memory (g count : Z) : SharedMemory :=
  {| registers :=
       [ {| generation := g; positionRegister := 512; bufferOffset := 0;
            bufferSize := 1024; notificationCount := count;
            activeChannelCount := 2 |} ];
     sharedBuffer := replicate 1024 x05 |}.

(** The driver does nothing, and the request for handles stays pending. *)
Definition quiet : TickEnv :=
  {| driverGeneration := λ _, None;
     completion := NotDequeued false; completedResponses := [];
     waitStatus := false; waitError := ERROR_IO_PENDING;
     waitInternalHigh := 0; waitResponses := [] |}.

(** The driver gives the endpoint a new client while it is copied. *)
Definition racing : TickEnv :=
  {| driverGeneration := λ _, Some (2 ^ 31 + 17);
     completion := NotDequeued false; completedResponses := [];
     waitStatus := false; waitError := ERROR_IO_PENDING;
     waitInternalHigh := 0; waitResponses := [] |}.

(** The handle of the active generation, and no handle yet. *)
Definition handle_77 : list NotificationHandle :=
  [ {| handleGeneration := g_active; handle := 77 |} ].
Definition no_handle : list NotificationHandle :=
  [ {| handleGeneration := 0; handle := nullptr |} ].

(** A period of one frame of 4 bytes, a ring of 24 bytes with the position
    at 20, and a channel count of [2^30 - 1] in the register. *)
Definition tiny_client : SarClient :=
  {| _driverConfig :=
       {| endpoints :=
            [ {| endpointId := "out"; description := "Speakers";
                 type := Playback; channelCount := 1 |} ];
          enableApplicationRouting := false;
          waveRtMinimumFrames := 0 |};
     _bufferConfig :=
       {| periodFrameSize := 1; sampleSize := 4; sampleRate := 48000;
          asioBuffers := [ [ [Some (replicate 4 x01)] ];
                           [ [Some (replicate 4 x02)] ] ] |};
     _device := 5; _completionPort := 6;
     _handleQueueStarted := false;
     _mmEnumerator := 7; _mmNotificationClient := 8;
     _mmNotificationClientRegistered := true;
     _registers := 69632; _sharedBuffer := 65536; _sharedBufferSize := 24;
     _notificationHandles := no_handle;
     _updateSampleRateOnTick := false |}.

Definition tiny_memory : SharedMemory :=
  {| registers :=
       [ {| generation := g_active; positionRegister := 20; bufferOffset := 0;
            bufferSize := 24; notificationCount := 0;
            activeChannelCount := 2 ^ 30 - 1 |} ];
     sharedBuffer := replicate 24 x05 |}.

(** The two segments of a ring split: inside the memory, of a size a
    [size_t] holds, and apart from each other. *)
Definition ring_split (mem : buffer) (first firstSize second secondSize : Z)
    : Prop :=
  0 <= first ∧ 0 <= second ∧
  0 <= firstSize < 2 ^ 64 ∧ 0 <= secondSize < 2 ^ 64 ∧
  first + firstSize <= Z.of_nat (length mem) ∧
  second + secondSize <= Z.of_nat (length mem) ∧
  (first + firstSize <= second ∨ second + secondSize <= first).

(** The ring holds [frames] frames of [stride] bytes the way the copy loop
    walks it: all of them in the first segment, or the first segment is a
    positive whole number of frames and the second one holds the rest. *)
Definition sufficient_capacity (firstSize secondSize stride frames : Z) : Prop :=
  frames * stride <= firstSize ∨
  ∃ k, 0 < k ∧ firstSize = k * stride ∧ (frames - k) * stride <= secondSize.

(** Where frame [m] of the period starts in the ring. *)
Definition frame_base (first firstSize second stride : Z) (m : Z) : Z :=
  if m <? firstSize / stride then first + m * stride
  else second + (m - firstSize / stride) * stride.

(** What is left of the current segment when frame [m] is about to be
    copied. *)
Definition remaining_at (firstSize secondSize stride : Z) (m : Z) : Z :=
  if m <? firstSize / stride then firstSize - m * stride
  else secondSize - (m - firstSize / stride) * stride.

(** Where the sample of channel [i] in frame [m] lies. *)
Definition sample_at (first firstSize second s n : Z) (i m : Z) : Z :=
  frame_base first firstSize second (s * n) m + s * i.


(** What an iteration for buffer half [b] keeps: the other half. *)
Definition other_half_kept (b : nat) (s s' : Session) : Prop :=
  ∀ b' : nat, b' ≠ b →
    asioBuffers (_bufferConfig (client s')) !! b'
    = asioBuffers (_bufferConfig (client s)) !! b'.

(** The calls [tick] makes. *)
Definition is_format_change (e : OsCall) : bool :=
  match e with
  | DeviceIoControl _ SAR_SEND_FORMAT_CHANGE_EVENT => true
  | _ => false
  end.

Definition is_wait_request (e : OsCall) : bool :=
  match e with
  | DeviceIoControl _ SAR_WAIT_HANDLE_QUEUE => true
  | _ => false
  end.

Definition is_poll (e : OsCall) : bool :=
  match e with
  | GetQueuedCompletionStatus _ => true
  | _ => false
  end.

Definition count_calls (p : OsCall → bool) (l : list OsCall) : nat :=
  length (List.filter p l).

(** A call of the endpoint loop: the poll of the completion port, the
    request for handles, [CloseHandle] and [SetEvent] on a handle that is not
    null. *)
Definition loop_call (e : OsCall) : Prop :=
  match e with
  | GetQueuedCompletionStatus _ => True
  | DeviceIoControl _ SAR_WAIT_HANDLE_QUEUE => True
  | CloseHandle h => h ≠ nullptr
  | SetEvent h => h ≠ nullptr
  | _ => False
  end.

(** [s'] comes from [s] by calls of the endpoint loop, at most [w] requests
    for handles and [p] polls among them, with the format change flag
    kept. *)
Definition adds (w p : nat) (s s' : Session) : Prop :=
  ∃ new,
    calls s' = calls s ++ new ∧
    _updateSampleRateOnTick (client s') = _updateSampleRateOnTick (client s) ∧
    Forall loop_call new ∧
    (count_calls is_wait_request new <= w)%nat ∧
    (count_calls is_poll new <= p)%nat.

(** What is left of the one refresh a tick may make. *)
Definition refresh_budget (st : TickState) : nat :=
  if hasUpdatedNotificationHandles st then 0%nat else 1%nat.

(** [(DWORD)(response->associatedData >> 32)], as an index. *)
Definition response_endpoint (r : SarHandleQueueResponse) : nat :=
  Z.to_nat (DWORD (Z.shiftr (associatedData r) 32)).

(** The entry a response puts into [_notificationHandles]. *)
Definition response_entry (r : SarHandleQueueResponse) : NotificationHandle :=
  {| handleGeneration := DWORD (Z.land (associatedData r) 0xFFFFFFFF);
     handle := responseHandle r |}.

(** The handles a list of entries holds: the ones that are not null. *)
Definition held (handles : list NotificationHandle) : list Z :=
  filter (λ h, h ≠ nullptr) (handle <$> handles).

(** One update, by the response instead of its index. *)
Definition apply_response (s : Session) (r : SarHandleQueueResponse) : Session :=
  let old := _notificationHandles (client s) !!! response_endpoint r in
  let s := if negb (handle old =? nullptr) then call (CloseHandle (handle old)) s
           else s in
  update
    (λ c, set_notificationHandles
            (<[response_endpoint r := response_entry r]> (_notificationHandles c))
            c) s.

(** The call [createEndpoints] makes for [endpoint], the [i]-th of the
    configuration. *)
Definition create_endpoint_call (device : Z) (i : nat)
    (endpoint : EndpointConfig) : OsCall :=
  DeviceIoControl device (SAR_CREATE_ENDPOINT (createEndpointRequest i endpoint)).

(** The earlier request for handles is outstanding and the poll of the
    completion port finds nothing, not even a failed operation. *)
Definition still_pending (env : TickEnv) (s : Session) : bool :=
  _handleQueueStarted (client s) &&
  match completion env with
  | NotDequeued false => true
  | _ => false
  end.

(** The engine object a successful [start] leaves, from the object it was
    given and what the operating system and the driver answered. *)
Definition started_client (c : SarClient) (device port enumerator notifier : Z)
    (response : SarSetBufferLayoutResponse) : SarClient :=
  {| _driverConfig := _driverConfig c; _bufferConfig := _bufferConfig c;
     _device := device; _completionPort := port;
     _handleQueueStarted := _handleQueueStarted c;
     _mmEnumerator := enumerator; _mmNotificationClient := notifier;
     _mmNotificationClientRegistered := true;
     _registers := virtualAddress response + registerBase response;
     _sharedBuffer := virtualAddress response;
     _sharedBufferSize := actualSize response;
     _notificationHandles :=
       replicate (length (endpoints (_driverConfig c)))
         {| handleGeneration := 0; handle := nullptr |};
     _updateSampleRateOnTick := _updateSampleRateOnTick c |}.

(** Every answer is a success; the device opens as 5, the port as 6. *)
Definition boot_ok : BootEnv :=
  {| classDevs := true; enumInterfaces := true;
     detailSizeError := ERROR_INSUFFICIENT_BUFFER; interfaceDetail := true;
     createdFile := 5; createdPort := 6;
     enumeratorInstance := Some 7; clientInstance := Some 8;
     registerCallback := true;
     layoutResponse :=
       Some {| virtualAddress := 65536; actualSize := 1024; registerBase := 4096 |};
     createEndpoint := λ _, true; registryFilter := true |}.

Definition is_class_devs (e : OsCall) : bool :=
  match e with
  | SetupDiGetClassDevs => true
  | _ => false
  end.

Definition is_destroy_list (e : OsCall) : bool :=
  match e with
  | SetupDiDestroyDeviceInfoList => true
  | _ => false
  end.

(** Where frame [m] of a period that starts at [position] lies in the ring
    of an endpoint, which begins at [offset] and wraps at [size]. *)
Definition ring_position (offset size position stride m : Z) : Z :=
  offset + (position + m * stride) mod size.

(** The configuration and the registers of an endpoint describe a period
    [tick] copies whole: the counts are positive and fit an [int], as does
    the size of a frame, the registers hold what a [ULONG] can, the ring of
    the endpoint lies inside the mapping and holds the period, and the
    position is at a frame boundary counted from the end of the ring. *)
Record copyable (c : SarClient) (r : SarEndpointRegisters) (ring : buffer)
    : Prop := {
  frames_fit : 0 < periodFrameSize (_bufferConfig c) < 2 ^ 31;
  sample_fits : 0 < sampleSize (_bufferConfig c) < 2 ^ 31;
  channels_fit : 0 < activeChannelCount r < 2 ^ 31;
  stride_fits :
    sampleSize (_bufferConfig c) * activeChannelCount r < 2 ^ 31;
  position_inside : 0 <= positionRegister r < bufferSize r;
  offset_inside : 0 <= bufferOffset r;
  ring_inside : bufferOffset r + bufferSize r <= _sharedBufferSize c;
  mapping_fits : _sharedBufferSize c < 2 ^ 32;
  mapping_there : _sharedBufferSize c <= Z.of_nat (length ring);
  period_fits :
    periodFrameSize (_bufferConfig c) * sampleSize (_bufferConfig c)
      * activeChannelCount r <= bufferSize r;
  frames_aligned :
    (bufferSize r - positionRegister r)
      mod (sampleSize (_bufferConfig c) * activeChannelCount r) = 0;
}.

(** The host buffers [new] hold the period the registers [r] point at in
    [ring]: in every block of [old] that is not null, has the size of one
    period and belongs to a channel below the active channel count, sample
    [k] is the sample of that channel in the frame at ring position
    [(positionRegister + k * stride) mod bufferSize]. *)
Definition holds_period (c : SarClient) (r : SarEndpointRegisters)
    (ring : buffer) (old new : list (option buffer)) : Prop :=
  let F := periodFrameSize (_bufferConfig c) in
  let s := sampleSize (_bufferConfig c) in
  ∀ (ch : nat) (tb : buffer),
    Z.of_nat ch < activeChannelCount r →
    old !! ch = Some (Some tb) →
    Z.of_nat (length tb) = F * s →
    ∃ tb',
      new !! ch = Some (Some tb') ∧ length tb' = length tb ∧
      ∀ k, 0 <= k < F →
           load tb' (k * s) s
           = load ring
               (ring_position (bufferOffset r) (bufferSize r)
                  (positionRegister r) (s * activeChannelCount r) k
                + s * Z.of_nat ch) s.

(** One recording endpoint of two channels, both routed; a period of 75
    frames of 4 bytes. *)
Definition booth_client : SarClient :=
  {| _driverConfig :=
       {| endpoints :=
            [ {| endpointId := "in"; description := "Microphone";
                 type := Recording; channelCount := 2 |} ];
          enableApplicationRouting := false;
          waveRtMinimumFrames := 0 |};
     _bufferConfig :=
       {| periodFrameSize := 75; sampleSize := 4; sampleRate := 48000;
          asioBuffers :=
            [ [ [Some (replicate 300 x01); Some (replicate 300 x02)] ];
              [ [Some (replicate 300 x03); Some (replicate 300 x04)] ] ] |};
     _device := 5; _completionPort := 6;
     _handleQueueStarted := false;
     _mmEnumerator := 7; _mmNotificationClient := 8;
     _mmNotificationClientRegistered := true;
     _registers := 69632; _sharedBuffer := 65536; _sharedBufferSize := 1024;
     _notificationHandles := no_handle;
     _updateSampleRateOnTick := false |}.

Definition booth : Session := {| client := booth_client; calls := [] |}.

(** The layout registers of an endpoint cannot be used: the ring is empty,
    the position lies beyond its end, or it does not fit the mapping; all
    three as [tick] computes them, in 32 bits. *)
Definition invalid_layout (c : SarClient) (r : SarEndpointRegisters) : Prop :=
  DWORD (bufferSize r) = 0 ∨
  DWORD (bufferSize r) < DWORD (positionRegister r) ∨
  DWORD (_sharedBufferSize c)
    < DWORD (DWORD (bufferOffset r) + DWORD (bufferSize r)).

(** No endpoint asks for a handle it does not have: its notification count
    is zero, or its handle is of the generation number of the register. *)
Definition handles_current (GENERATION_NUMBER : Z → Z)
    (handles : list NotificationHandle) (regs : list SarEndpointRegisters)
    (n : nat) : Prop :=
  ∀ i : nat, (i < n)%nat →
    DWORD (notificationCount (regs !!! i)) = 0 ∨
    GENERATION_NUMBER (DWORD (generation (regs !!! i)))
    = GENERATION_NUMBER (handleGeneration (handles !!! i)).

(** ** The session life cycle *)

(** Case analysis on the tests of a straight-line function. *)
Ltac branches :=
  repeat match goal with
         | |- context [if ?b then _ else _] => destruct b eqn:?; cbn in *
         | |- context [match ?o with Some _ => _ | None => _ end] =>
             destruct o eqn:?; cbn in *
         end.

Ltac decide_tests :=
  repeat match goal with
         | H : negb _ = false |- _ => apply negb_false_iff in H
         | H : negb _ = true |- _ => apply negb_true_iff in H
         | H : (_ =? _) = true |- _ => apply Z.eqb_eq in H
         | H : (_ =? _) = false |- _ => apply Z.eqb_neq in H
         end.

Lemma stop_torn_down (s : Session) : torn_down (client (stop s)).
Proof.
  destruct s as [[] tr]. unfold torn_down, stop, update, call. cbn.
  branches; decide_tests; repeat split; congruence.
Qed.

(** C9. [stop] is idempotent: a second [stop] in a row makes no call at all
    and leaves the whole engine object, hence the device handle, the
    shared-region and register pointers, the shared size, the notification
    registration and the completion port, as the first one left them. *)
Theorem stop_idempotent (s : Session) :
  stop (stop s) = stop s ∧
  calls (stop (stop s)) = calls (stop s) ∧
  torn_down (client (stop (stop s))).
Proof.
  assert (E : stop (stop s) = stop s).
  { pose proof (stop_torn_down s) as H.
    destruct (stop s) as [[] tr]. unfold torn_down in H. cbn in H.
    destruct H as (-> & -> & -> & -> & ->). reflexivity. }
  rewrite E. split; [reflexivity|]. split; [reflexivity|].
  apply stop_torn_down.
Qed.

Lemma stop_releases (s : Session) :
  _device (client s) ≠ INVALID_HANDLE_VALUE → released (client (stop s)).
Proof.
  intros Hdev. split; [apply stop_torn_down|].
  destruct s as [[] tr]. cbn in Hdev. unfold stop, update, call. cbn.
  branches; decide_tests; repeat split; congruence.
Qed.

Lemma openControlDevice_device (env : BootEnv) (s : Session) :
  fst (openControlDevice env s) = true →
  _device (client (snd (openControlDevice env s))) ≠ INVALID_HANDLE_VALUE.
Proof.
  destruct s as [[] tr]. unfold openControlDevice, update, call. cbn.
  branches; decide_tests; cbn; congruence.
Qed.

Lemma openMmNotificationClient_device (env : BootEnv) (s : Session) :
  _device (client (snd (openMmNotificationClient env s))) = _device (client s).
Proof.
  destruct s as [[] tr]. unfold openMmNotificationClient, update, call. cbn.
  branches; reflexivity.
Qed.

Lemma setBufferLayout_device (env : BootEnv) (s : Session) :
  _device (client (snd (setBufferLayout env s))) = _device (client s).
Proof.
  destruct s as [[] tr]. unfold setBufferLayout, update, call. cbn.
  branches; reflexivity.
Qed.

Lemma createEndpoints_from_client (env : BootEnv) (rest : list EndpointConfig) :
  ∀ (i : nat) (s : Session),
    client (snd (createEndpoints_from env i rest s)) = client s.
Proof.
  induction rest as [|e rest IH]; intros i s; cbn; [reflexivity|].
  destruct (createEndpoint env i); cbn; [|reflexivity].
  rewrite IH. reflexivity.
Qed.

Lemma start_after_control_device (env : BootEnv) (s : Session) :
  fst (openControlDevice env s) = true →
  start env s =
    let s1 := snd (openControlDevice env s) in
    let r2 := openMmNotificationClient env s1 in
    if negb (fst r2) then (false, stop (snd r2)) else
    let r3 := setBufferLayout env (snd r2) in
    if negb (fst r3) then (false, stop (snd r3)) else
    let r4 := createEndpoints env (snd r3) in
    if negb (fst r4) then (false, stop (snd r4)) else
    if enableApplicationRouting (_driverConfig (client (snd r4))) then
      (true, snd (enableRegistryFilter env (snd r4)))
    else (true, snd r4).
Proof.
  intros H1. unfold start.
  destruct (openControlDevice env s) as [ok1 s1]. cbn in H1. subst ok1. cbn.
  destruct (openMmNotificationClient env s1) as [[] s2]; cbn; [|reflexivity].
  destruct (setBufferLayout env s2) as [[] s3]; cbn; [|reflexivity].
  destruct (createEndpoints env s3) as [[] s4]; cbn; reflexivity.
Qed.

(** C8, as the code has it.  A failure of [openControlDevice] makes [start]
    return false with the session exactly as that step left it: [stop] is
    not run.  A failure of one of the three later steps makes [start] run
    [stop] on the session that step left and return false, and the device
    handle, the completion port, the notification client and the mapping
    are then released.  When no step fails [start] returns true. *)
Theorem start_unwinds_after_control_device (env : BootEnv) (s : Session) :
  match first_failure env s with
  | None => fst (start env s) = true
  | Some (ControlDevice, s') => start env s = (false, s')
  | Some (_, s') =>
      start env s = (false, stop s') ∧ released (client (snd (start env s)))
  end.
Proof.
  unfold first_failure.
  destruct (fst (openControlDevice env s)) eqn:H1; cbn.
  2:{ unfold start. destruct (openControlDevice env s) as [ok1 s1].
      cbn in H1. subst ok1. reflexivity. }
  rewrite (start_after_control_device env s H1). cbn.
  pose proof (openControlDevice_device env s H1) as Hdev.
  set (s1 := snd (openControlDevice env s)) in *.
  pose proof (openMmNotificationClient_device env s1) as Hd2.
  destruct (fst (openMmNotificationClient env s1)) eqn:H2; cbn.
  2:{ split; [reflexivity|]. apply stop_releases. congruence. }
  set (s2 := snd (openMmNotificationClient env s1)) in *.
  pose proof (setBufferLayout_device env s2) as Hd3.
  destruct (fst (setBufferLayout env s2)) eqn:H3; cbn.
  2:{ split; [reflexivity|]. apply stop_releases. congruence. }
  set (s3 := snd (setBufferLayout env s2)) in *.
  pose proof (createEndpoints_from_client env
                (endpoints (_driverConfig (client s3))) 0 s3) as Hd4.
  fold (createEndpoints env s3) in Hd4.
  destruct (fst (createEndpoints env s3)) eqn:H4; cbn.
  2:{ split; [reflexivity|]. apply stop_releases. congruence. }
  destruct (enableApplicationRouting _); reflexivity.
Qed.

(** C8 as stated fails: opening the control channel fails, [start] returns
    false, and what it returns is not a state [stop] can leave (the device
    field is null, not [INVALID_HANDLE_VALUE]; no [CancelIoEx] was made). *)
Lemma start_returns_without_stop :
  fst (start boot_no_port fresh_session) = false ∧
  first_failure boot_no_port fresh_session
    = Some (ControlDevice, snd (start boot_no_port fresh_session)) ∧
  (∀ s' : Session, snd (start boot_no_port fresh_session) ≠ stop s') ∧
  CancelIoEx 5 ∉ calls (snd (start boot_no_port fresh_session)).
Proof.
  split; [reflexivity|]. split; [reflexivity|]. split.
  - intros s' E. pose proof (stop_torn_down s') as (_ & _ & _ & Hd & _).
    rewrite <- E in Hd. vm_compute in Hd. discriminate.
  - intros H. apply list_elem_of_In in H. vm_compute in H.
    intuition discriminate.
Qed.

(** ** Loops *)

Lemma bind_Ok {A B : Type} (m : result A) (k : A → result B) (b : B) :
  bind m k = Ok b ↔ ∃ a, m = Ok a ∧ k a = Ok b.
Proof.
  destruct m as [a|f]; cbn; split.
  - eauto.
  - intros (a' & [= <-] & H). exact H.
  - discriminate.
  - intros (a' & [=] & _).
Qed.

Lemma for_each_app {A : Type} (body : A → nat → result A) (l1 l2 : list nat) :
  ∀ a, for_each body (l1 ++ l2) a = (a' <- for_each body l1 a ;; for_each body l2 a').
Proof.
  induction l1 as [|i l1 IH]; intros a; cbn; [reflexivity|].
  destruct (body a i) as [a'|f]; cbn; [apply IH|reflexivity].
Qed.

(** A loop whose every iteration returns and keeps [I] returns and keeps [I]. *)
Lemma for_each_total {A : Type} (I : A → Prop) (body : A → nat → result A)
    (range : list nat) :
  (∀ a i, i ∈ range → I a → ∃ a', body a i = Ok a' ∧ I a') →
  ∀ a, I a → ∃ a', for_each body range a = Ok a' ∧ I a'.
Proof.
  induction range as [|i range IH]; intros Hbody a Ha; cbn.
  - eauto.
  - destruct (Hbody a i) as (a1 & -> & Ha1); [left|assumption|]. cbn.
    apply IH; [|assumption].
    intros a2 k Hk. apply Hbody. by right.
Qed.

(** What the iterations that return keep, the loop keeps. *)
Lemma for_each_keeps {A : Type} (I : A → Prop) (body : A → nat → result A)
    (range : list nat) :
  (∀ a i a', i ∈ range → I a → body a i = Ok a' → I a') →
  ∀ a a', I a → for_each body range a = Ok a' → I a'.
Proof.
  induction range as [|i range IH]; intros Hbody a a' Ha; cbn.
  - intros [= <-]. exact Ha.
  - intros H. apply bind_Ok in H as (a1 & H1 & H2).
    eapply IH; [| |exact H2].
    + intros a2 k a3 Hk. apply Hbody. by right.
    + eapply Hbody; [left|exact Ha|exact H1].
Qed.

(** A loop faults only with a fault of one of its iterations. *)
Lemma for_each_fault {A : Type} (body : A → nat → result A) (range : list nat)
    (f : fault) :
  (∀ a i, body a i ≠ Fault f) → ∀ a, for_each body range a ≠ Fault f.
Proof.
  intros Hbody. induction range as [|i range IH]; intros a; cbn; [discriminate|].
  destruct (body a i) as [a'|f'] eqn:E; cbn; [apply IH|].
  intros [= ->]. by apply (Hbody a i).
Qed.

Section copy_loop_facts.
Context {A : Type} (copy : A → Z → Z → A).
Variables targetSize sourceStride sampleSize secondBuf secondSize : Z.
Local Abbreviation loop :=
  (copy_loop copy targetSize sourceStride sampleSize secondBuf secondSize).

(** One test of the loop condition. *)
Lemma copy_loop_S (fuel : nat) (a : A) (j buf remaining : Z) :
  loop (S fuel) a j buf remaining
  = if (j <? targetSize) && (sourceStride <=? remaining) then
      if remaining - sourceStride =? 0
      then loop fuel (copy a j buf) (size_t (j + sampleSize)) secondBuf
             secondSize
      else loop fuel (copy a j buf) (size_t (j + sampleSize))
             (buf + sourceStride) (remaining - sourceStride)
    else Ok a.
Proof. reflexivity. Qed.

Lemma copy_loop_fault (fuel : nat) :
  ∀ a j buf remaining f, loop fuel a j buf remaining = Fault f → f = Hang.
Proof.
  induction fuel as [|fuel IH]; intros a j buf remaining f; cbn.
  - by intros [= <-].
  - destruct (_ && _); [|discriminate].
    destruct (_ =? 0); apply IH.
Qed.

Lemma copy_loop_keeps (I : A → Prop) :
  (∀ a j buf, I a → I (copy a j buf)) →
  ∀ fuel a j buf remaining a',
    I a → loop fuel a j buf remaining = Ok a' → I a'.
Proof.
  intros Hcopy. induction fuel as [|fuel IH]; intros a j buf remaining a' Ha; cbn.
  - discriminate.
  - destruct (_ && _); [|by intros [= <-]].
    destruct (_ =? 0); apply IH; by apply Hcopy.
Qed.

(** With a positive sample size, and a [targetSize] that leaves the byte
    index room for its last step, the index reaches [targetSize]. *)
Lemma copy_loop_returns (fuel : nat) :
  0 < sampleSize → targetSize + sampleSize <= 2 ^ 64 →
  ∀ a j buf remaining,
    0 <= j → (Z.to_nat (targetSize - j) < fuel)%nat →
    ∃ a', loop fuel a j buf remaining = Ok a'.
Proof.
  intros Hs Hfit.
  induction fuel as [|fuel IH]; intros a j buf remaining Hj0 Hfuel;
    cbn [copy_loop].
  - lia.
  - destruct (j <? targetSize) eqn:Hj; cbn [andb]; [|eauto].
    apply Z.ltb_lt in Hj.
    destruct (sourceStride <=? remaining); [|eauto].
    assert (size_t (j + sampleSize) = j + sampleSize) as ->
      by (unfold size_t; apply Z.mod_small; lia).
    destruct (_ =? 0); apply IH; lia.
Qed.

(** The loop is not entered when the test fails at once. *)
Lemma copy_loop_skipped (fuel : nat) (a : A) (j buf remaining : Z) :
  targetSize <= j ∨ remaining < sourceStride →
  loop (S fuel) a j buf remaining = Ok a.
Proof.
  intros H. cbn.
  destruct (j <? targetSize) eqn:Hj; cbn; [|reflexivity].
  destruct (sourceStride <=? remaining) eqn:Hr; [|reflexivity].
  apply Z.ltb_lt in Hj. apply Z.leb_le in Hr. lia.
Qed.

(** With a negative sample size the byte index is, after its first step,
    a large [size_t]: the loop makes one step at most. *)
Lemma copy_loop_steps_back (fuel : nat) (a : A) (buf remaining : Z) :
  targetSize <= size_t sampleSize →
  ∃ a', loop (S (S fuel)) a 0 buf remaining = Ok a'.
Proof.
  intros H. rewrite copy_loop_S. destruct (_ && _); [|eauto].
  change (0 + sampleSize) with sampleSize.
  destruct (_ =? 0); rewrite copy_loop_skipped by (left; exact H); eauto.
Qed.
End copy_loop_facts.

(** ** Memory facts *)

Lemma length_store (m : buffer) (p : Z) (bs : list byte) :
  length (store m p bs) = length m.
Proof. apply length_inserts. Qed.

Lemma length_memcpy (dst : buffer) (d : Z) (src : buffer) (s n : Z) :
  length (memcpy dst d src s n) = length dst.
Proof. apply length_store. Qed.

Lemma length_memset0 (dst : buffer) (n : Z) : length (memset0 dst n) = length dst.
Proof. apply length_store. Qed.

(** After [memset(dst, 0, n)] each of the first [n] bytes of the block is 0. *)
Lemma memset0_zero (dst : buffer) (n : Z) (q : nat) :
  (q < Z.to_nat n)%nat → (q < length dst)%nat → memset0 dst n !! q = Some x00.
Proof.
  intros Hq Hlen. unfold memset0, store.
  rewrite list_lookup_inserts; [|rewrite length_replicate; cbn; lia|assumption].
  apply lookup_replicate_2. cbn. lia.
Qed.

Lemma memset0_beyond (dst : buffer) (n : Z) (q : nat) :
  (Z.to_nat n <= q)%nat → memset0 dst n !! q = dst !! q.
Proof.
  intros Hq. unfold memset0, store.
  apply list_lookup_inserts_ge. rewrite length_replicate. cbn. lia.
Qed.

(** ** Channel arrays *)

Lemma lookup_total_option {A : Type} (l : list (option A)) (i : nat) :
  l !!! i = default None (l !! i).
Proof. rewrite list_lookup_total_alt. reflexivity. Qed.

Lemma shape_insert (tbs : list (option buffer)) (i : nat) (b b' : buffer) :
  tbs !! i = Some (Some b) → length b' = length b →
  shape (<[i := Some b']> tbs) = shape tbs.
Proof.
  intros Hi Hlen. unfold shape. rewrite list_fmap_insert. cbn.
  apply list_insert_id. rewrite list_lookup_fmap, Hi. cbn. by rewrite Hlen.
Qed.

Lemma shape_lookup (tbs tbs' : list (option buffer)) (k : nat) :
  shape tbs' = shape tbs → block_size <$> tbs' !! k = block_size <$> tbs !! k.
Proof. intros H. rewrite <- !list_lookup_fmap. fold (shape tbs'). by rewrite H. Qed.

Lemma channel_step_other R tbs i tbs' (k : nat) :
  channel_step R tbs i tbs' → k ≠ i → tbs' !! k = tbs !! k.
Proof.
  intros [[_ ->]|(b & b' & _ & -> & _)] Hk; [reflexivity|].
  by apply list_lookup_insert_ne.
Qed.

Lemma channel_step_shape R tbs i tbs' :
  channel_step R tbs i tbs' → shape tbs' = shape tbs.
Proof.
  intros [[_ ->]|(b & b' & Hi & -> & Hlen & _)]; [reflexivity|].
  by eapply shape_insert.
Qed.

Lemma lookup_total_Some (tbs : list (option buffer)) (i : nat) (b : buffer) :
  tbs !!! i = Some b → tbs !! i = Some (Some b).
Proof.
  rewrite lookup_total_option. destruct (tbs !! i) as [[b'|]|]; cbn; congruence.
Qed.

Lemma silence_channel_step (n : Z) (tbs : list (option buffer)) (i : nat) :
  ∃ tbs', silence_channel n tbs i = Ok tbs' ∧
          channel_step (λ b b', b' = memset0 b n) tbs i tbs'.
Proof.
  unfold silence_channel. destruct (tbs !!! i) as [b|] eqn:E; cbn.
  - eexists. split; [reflexivity|]. right. exists b, (memset0 b n).
    split; [by apply lookup_total_Some|]. split; [reflexivity|].
    split; [apply length_memset0|reflexivity].
  - eexists. split; [reflexivity|]. by left.
Qed.

Lemma demux_channel_step (fuel : nat) (mem : buffer)
    (first firstSize second secondSize targetSize sourceStride sampleSize : Z)
    (tbs : list (option buffer)) (i : nat) (tbs' : list (option buffer)) :
  demux_channel fuel mem first firstSize second secondSize targetSize
    sourceStride sampleSize tbs i = Ok tbs' →
  channel_step
    (λ b b',
       copy_loop (λ tb j buf, memcpy tb j mem buf (size_t sampleSize))
         targetSize sourceStride sampleSize
         (second + int (sampleSize * Z.of_nat i)) secondSize fuel b 0
         (first + int (sampleSize * Z.of_nat i)) firstSize = Ok b')
    tbs i tbs'.
Proof.
  unfold demux_channel. destruct (tbs !!! i) as [b|] eqn:E; cbn.
  - intros H. apply bind_Ok in H as (b' & Hloop & [= <-]).
    right. exists b, b'. split; [by apply lookup_total_Some|].
    split; [reflexivity|]. split; [|exact Hloop].
    eapply (copy_loop_keeps _ _ _ _ _ _ (λ x, length x = length b));
      [|reflexivity|exact Hloop].
    intros a j buf Ha. cbv beta. by rewrite length_memcpy.
  - intros [= <-]. by left.
Qed.

(** A loop of channel steps leaves the entries outside its range alone and
    keeps the shape of the array. *)
Lemma channel_loop_frame (body : list (option buffer) → nat → result (list (option buffer)))
    (R : nat → buffer → buffer → Prop) (range : list nat) :
  (∀ tbs i tbs', body tbs i = Ok tbs' → channel_step (R i) tbs i tbs') →
  ∀ tbs tbs',
    for_each body range tbs = Ok tbs' →
    shape tbs' = shape tbs ∧ ∀ k, k ∉ range → tbs' !! k = tbs !! k.
Proof.
  intros Hbody tbs tbs' H.
  apply (for_each_keeps
           (λ t, shape t = shape tbs ∧ ∀ k, k ∉ range → t !! k = tbs !! k)
           body range) with (a := tbs); [|by split|exact H].
  intros t i t' Hi [Hshape Hout] Hstep. apply Hbody in Hstep. split.
  - rewrite <- Hshape. by eapply channel_step_shape.
  - intros k Hk. rewrite <- (Hout k Hk).
    eapply channel_step_other; [exact Hstep|]. intros ->. by apply Hk.
Qed.

(** The silence loop over distinct indices: it returns, and it applies
    [memset] to exactly the blocks in its range. *)
Lemma silence_loop (n : Z) (range : list nat) :
  NoDup range →
  ∀ tbs, ∃ tbs',
    for_each (silence_channel n) range tbs = Ok tbs' ∧
    ∀ k, tbs' !! k =
         if decide (k ∈ range) then fmap (λ b, memset0 b n) <$> tbs !! k
         else tbs !! k.
Proof.
  induction 1 as [|i range Hi Hnd IH]; intros tbs; cbn.
  - exists tbs. split; [reflexivity|]. intros k.
    destruct (decide (k ∈ [])) as [Hk|]; [by apply elem_of_nil in Hk|reflexivity].
  - destruct (silence_channel_step n tbs i) as (t1 & -> & Hstep). cbn.
    destruct (IH t1) as (tbs' & -> & Hlook). exists tbs'. split; [reflexivity|].
    intros k. rewrite Hlook.
    destruct (decide (k = i)) as [->|Hne].
    + destruct (decide (i ∈ range)) as [|_]; [contradiction|].
      destruct (decide (i ∈ i :: range)) as [_|Hn]; [|exfalso; apply Hn; left].
      destruct Hstep as [[Hnull ->]|(b & b' & Hb & -> & Hlen & ->)].
      * rewrite lookup_total_option in Hnull.
        destruct (tbs !! i) as [[|]|]; cbn in *; congruence.
      * rewrite Hb. cbn. apply list_lookup_insert_eq. by eapply lookup_lt_Some.
    + rewrite (channel_step_other _ _ _ _ k Hstep Hne).
      destruct (decide (k ∈ range)) as [Hin|Hout];
        destruct (decide (k ∈ i :: range)) as [Hin'|Hout']; try reflexivity.
      * exfalso. apply Hout'. by right.
      * apply elem_of_cons in Hin' as [?|?]; contradiction.
Qed.

Lemma silence_silenced (n : Z) (bufs : list (option buffer)) (ntargets : Z) :
  ntargets = Z.of_nat (length bufs) →
  ∃ bufs', silence n bufs ntargets = Ok bufs' ∧ silenced n bufs bufs'.
Proof.
  intros ->. unfold silence. rewrite Nat2Z.id.
  destruct (silence_loop n (seq 0 (length bufs)) (NoDup_seq _ _) bufs)
    as (bufs' & -> & Hlook).
  exists bufs'. split; [reflexivity|]. split.
  - apply list_eq. intros k. unfold shape. rewrite !list_lookup_fmap, Hlook.
    destruct (decide _); [|reflexivity].
    destruct (bufs !! k) as [[b|]|]; cbn; [|reflexivity..].
    by rewrite length_memset0.
  - intros k b Hk q Hq Hlen. rewrite Hlook in Hk.
    destruct (decide (k ∈ seq 0 (length bufs))) as [_|Hout].
    + destruct (bufs !! k) as [[b0|]|]; cbn in Hk; try discriminate.
      injection Hk as <-. rewrite length_memset0 in Hlen.
      by apply memset0_zero.
    + exfalso. apply Hout. apply elem_of_seq.
      apply lookup_lt_Some in Hk. lia.
Qed.

(** ** The codec: faults and termination *)

Lemma demux_channel_fault fuel mem first firstSize second secondSize targetSize
    sourceStride sampleSize tbs i f :
  demux_channel fuel mem first firstSize second secondSize targetSize
    sourceStride sampleSize tbs i = Fault f → f = Hang.
Proof.
  unfold demux_channel. destruct (tbs !!! i) as [b|]; cbn; [|discriminate].
  destruct (copy_loop _ _ _ _ _ _ _ _ _ _ _) as [b'|f'] eqn:E; cbn; [discriminate|].
  intros [= <-]. by eapply copy_loop_fault.
Qed.

Lemma mux_channel_fault fuel first firstSize second secondSize targetSize
    sourceStride sampleSize tbs mem i f :
  mux_channel fuel first firstSize second secondSize targetSize
    sourceStride sampleSize tbs mem i = Fault f → f = Hang.
Proof.
  unfold mux_channel. destruct (tbs !!! i) as [b|]; cbn; [|discriminate].
  apply copy_loop_fault.
Qed.

Lemma silence_channel_fault n tbs i f : silence_channel n tbs i ≠ Fault f.
Proof. destruct (silence_channel_step n tbs i) as (t & -> & _). discriminate. Qed.

Lemma demux_with_fault fuel mem first firstSize second secondSize tbs ntargets
    nsources targetSize sampleSize f :
  demux_with fuel mem first firstSize second secondSize tbs ntargets nsources
    targetSize sampleSize = Fault f → f = Hang.
Proof.
  unfold demux_with. intros H. destruct f; [exfalso|reflexivity].
  match type of H with bind ?m _ = _ => destruct m as [t1|f1] eqn:E1 end; cbn in H.
  - revert H. apply for_each_fault. intros. apply silence_channel_fault.
  - injection H as ->. revert E1. apply for_each_fault.
    intros a i E. by apply demux_channel_fault in E.
Qed.

Lemma mux_with_fault fuel mem first firstSize second secondSize tbs ntargets
    nsources targetSize sampleSize f :
  mux_with fuel mem first firstSize second secondSize tbs ntargets nsources
    targetSize sampleSize = Fault f → f = Hang.
Proof.
  unfold mux_with. intros H. destruct f; [exfalso|reflexivity].
  revert H. apply for_each_fault. intros a i E. by apply mux_channel_fault in E.
Qed.

(** The copy loop of a channel ends in each of the three ways of
    [copy_ends]. *)
Lemma copy_loop_ends {A : Type} (copy : A → Z → Z → A)
    (targetSize sourceStride sampleSize secondBuf secondSize : Z)
    (a : A) (buf remaining : Z) :
  copy_ends targetSize sampleSize →
  ∃ a', copy_loop copy targetSize sourceStride sampleSize secondBuf secondSize
          (loop_budget targetSize) a 0 buf remaining = Ok a'.
Proof.
  intros [[Hs Hfit]|[Ht|[Hs Hback]]].
  - apply copy_loop_returns; [assumption..|lia|unfold loop_budget; lia].
  - exists a. apply copy_loop_skipped. lia.
  - unfold loop_budget. destruct (Z.to_nat targetSize) as [|k] eqn:E.
    + exists a. apply copy_loop_skipped. lia.
    + by apply copy_loop_steps_back.
Qed.

Lemma demux_channel_returns mem first firstSize second secondSize targetSize
    sourceStride sampleSize tbs i :
  copy_ends targetSize sampleSize →
  ∃ tbs', demux_channel (loop_budget targetSize) mem first firstSize second
            secondSize targetSize sourceStride sampleSize tbs i = Ok tbs'.
Proof.
  intros Hends. unfold demux_channel.
  destruct (tbs !!! i) as [b|]; cbn; [|eauto].
  edestruct (copy_loop_ends
               (λ tb j buf, memcpy tb j mem buf (size_t sampleSize)))
    as (b' & ->); [exact Hends|]. cbn. eauto.
Qed.

Lemma mux_channel_returns first firstSize second secondSize targetSize
    sourceStride sampleSize tbs mem i :
  copy_ends targetSize sampleSize →
  ∃ mem', mux_channel (loop_budget targetSize) first firstSize second
            secondSize targetSize sourceStride sampleSize tbs mem i = Ok mem'.
Proof.
  intros Hends. unfold mux_channel.
  destruct (tbs !!! i) as [b|]; cbn; [|eauto].
  by apply copy_loop_ends.
Qed.

Lemma demux_returns mem first firstSize second secondSize
    (tbs : list (option buffer)) ntargets nsources targetSize sampleSize :
  copy_ends targetSize sampleSize →
  ∃ tbs', demux mem first firstSize second secondSize tbs ntargets nsources
            targetSize sampleSize = Ok tbs'.
Proof.
  intros Hends. unfold demux, demux_with.
  edestruct (for_each_total (λ _ : list (option buffer), True))
    as (t1 & -> & _); [|exact I|].
  { intros a i _ _.
    edestruct demux_channel_returns as (t & ->); [exact Hends|]. eauto. }
  cbn. edestruct silence_loop as (t2 & -> & _); [apply NoDup_seq|]. eauto.
Qed.

Lemma mux_returns mem first firstSize second secondSize
    (tbs : list (option buffer)) ntargets nsources targetSize sampleSize :
  copy_ends targetSize sampleSize →
  ∃ mem', mux mem first firstSize second secondSize tbs ntargets nsources
            targetSize sampleSize = Ok mem'.
Proof.
  intros Hends. unfold mux, mux_with.
  edestruct (for_each_total (λ _ : buffer, True)) as (m1 & -> & _);
    [|exact I|eauto].
  intros a i _ _.
  edestruct mux_channel_returns as (m' & ->); [exact Hends|]. eauto.
Qed.

(** What [demux] does to the channel array, whenever it returns. *)
Lemma demux_with_channels fuel mem first firstSize second secondSize tbs
    ntargets nsources targetSize sampleSize tbs' :
  demux_with fuel mem first firstSize second secondSize tbs ntargets nsources
    targetSize sampleSize = Ok tbs' →
  shape tbs' = shape tbs ∧
  (∀ k : nat, ntargets <= Z.of_nat k → tbs' !! k = tbs !! k) ∧
  (∀ (k : nat) (b : buffer),
     nsources <= Z.of_nat k < ntargets → tbs !! k = Some (Some b) →
     tbs' !! k = Some (Some (memset0 b targetSize))).
Proof.
  unfold demux_with. intros H. apply bind_Ok in H as (t1 & H1 & H2).
  set (ns := if ntargets <? nsources then ntargets else nsources) in *.
  assert (Hns : ns <= ntargets ∧ ns <= nsources).
  { unfold ns. destruct (ntargets <? nsources) eqn:E;
      [apply Z.ltb_lt in E|apply Z.ltb_ge in E]; lia. }
  eapply (channel_loop_frame _ _ _) in H1 as [Hshape1 Hout1];
    [|intros t i t' Ht; apply demux_channel_step in Ht; exact Ht].
  destruct (silence_loop targetSize
              (seq (Z.to_nat ns) (Z.to_nat ntargets - Z.to_nat ns))
              (NoDup_seq _ _) t1) as (t2 & H2' & Hlook).
  rewrite H2 in H2'. injection H2' as <-.
  split; [|split].
  - rewrite <- Hshape1. apply list_eq. intros k.
    unfold shape. rewrite !list_lookup_fmap, Hlook.
    destruct (decide _); [|reflexivity].
    destruct (t1 !! k) as [[b|]|]; cbn; [|reflexivity..].
    by rewrite length_memset0.
  - intros k Hk. rewrite Hlook.
    destruct (decide _) as [Hin|_].
    + apply elem_of_seq in Hin. lia.
    + apply Hout1. rewrite elem_of_seq. lia.
  - intros k b Hk Hb. rewrite Hlook.
    destruct (decide _) as [_|Hout].
    + rewrite Hout1, Hb; [reflexivity|]. rewrite elem_of_seq. lia.
    + exfalso. apply Hout. apply elem_of_seq. lia.
Qed.

(** C4.  For every call of [demux] with a positive [sampleSize], and a
    [targetSize] that leaves the byte index of the copy loop room for its
    last step ([targetSize + sampleSize <= 2^64]; [tick] passes less than
    [2^32]): the call returns, it has written no entry at or beyond
    [ntargets], so that source channels beyond the targets are dropped, and
    when there are more targets than sources every non-null block with an
    index in [[nsources, ntargets)] has all its [targetSize] bytes zero.
    Null entries stay null and no block changes its size. *)
Theorem demux_drops_and_silences mem first firstSize second secondSize
    (tbs : list (option buffer)) ntargets nsources targetSize sampleSize :
  0 < sampleSize → targetSize + sampleSize <= 2 ^ 64 →
  ∃ tbs',
    demux mem first firstSize second secondSize tbs ntargets nsources
      targetSize sampleSize = Ok tbs' ∧
    shape tbs' = shape tbs ∧
    (∀ k : nat, ntargets <= Z.of_nat k → tbs' !! k = tbs !! k) ∧
    (∀ (k : nat) (b : buffer),
       nsources <= Z.of_nat k < ntargets → tbs !! k = Some (Some b) →
       ∃ b', tbs' !! k = Some (Some b') ∧ length b' = length b ∧
             zero_filled targetSize b').
Proof.
  intros Hs Hfit.
  destruct (demux_returns mem first firstSize second secondSize tbs ntargets
              nsources targetSize sampleSize) as (tbs' & E); [by left|].
  exists tbs'. split; [exact E|].
  apply demux_with_channels in E as (Hshape & Hout & Hzero).
  split; [exact Hshape|]. split; [exact Hout|].
  intros k b Hk Hb. exists (memset0 b targetSize).
  split; [by apply Hzero|]. split; [apply length_memset0|].
  intros q Hq Hlen. rewrite length_memset0 in Hlen. by apply memset0_zero.
Qed.

(** A call with two sources and three targets. *)
Lemma demux_drops_and_silences_witness :
  ∃ tbs',
    demux [x01; x02; x03; x04] 0 4 4 0
      [Some [x09; x09]; None; Some [x07; x07]] 3 2 2 1 = Ok tbs' ∧
    tbs' !! 2%nat = Some (Some [x00; x00]).
Proof.
  destruct (demux_drops_and_silences [x01; x02; x03; x04] 0 4 4 0
              [Some [x09; x09]; None; Some [x07; x07]] 3 2 2 1
              ltac:(lia) ltac:(lia)) as (tbs' & E & _ & _ & Hz).
  exists tbs'. split; [exact E|].
  destruct (Hz 2%nat [x07; x07] ltac:(lia) eq_refl) as (b' & -> & Hlen & Hzero).
  destruct b' as [|y0 [|y1 [|]]]; try discriminate.
  pose proof (Hzero 0%nat ltac:(cbn; lia) ltac:(cbn; lia)) as H0.
  pose proof (Hzero 1%nat ltac:(cbn; lia) ltac:(cbn; lia)) as H1.
  cbn in H0, H1. congruence.
Defined.

Lemma shape_null (tbs tbs' : list (option buffer)) (k : nat) :
  shape tbs' = shape tbs → tbs !! k = Some None → tbs' !! k = Some None.
Proof.
  intros Hs Hk. apply (shape_lookup _ _ k) in Hs. rewrite Hk in Hs.
  destruct (tbs' !! k) as [[|]|]; cbn in Hs; congruence.
Qed.

(** C6. In [demux], in [mux] and in the silence loops of [tick] a null entry
    of the buffer array is never used: no run ends in the fault
    [NullDereference], the iteration of a null channel returns at once with
    the array and the ring as they were, and the entry is still null when
    the function returns. *)
Theorem null_targets_are_skipped fuel mem first firstSize second secondSize
    (tbs : list (option buffer)) ntargets nsources targetSize sampleSize :
  demux_with fuel mem first firstSize second secondSize tbs ntargets nsources
    targetSize sampleSize ≠ Fault NullDereference ∧
  mux_with fuel mem first firstSize second secondSize tbs ntargets nsources
    targetSize sampleSize ≠ Fault NullDereference ∧
  silence targetSize tbs ntargets ≠ Fault NullDereference ∧
  (∀ (i : nat) sourceStride,
     tbs !!! i = None →
     demux_channel fuel mem first firstSize second secondSize targetSize
       sourceStride sampleSize tbs i = Ok tbs ∧
     mux_channel fuel first firstSize second secondSize targetSize
       sourceStride sampleSize tbs mem i = Ok mem ∧
     silence_channel targetSize tbs i = Ok tbs) ∧
  (∀ (tbs' : list (option buffer)) (k : nat),
     demux_with fuel mem first firstSize second secondSize tbs ntargets
       nsources targetSize sampleSize = Ok tbs' ∨
     silence targetSize tbs ntargets = Ok tbs' →
     tbs !! k = Some None → tbs' !! k = Some None).
Proof.
  split; [|split; [|split; [|split]]].
  - intros H. by apply demux_with_fault in H.
  - intros H. by apply mux_with_fault in H.
  - apply for_each_fault. intros. apply silence_channel_fault.
  - intros i sourceStride Hnull.
    unfold demux_channel, mux_channel, silence_channel. rewrite Hnull.
    cbn. by repeat split.
  - intros tbs' k [H|H] Hk.
    + apply demux_with_channels in H as (Hs & _). by eapply shape_null.
    + eapply (channel_loop_frame _ (λ _ b b', b' = memset0 b targetSize)) in H
        as [Hs _]; [by eapply shape_null|].
      intros t i t' Ht.
      destruct (silence_channel_step targetSize t i) as (t2 & E & Hstep).
      rewrite Ht in E. by injection E as <-.
Qed.

(** ** Machine integer facts *)

Lemma DWORD_range (x : Z) : 0 <= DWORD x < 2 ^ 32.
Proof. unfold DWORD. apply Z.mod_pos_bound. lia. Qed.

Lemma DWORD_small (x : Z) : 0 <= x < 2 ^ 32 → DWORD x = x.
Proof. intros H. unfold DWORD. by apply Z.mod_small. Qed.

Lemma int_range (x : Z) : - 2 ^ 31 <= int x < 2 ^ 31.
Proof.
  unfold int. pose proof (Z.mod_pos_bound (x + 2 ^ 31) (2 ^ 32)). lia.
Qed.

Lemma int_small (x : Z) : - 2 ^ 31 <= x < 2 ^ 31 → int x = x.
Proof. intros H. unfold int. rewrite Z.mod_small; lia. Qed.

Lemma size_t_negative (x : Z) : - 2 ^ 64 <= x < 0 → size_t x = x + 2 ^ 64.
Proof.
  intros H. unfold size_t.
  rewrite <- (Z.mod_add x 1 (2 ^ 64)) by lia. rewrite Z.mod_small; lia.
Qed.

(** ** The codec returns for every call that [tick] makes *)

(** The arguments [tick] passes always end the copy loops. *)
Lemma tick_copy_ends (periodFrameSize sampleSize : Z) :
  copy_ends (DWORD (int periodFrameSize * int sampleSize)) (int sampleSize).
Proof.
  unfold copy_ends.
  pose proof (int_range sampleSize) as Hs.
  pose proof (DWORD_range (int periodFrameSize * int sampleSize)) as Ht.
  change (2 ^ 31) with 2147483648 in *. change (2 ^ 32) with 4294967296 in *.
  change (2 ^ 64) with 18446744073709551616.
  destruct (Z.lt_trichotomy (int sampleSize) 0) as [Hneg|[Hz|Hpos]].
  - right. right. split; [exact Hneg|].
    rewrite size_t_negative; change (2 ^ 64) with 18446744073709551616; lia.
  - right. left. rewrite Hz, Z.mul_0_r. unfold DWORD. rewrite Z.mod_0_l; lia.
  - left. lia.
Qed.

(** ** The engine: what an iteration keeps *)

Lemma session_kept_refl (s : Session) : session_kept s s.
Proof. repeat split. exists []. by rewrite app_nil_r. Qed.

Lemma session_kept_trans (s1 s2 s3 : Session) :
  session_kept s1 s2 → session_kept s2 s3 → session_kept s1 s3.
Proof.
  intros (A1 & A2 & A3 & A4 & n1 & A5) (B1 & B2 & B3 & B4 & n2 & B5).
  repeat split; try congruence.
  exists (n1 ++ n2). rewrite B5, A5. by rewrite app_assoc.
Qed.

Lemma session_kept_call (e : OsCall) (s : Session) : session_kept s (call e s).
Proof. repeat split. by exists [e]. Qed.

Lemma untouched_refl b i st : untouched b i st st.
Proof. by split. Qed.

Lemma untouched_trans b i st1 st2 st3 :
  untouched b i st1 st2 → untouched b i st2 st3 → untouched b i st1 st3.
Proof. intros [A1 A2] [B1 B2]. split; congruence. Qed.

Lemma hostPeriodBytes_kept (s s' : Session) :
  session_kept s s' →
  hostPeriodBytes (_bufferConfig (client s')) = hostPeriodBytes (_bufferConfig (client s)).
Proof. intros (_ & H1 & H2 & _). unfold hostPeriodBytes. by rewrite H1, H2. Qed.

(** Writing the buffers of endpoint [i] back. *)
Lemma endpointBuffers_set (b i : nat) (v : list (option buffer)) (c : SarClient) :
  length v = length (endpointBuffers c b i) →
  endpointBuffers (set_asioBuffers b i v c) b i = v.
Proof.
  unfold endpointBuffers, set_asioBuffers. cbn. intros Hlen.
  set (all := asioBuffers (_bufferConfig c)) in *.
  destruct (decide (b < length all)%nat) as [Hb|Hb].
  - rewrite list_lookup_total_insert_eq by assumption.
    destruct (decide (i < length (all !!! b))%nat) as [Hi|Hi].
    + by rewrite list_lookup_total_insert_eq.
    + rewrite list_insert_ge by lia.
      rewrite list_lookup_total_alt, (lookup_ge_None_2 _ i) in * by lia.
      cbn in *. by destruct v.
  - rewrite list_insert_ge by lia.
    rewrite (list_lookup_total_alt all), (lookup_ge_None_2 all b) in * by lia.
    cbn in *. by destruct v.
Qed.

Lemma endpointBuffers_set_other (b i j : nat) (v : list (option buffer))
    (c : SarClient) :
  j ≠ i → endpointBuffers (set_asioBuffers b i v c) b j = endpointBuffers c b j.
Proof.
  unfold endpointBuffers, set_asioBuffers. cbn. intros Hne.
  set (all := asioBuffers (_bufferConfig c)) in *.
  destruct (decide (b < length all)%nat) as [Hb|Hb].
  - rewrite list_lookup_total_insert_eq by assumption.
    by rewrite list_lookup_total_insert_ne.
  - by rewrite list_insert_ge by lia.
Qed.

Lemma session_kept_set_asioBuffers (b i : nat) (v : list (option buffer))
    (s : Session) : session_kept s (update (set_asioBuffers b i v) s).
Proof. repeat split. exists []. by rewrite app_nil_r. Qed.

Lemma shape_length (tbs tbs' : list (option buffer)) :
  shape tbs' = shape tbs → length tbs' = length tbs.
Proof.
  intros H. apply (f_equal length) in H. unfold shape in H.
  by rewrite !length_fmap in H.
Qed.

Lemma silenced_shape (n : Z) (old mid new : list (option buffer)) :
  shape mid = shape old → silenced n mid new → silenced n old new.
Proof. intros Hs [H1 H2]. split; [congruence|exact H2]. Qed.

(** The silence loop always returns and keeps the shape of the array. *)
Lemma silence_returns (n : Z) (bufs : list (option buffer)) (ntargets : Z) :
  ∃ bufs', silence n bufs ntargets = Ok bufs' ∧ shape bufs' = shape bufs.
Proof.
  unfold silence.
  destruct (silence_loop n (seq 0 (Z.to_nat ntargets)) (NoDup_seq _ _) bufs)
    as (bufs' & E & Hlook).
  exists bufs'. split; [exact E|].
  apply list_eq. intros k. unfold shape. rewrite !list_lookup_fmap, Hlook.
  destruct (decide _); [|reflexivity].
  destruct (bufs !! k) as [[b|]|]; cbn; [|reflexivity..].
  by rewrite length_memset0.
Qed.

Lemma lookup_total_eq {A : Type} `{Inhabited A} (l l' : list A) (i : nat) :
  l' !! i = l !! i → l' !!! i = l !!! i.
Proof. intros E. by rewrite !list_lookup_total_alt, E. Qed.

Lemma relayout_lookup i o z (regs : list SarEndpointRegisters) (j : nat) :
  relayout i o z regs !!! j = regs !!! j ∨
  (j = i ∧ relayout i o z regs !!! j = set_layout o z (regs !!! j)).
Proof.
  unfold relayout. rewrite list_lookup_total_insert.
  destruct (decide _) as [[-> _]|]; [right|left]; done.
Qed.

Lemma relayout_other i o z (regs : list SarEndpointRegisters) (j : nat) :
  j ≠ i → relayout i o z regs !!! j = regs !!! j.
Proof. intros Hne. unfold relayout. by apply list_lookup_total_insert_ne. Qed.

(** A store into the register of another endpoint commutes with the change
    of layout. *)
Lemma relayout_insert i o z (regs : list SarEndpointRegisters) (j : nat)
    (f : SarEndpointRegisters → SarEndpointRegisters) :
  j ≠ i →
  <[j := f (relayout i o z regs !!! j)]> (relayout i o z regs)
    = relayout i o z (<[j := f (regs !!! j)]> regs).
Proof.
  intros Hne. rewrite relayout_other by assumption. unfold relayout.
  rewrite list_insert_insert_ne by assumption.
  by rewrite (list_lookup_total_insert_ne regs j i) by assumption.
Qed.

Section engine_facts.
Variable GENERATION_IS_ACTIVE : Z → bool.
Variable GENERATION_NUMBER : Z → Z.
Variable sizeof_SarHandleQueueResponse : Z.

Local Abbreviation updateHandles :=
  (updateNotificationHandles sizeof_SarHandleQueueResponse).
Local Abbreviation refresh :=
  (refresh_handles GENERATION_NUMBER sizeof_SarHandleQueueResponse).
Local Abbreviation silent_path := (silence_path GENERATION_IS_ACTIVE).
Local Abbreviation changed :=
  (generation_changed GENERATION_IS_ACTIVE GENERATION_NUMBER).
Local Abbreviation current := (handle_current GENERATION_NUMBER).
Local Abbreviation publish_step :=
  (publish GENERATION_IS_ACTIVE GENERATION_NUMBER).
Local Abbreviation endpoint_step :=
  (tick_endpoint GENERATION_IS_ACTIVE GENERATION_NUMBER
     sizeof_SarHandleQueueResponse).
Local Abbreviation loop_until :=
  (tick_until GENERATION_IS_ACTIVE GENERATION_NUMBER
     sizeof_SarHandleQueueResponse).
Local Abbreviation run_tick :=
  (tick GENERATION_IS_ACTIVE GENERATION_NUMBER sizeof_SarHandleQueueResponse).

Lemma refresh_kept_refl s : refresh_kept s s.
Proof. split; [apply session_kept_refl|reflexivity]. Qed.

Lemma refresh_kept_trans s1 s2 s3 :
  refresh_kept s1 s2 → refresh_kept s2 s3 → refresh_kept s1 s3.
Proof.
  intros [A1 A2] [B1 B2]. split; [by eapply session_kept_trans|congruence].
Qed.

Lemma refresh_kept_call e s : refresh_kept s (call e s).
Proof. split; [apply session_kept_call|reflexivity]. Qed.

Lemma refresh_kept_handles v s :
  refresh_kept s (update (set_notificationHandles v) s).
Proof. split; [|reflexivity]. repeat split. exists []. by rewrite app_nil_r. Qed.

Lemma refresh_kept_started v s :
  refresh_kept s (update (set_handleQueueStarted v) s).
Proof. split; [|reflexivity]. repeat split. exists []. by rewrite app_nil_r. Qed.

Lemma processNotificationHandleUpdate_kept responses s i :
  refresh_kept s (processNotificationHandleUpdate responses s i).
Proof.
  unfold processNotificationHandleUpdate.
  destruct (negb _).
  - eapply refresh_kept_trans; [apply refresh_kept_call|].
    apply (refresh_kept_handles _ (call _ s)).
  - apply (refresh_kept_handles _ s).
Qed.

Lemma processNotificationHandleUpdates_kept responses updateCount s :
  refresh_kept s (processNotificationHandleUpdates responses updateCount s).
Proof.
  unfold processNotificationHandleUpdates.
  generalize (seq 0 (Z.to_nat updateCount)). intros l. revert s.
  induction l as [|i l IH]; intros s; cbn; [apply refresh_kept_refl|].
  eapply refresh_kept_trans; [|apply IH].
  apply processNotificationHandleUpdate_kept.
Qed.

Lemma updateNotificationHandles_kept env s : refresh_kept s (updateHandles env s).
Proof.
  unfold updateNotificationHandles.
  destruct (_handleQueueStarted (client s)).
  - destruct (completion env) as [bytes|[]]; cbn.
    + eapply refresh_kept_trans; [apply refresh_kept_call|].
      eapply refresh_kept_trans;
        [apply processNotificationHandleUpdates_kept|].
      eapply refresh_kept_trans; [apply refresh_kept_call|].
      destruct (waitStatus env).
      * eapply refresh_kept_trans;
          [apply processNotificationHandleUpdates_kept|].
        eapply refresh_kept_trans; [apply refresh_kept_started|].
        destruct (negb _); [apply refresh_kept_started|apply refresh_kept_refl].
      * destruct (negb _); [apply refresh_kept_started|apply refresh_kept_refl].
    + eapply refresh_kept_trans; [apply refresh_kept_call|].
      eapply refresh_kept_trans; [apply refresh_kept_call|].
      destruct (waitStatus env).
      * eapply refresh_kept_trans;
          [apply processNotificationHandleUpdates_kept|].
        eapply refresh_kept_trans; [apply refresh_kept_started|].
        destruct (negb _); [apply refresh_kept_started|apply refresh_kept_refl].
      * destruct (negb _); [apply refresh_kept_started|apply refresh_kept_refl].
    + apply refresh_kept_call.
  - cbn. eapply refresh_kept_trans; [apply refresh_kept_started|].
    eapply refresh_kept_trans; [apply refresh_kept_call|].
    destruct (waitStatus env).
    + eapply refresh_kept_trans;
        [apply processNotificationHandleUpdates_kept|].
      eapply refresh_kept_trans; [apply refresh_kept_started|].
      destruct (negb _); [apply refresh_kept_started|apply refresh_kept_refl].
    + destruct (negb _); [apply refresh_kept_started|apply refresh_kept_refl].
Qed.

Lemma refresh_handles_kept env st i :
  refresh_kept (session st) (session (refresh env st i)) ∧
  memory (refresh env st i) = memory st.
Proof.
  unfold refresh_handles. destruct (_ && _); cbn.
  - split; [apply updateNotificationHandles_kept|reflexivity].
  - split; [apply refresh_kept_refl|reflexivity].
Qed.

Lemma silence_endpoint_returns b i n (bufs : list (option buffer)) st :
  ∃ silent,
    silence_endpoint b i n bufs st
      = Ok (with_session (update (set_asioBuffers b i silent)) st) ∧
    shape silent = shape bufs ∧
    (Z.of_nat (length bufs) < 2 ^ 31 → silenced n bufs silent).
Proof.
  unfold silence_endpoint.
  destruct (silence_returns n bufs (int (Z.of_nat (length bufs))))
    as (silent & E & Hs).
  exists silent. rewrite E. cbn. split; [reflexivity|]. split; [exact Hs|].
  intros Hlen.
  destruct (silence_silenced n bufs (int (Z.of_nat (length bufs))))
    as (silent' & E' & Hsil); [rewrite int_small; lia|].
  rewrite E in E'. by injection E' as <-.
Qed.

Lemma copy_endpoint_returns c endpoint r (bufs : list (option buffer)) ring :
  ∃ copied,
    copy_endpoint c endpoint r bufs ring = Ok copied ∧
    shape (fst copied) = shape bufs.
Proof.
  unfold copy_endpoint, hostPeriodBytes. destruct (type endpoint).
  - edestruct demux_returns as (bufs1 & E); [apply tick_copy_ends|].
    rewrite E. cbn. eexists. split; [reflexivity|]. cbn.
    by apply demux_with_channels in E as (Hs & _).
  - edestruct mux_returns as (ring1 & E); [apply tick_copy_ends|].
    rewrite E. cbn. eexists. split; reflexivity.
Qed.

(** [publish] in closed form. *)
Lemma publish_result b i c r (bufs : list (option buffer)) st :
  ∃ silent,
    shape silent = shape bufs ∧
    (Z.of_nat (length bufs) < 2 ^ 31 →
     silenced (hostPeriodBytes (_bufferConfig c)) bufs silent) ∧
    publish_step b i c r bufs st =
      Ok (if changed r (registers (memory st)) i
          then with_session (update (set_asioBuffers b i silent)) st
          else if crossing_due c r then
            if current r (_notificationHandles (client (session st))) i
            then with_session
                   (call (SetEvent
                            (handle (_notificationHandles (client (session st)) !!! i))))
                   (advance c r i st)
            else with_session (update (set_asioBuffers b i silent)) st
          else advance c r i st).
Proof.
  destruct (silence_endpoint_returns b i (hostPeriodBytes (_bufferConfig c))
              bufs st) as (silent & E & Hs & Hsil).
  exists silent. split; [exact Hs|]. split; [exact Hsil|].
  unfold publish. rewrite E.
  destruct (changed _ _ _); [reflexivity|].
  destruct (crossing_due _ _); [|reflexivity].
  destruct (current _ _ _); reflexivity.
Qed.

(** One iteration of the endpoint loop in closed form. *)
Lemma endpoint_step_result env b st i :
  let c := client (session st) in
  let r := registers (memory st) !!! i in
  let old := endpointBuffers c b i in
  let n := hostPeriodBytes (_bufferConfig c) in
  let st1 := refresh env st i in
  ∃ silent1 copied silent2,
    shape silent1 = shape old ∧
    (Z.of_nat (length old) < 2 ^ 31 → silenced n old silent1) ∧
    shape (fst copied) = shape old ∧
    shape silent2 = shape old ∧
    (Z.of_nat (length old) < 2 ^ 31 → silenced n old silent2) ∧
    endpoint_step env b st i =
      Ok (if silent_path c r
          then with_session (update (set_asioBuffers b i silent1)) st1
          else
            let st2 := copied_state env b i copied st1 in
            if changed r (registers (memory st2)) i
            then with_session (update (set_asioBuffers b i silent2)) st2
            else if crossing_due c r then
              if current r (_notificationHandles (client (session st2))) i
              then with_session
                     (call (SetEvent
                              (handle
                                 (_notificationHandles (client (session st2)) !!! i))))
                     (advance c r i st2)
              else with_session (update (set_asioBuffers b i silent2)) st2
            else advance c r i st2).
Proof.
  intros c r old n st1.
  destruct (silence_endpoint_returns b i n old st1) as (silent1 & E1 & Hs1 & Hsil1).
  destruct (copy_endpoint_returns c (endpoints (_driverConfig c) !!! i) r old
              (sharedBuffer (memory st1))) as (copied & Ec & Hsc).
  destruct (publish_result b i c r (fst copied)
              (copied_state env b i copied st1))
    as (silent2 & Hs2 & Hsil2 & E2).
  exists silent1, copied, silent2.
  split; [exact Hs1|]. split; [exact Hsil1|]. split; [exact Hsc|].
  split; [congruence|]. split.
  { intros Hlen. eapply silenced_shape; [exact Hsc|]. apply Hsil2.
    by rewrite (shape_length _ _ Hsc). }
  unfold tick_endpoint. fold c r old n st1.
  destruct (silent_path c r); [exact E1|].
  rewrite Ec. cbn. exact E2.
Qed.

Lemma driver_store_other dG (i j : nat) (regs : list SarEndpointRegisters) :
  j ≠ i → driver_store dG i regs !! j = regs !! j.
Proof.
  intros Hne. unfold driver_store. destruct (dG i); [|reflexivity].
  by apply list_lookup_insert_ne.
Qed.

(** The register the driver stores into is decided by the register that
    was there. *)
Lemma driver_store_same dG (i : nat) (regs regs' : list SarEndpointRegisters) :
  regs' !! i = regs !! i →
  driver_store dG i regs' !! i = driver_store dG i regs !! i.
Proof.
  intros E. unfold driver_store. destruct (dG i) as [g|]; [|exact E].
  rewrite (lookup_total_eq _ _ _ E).
  destruct (regs !! i) as [x|] eqn:Hx.
  - rewrite !list_lookup_insert_eq; [reflexivity|..];
      eapply lookup_lt_Some; eauto.
  - rewrite !list_insert_ge; [congruence|..]; by apply lookup_ge_None.
Qed.

Lemma driver_store_position dG (i : nat) (regs : list SarEndpointRegisters) :
  positionRegister (driver_store dG i regs !!! i)
    = positionRegister (regs !!! i).
Proof.
  unfold driver_store. destruct (dG i) as [g|]; [|reflexivity].
  rewrite list_lookup_total_insert. destruct (decide _); reflexivity.
Qed.

Lemma endpointBuffers_kept (s s' : Session) b j :
  refresh_kept s s' →
  endpointBuffers (client s') b j = endpointBuffers (client s) b j.
Proof. intros [_ E]. unfold endpointBuffers. by rewrite E. Qed.

Lemma session_frame_refresh b i s0 s :
  refresh_kept s0 s → session_frame b i s0 s.
Proof.
  intros Hk. split; [apply Hk|]. split.
  - intros j _. by apply endpointBuffers_kept.
  - by rewrite (endpointBuffers_kept _ _ b i Hk).
Qed.

Lemma session_frame_set b i s0 s (v : list (option buffer)) :
  session_frame b i s0 s →
  shape v = shape (endpointBuffers (client s0) b i) →
  session_frame b i s0 (update (set_asioBuffers b i v) s) ∧
  endpointBuffers (set_asioBuffers b i v (client s)) b i = v.
Proof.
  intros (Hk & Hother & Hshape) Hv.
  assert (E : endpointBuffers (set_asioBuffers b i v (client s)) b i = v).
  { apply endpointBuffers_set. apply shape_length. congruence. }
  split; [|exact E]. split; [|split].
  - eapply session_kept_trans; [exact Hk|apply session_kept_set_asioBuffers].
  - intros j Hj. cbn. rewrite endpointBuffers_set_other by assumption.
    by apply Hother.
  - cbn. by rewrite E.
Qed.

Lemma session_frame_call b i s0 s e :
  session_frame b i s0 s → session_frame b i s0 (call e s).
Proof.
  intros (Hk & Hother & Hshape). split; [|by split].
  eapply session_kept_trans; [exact Hk|apply session_kept_call].
Qed.

Lemma advance_other c r (i j : nat) st :
  j ≠ i →
  registers (memory (advance c r i st)) !! j
    = registers (memory st) !! j.
Proof. intros Hne. cbn. by apply list_lookup_insert_ne. Qed.

(** An iteration keeps the configuration, and leaves the host buffers and
    the registers of the other endpoints alone. *)
Lemma endpoint_step_frame env b st i st' :
  endpoint_step env b st i = Ok st' →
  session_kept (session st) (session st') ∧
  (∀ j, j ≠ i → untouched b j st st') ∧
  shape (endpointBuffers (client (session st')) b i)
    = shape (endpointBuffers (client (session st)) b i).
Proof.
  intros H.
  destruct (endpoint_step_result env b st i)
    as (silent1 & copied & silent2 & Hs1 & _ & Hsc & Hs2 & _ & E).
  rewrite E in H. clear E. injection H as <-.
  destruct (refresh_handles_kept env st i) as [Hk Hmem].
  set (st1 := refresh env st i) in *.
  apply (session_frame_refresh b i) in Hk.
  assert (Hgoal : ∀ st',
             session_frame b i (session st) (session st') →
             (∀ j, j ≠ i → registers (memory st') !! j = registers (memory st) !! j) →
             session_kept (session st) (session st') ∧
             (∀ j, j ≠ i → untouched b j st st') ∧
             shape (endpointBuffers (client (session st')) b i)
               = shape (endpointBuffers (client (session st)) b i)).
  { intros st0 (A1 & A2 & A3) Hregs. split; [exact A1|]. split; [|exact A3].
    intros j Hj. split; [by apply A2|by apply Hregs]. }
  destruct (silent_path _ _).
  { apply Hgoal.
    - by apply session_frame_set.
    - intros j _. cbn. by rewrite Hmem. }
  destruct (session_frame_set b i _ _ (fst copied) Hk Hsc) as [Hk2 _].
  assert (Hregs2 : ∀ j, j ≠ i →
            registers (memory (copied_state env b i copied st1)) !! j
              = registers (memory st) !! j).
  { intros j Hj. cbn. rewrite driver_store_other by assumption.
    by rewrite Hmem. }
  cbv zeta.
  destruct (changed _ _ _).
  { apply Hgoal; [|exact Hregs2]. by apply session_frame_set. }
  destruct (crossing_due _ _).
  - destruct (current _ _ _).
    + apply Hgoal.
      * by apply session_frame_call.
      * intros j Hj. cbn -[copied_state].
        rewrite list_lookup_insert_ne by done. by apply Hregs2.
    + apply Hgoal; [|exact Hregs2]. by apply session_frame_set.
  - apply Hgoal; [exact Hk2|].
    intros j Hj. rewrite advance_other by assumption. by apply Hregs2.
Qed.

Lemma endpoint_step_returns env b st i :
  ∃ st', endpoint_step env b st i = Ok st'.
Proof.
  destruct (endpoint_step_result env b st i) as (? & ? & ? & _ & _ & _ & _ & _ & E).
  eauto.
Qed.

(** The iterations of the other endpoints, taken together. *)
Lemma loop_frame env b (range : list nat) (i : nat) st :
  i ∉ range →
  ∃ st', for_each (endpoint_step env b) range st = Ok st' ∧
         session_kept (session st) (session st') ∧ untouched b i st st'.
Proof.
  intros Hi.
  apply (for_each_total
           (λ st', session_kept (session st) (session st') ∧ untouched b i st st')).
  - intros a j Hj [Hk Hu].
    destruct (endpoint_step_returns env b a j) as (a' & E).
    exists a'. split; [exact E|].
    apply endpoint_step_frame in E as (Hk' & Hu' & _). split.
    + by eapply session_kept_trans.
    + eapply untouched_trans; [exact Hu|]. apply Hu'. intros ->. by apply Hi.
  - split; [apply session_kept_refl|apply untouched_refl].
Qed.

Lemma tick_begin_frame s m :
  refresh_kept s (session (tick_begin s m)) ∧ memory (tick_begin s m) = m.
Proof.
  unfold tick_begin. split; [|reflexivity]. cbn.
  destruct (_updateSampleRateOnTick (client s)).
  - split; [|reflexivity]. repeat split. by eexists.
  - apply refresh_kept_refl.
Qed.

(** The endpoint loop, cut at endpoint [i]. *)
Lemma tick_split env b s m (n i : nat) :
  (i < n)%nat →
  ∃ st_i st_i' st_n,
    loop_until env b s m i = Ok st_i ∧
    endpoint_step env b st_i i = Ok st_i' ∧
    loop_until env b s m n = Ok st_n ∧
    session_kept s (session st_i) ∧
    endpointBuffers (client (session st_i)) b i = endpointBuffers (client s) b i ∧
    registers (memory st_i) !! i = registers m !! i ∧
    session_kept (session st_i') (session st_n) ∧
    untouched b i st_i' st_n.
Proof.
  intros Hi. unfold tick_until.
  replace (seq 0 n) with (seq 0 i ++ [i] ++ seq (S i) (n - S i)).
  2:{ replace n with (i + S (n - S i))%nat at 2 by lia.
      rewrite seq_app. cbn. reflexivity. }
  destruct (tick_begin_frame s m) as [Hb Hm].
  destruct (loop_frame env b (seq 0 i) i (tick_begin s m))
    as (st_i & E1 & Hk1 & Hu1a & Hu1b); [rewrite elem_of_seq; lia|].
  destruct (endpoint_step_returns env b st_i i) as (st_i' & E2).
  destruct (loop_frame env b (seq (S i) (n - S i)) i st_i')
    as (st_n & E3 & Hk3 & Hu3); [rewrite elem_of_seq; lia|].
  exists st_i, st_i', st_n.
  rewrite !for_each_app, E1. cbn. rewrite E2. cbn. rewrite E3.
  repeat split; try reflexivity; try apply Hk3; try apply Hu3.
  - eapply session_kept_trans; [apply Hb|exact Hk1].
  - eapply session_kept_trans; [apply Hb|exact Hk1].
  - eapply session_kept_trans; [apply Hb|exact Hk1].
  - eapply session_kept_trans; [apply Hb|exact Hk1].
  - destruct Hk1 as (_ & _ & _ & _ & new1 & ->).
    destruct Hb as [(_ & _ & _ & _ & new0 & ->) _].
    exists (new0 ++ new1). by rewrite app_assoc.
  - rewrite Hu1a. by apply endpointBuffers_kept.
  - by rewrite Hu1b, Hm.
Qed.

Lemma silence_path_kept (s s' : Session) r :
  session_kept s s' → silent_path (client s') r = silent_path (client s) r.
Proof. intros (_ & _ & _ & E & _). unfold silence_path. by rewrite E. Qed.

Lemma nextPositionRegister_kept (s s' : Session) r :
  session_kept s s' →
  nextPositionRegister (client s') r = nextPositionRegister (client s) r.
Proof.
  intros Hk. unfold nextPositionRegister. by rewrite (hostPeriodBytes_kept _ _ Hk).
Qed.

Lemma crossing_due_kept (s s' : Session) r :
  session_kept s s' → crossing_due (client s') r = crossing_due (client s) r.
Proof.
  intros Hk. unfold crossing_due. by rewrite (nextPositionRegister_kept _ _ _ Hk).
Qed.

Lemma generation_changed_same r (regs regs' : list SarEndpointRegisters) i :
  regs' !! i = regs !! i → changed r regs' i = changed r regs i.
Proof.
  intros E. unfold generation_changed, read_generation.
  by rewrite (lookup_total_eq _ _ _ E).
Qed.

Lemma advanced_same c c' r i (regs regs' : list SarEndpointRegisters) :
  nextPositionRegister c' r = nextPositionRegister c r →
  regs' !! i = regs !! i →
  advanced c' r i regs' !! i = advanced c r i regs !! i.
Proof.
  intros En E. unfold advanced. rewrite En, (lookup_total_eq _ _ _ E).
  destruct (regs !! i) as [x|] eqn:Hx.
  - rewrite !list_lookup_insert_eq; [reflexivity|..];
      eapply lookup_lt_Some; eauto.
  - rewrite !list_insert_ge; [congruence|..]; by apply lookup_ge_None.
Qed.

(** What one [tick] does to endpoint [i], in terms of the engine object
    and the registers the tick started with, and of the handles as they
    are when the iteration of [i] has refreshed them. *)
Lemma tick_at env b s m (i : nat) :
  _registers (client s) ≠ nullptr →
  (i < length (endpoints (_driverConfig (client s))))%nat →
  let c := client s in
  let r := registers m !!! i in
  let old := endpointBuffers c b i in
  let n := hostPeriodBytes (_bufferConfig c) in
  let late := driver_store (driverGeneration env) i (registers m) in
  ∃ st_i s' m' silent copied,
    loop_until env b s m i = Ok st_i ∧
    run_tick env b s m = Ok (s', m') ∧
    session_kept s s' ∧
    shape silent = shape old ∧
    (Z.of_nat (length old) < 2 ^ 31 → silenced n old silent) ∧
    shape copied = shape old ∧
    let handles := _notificationHandles (client (session (refresh env st_i i))) in
    if silent_path c r then
      endpointBuffers (client s') b i = silent ∧
      registers m' !! i = registers m !! i
    else if changed r late i then
      endpointBuffers (client s') b i = silent ∧
      registers m' !! i = late !! i
    else if crossing_due c r then
      if current r handles i then
        endpointBuffers (client s') b i = copied ∧
        registers m' !! i = advanced c r i late !! i ∧
        ∃ before after,
          calls s' = calls s ++ before ++ SetEvent (handle (handles !!! i)) :: after
      else
        endpointBuffers (client s') b i = silent ∧
        registers m' !! i = late !! i
    else
      endpointBuffers (client s') b i = copied ∧
      registers m' !! i = advanced c r i late !! i.
Proof.
  intros Hregs Hi c r old n late.
  destruct (tick_split env b s m _ i Hi)
    as (st_i & st_i' & st_n & E1 & E2 & E3 & Hk1 & Hb1 & Hr1 & Hk3 & Hu3a & Hu3b).
  pose proof (endpoint_step_frame _ _ _ _ _ E2) as (Hk2 & _ & _).
  destruct (endpoint_step_result env b st_i i)
    as (silent1 & copied & silent2 & Hs1 & Hsil1 & Hsc & Hs2 & Hsil2 & E).
  rewrite E in E2. clear E. injection E2 as E2. cbv zeta in E2.
  destruct (refresh_handles_kept env st_i i) as [Hkr Hmem].
  set (st1 := refresh env st_i i) in *.
  rewrite (lookup_total_eq _ _ _ Hr1) in *. fold r in E2.
  rewrite (silence_path_kept _ _ r Hk1) in E2. fold c in E2.
  rewrite (crossing_due_kept _ _ r Hk1) in E2. fold c in E2.
  rewrite (hostPeriodBytes_kept _ _ Hk1) in *. fold c n in Hsil1, Hsil2.
  rewrite Hb1 in *. fold c old in Hs1, Hsil1, Hsc, Hs2, Hsil2.
  assert (Hlate : registers (memory (copied_state env b i copied st1)) !! i
                  = late !! i).
  { cbn. rewrite Hmem. by apply driver_store_same. }
  assert (Hlate' : driver_store (driverGeneration env) i (registers (memory st1)) !! i
                   = late !! i) by exact Hlate.
  rewrite (generation_changed_same r _ _ i Hlate') in E2.
  assert (Hadv : ∀ st0, registers (memory st0) !! i = late !! i →
             registers (memory (advance (client (session st_i)) r i st0)) !! i
               = advanced c r i late !! i).
  { intros st0 Hst0. cbn. apply advanced_same; [|exact Hst0].
    by apply nextPositionRegister_kept. }
  assert (Hrun : run_tick env b s m = Ok (session st_n, memory st_n)).
  { unfold tick. destruct (_registers (client s) =? nullptr) eqn:En.
    - apply Z.eqb_eq in En. contradiction.
    - fold (loop_until env b s m (length (endpoints (_driverConfig (client s))))).
      by rewrite E3. }
  assert (Hkn : session_kept s (session st_n)).
  { eapply session_kept_trans; [|exact Hk3].
    eapply session_kept_trans; [exact Hk1|exact Hk2]. }
  assert (Hset : ∀ (v : list (option buffer)) (s0 : Session),
             session_frame b i (session st_i) s0 → shape v = shape old →
             endpointBuffers (set_asioBuffers b i v (client s0)) b i = v).
  { intros v s0 Hf Hv. eapply session_frame_set; [exact Hf|]. by rewrite Hb1. }
  pose proof (session_frame_refresh b i _ _ Hkr) as Hf1.
  destruct (session_frame_set b i _ _ (fst copied) Hf1) as [Hf2 Hc2];
    [by rewrite Hb1|].
  exists st_i, (session st_n), (memory st_n).
  exists (if silent_path c r then silent1 else silent2), (fst copied).
  split; [exact E1|]. split; [exact Hrun|]. split; [exact Hkn|].
  split; [by destruct (silent_path c r)|].
  split; [by destruct (silent_path c r)|].
  split; [exact Hsc|].
  rewrite Hu3a, Hu3b. subst st_i'. cbv zeta.
  destruct (silent_path c r).
  { split; [by apply Hset|]. cbn. by rewrite Hmem. }
  destruct (changed r late i).
  { split; [by apply (Hset silent2 _ Hf2)|exact Hlate]. }
  destruct (crossing_due c r).
  - destruct (current _ _ _).
    + split; [exact Hc2|]. split; [by apply Hadv|].
      destruct Hk3 as (_ & _ & _ & _ & new3 & ->). cbn.
      destruct Hkr as [(_ & _ & _ & _ & newr & ->) _].
      destruct Hk1 as (_ & _ & _ & _ & new0 & ->).
      exists (new0 ++ newr), new3. by rewrite <- !app_assoc.
    + split; [by apply (Hset silent2 _ Hf2)|exact Hlate].
  - split; [exact Hc2|]. by apply Hadv.
Qed.

Lemma generation_changed_true r (regs : list SarEndpointRegisters) i :
  GENERATION_IS_ACTIVE (read_generation regs i) = false ∨
  GENERATION_NUMBER (read_generation regs i)
    ≠ GENERATION_NUMBER (DWORD (generation r)) →
  changed r regs i = true.
Proof.
  unfold generation_changed. intros [->|Hne]; [reflexivity|].
  apply orb_true_iff. right. apply negb_true_iff. apply Z.eqb_neq. congruence.
Qed.

Lemma handle_current_false r (handles : list NotificationHandle) i :
  handle (handles !!! i) = nullptr ∨
  GENERATION_NUMBER (handleGeneration (handles !!! i))
    ≠ GENERATION_NUMBER (DWORD (generation r)) →
  current r handles i = false.
Proof.
  unfold handle_current. intros [->|Hne]; [reflexivity|].
  apply andb_false_iff. right. by apply Z.eqb_neq.
Qed.

(** An endpoint that is not on the silence path has a register. *)
Lemma silence_path_false_length c (regs : list SarEndpointRegisters) i :
  silent_path c (regs !!! i) = false → (i < length regs)%nat.
Proof.
  intros H. destruct (decide (i < length regs)%nat) as [|Hge]; [assumption|].
  rewrite list_lookup_total_alt, lookup_ge_None_2 in H by lia.
  unfold silence_path in H. cbn in H.
  rewrite orb_true_r in H. discriminate.
Qed.

Lemma driver_store_length dG i (regs : list SarEndpointRegisters) :
  length (driver_store dG i regs) = length regs.
Proof. unfold driver_store. destruct (dG i); [apply length_insert|reflexivity]. Qed.

Lemma advanced_position c r i (regs : list SarEndpointRegisters) :
  (i < length regs)%nat →
  positionRegister (advanced c r i regs !!! i) = nextPositionRegister c r.
Proof.
  intros Hi. unfold advanced. by rewrite list_lookup_total_insert_eq.
Qed.

Lemma nextPositionRegister_bound c r :
  silent_path c r = false →
  0 <= nextPositionRegister c r < DWORD (bufferSize r).
Proof.
  intros H. unfold silence_path in H.
  apply orb_false_iff in H as [H _]. apply orb_false_iff in H as [H _].
  apply orb_false_iff in H as [_ H]. apply Z.eqb_neq in H.
  pose proof (DWORD_range (bufferSize r)).
  unfold nextPositionRegister, nextPositionOf. apply Z.mod_pos_bound. lia.
Qed.

(** C1. For every endpoint the tick processes: when the generation read
    again after the copy is not active, or its generation number is not
    the one read before the copy, the tick returns, every non-null host
    buffer of the endpoint is silence (null entries still null, sizes as
    before), and the position register of the endpoint holds what it held
    before the tick. *)
Theorem tick_discards_torn_copy env b s m (i : nat) :
  _registers (client s) ≠ nullptr →
  (i < length (endpoints (_driverConfig (client s))))%nat →
  Z.of_nat (length (endpointBuffers (client s) b i)) < 2 ^ 31 →
  let generation := read_generation (registers m) i in
  let lateGeneration :=
    read_generation (driver_store (driverGeneration env) i (registers m)) i in
  GENERATION_IS_ACTIVE lateGeneration = false ∨
  GENERATION_NUMBER lateGeneration ≠ GENERATION_NUMBER generation →
  ∃ s' m',
    run_tick env b s m = Ok (s', m') ∧
    silenced (hostPeriodBytes (_bufferConfig (client s)))
      (endpointBuffers (client s) b i) (endpointBuffers (client s') b i) ∧
    positionRegister (registers m' !!! i) = positionRegister (registers m !!! i).
Proof.
  intros Hregs Hi Hlen generation lateGeneration Hlate.
  destruct (tick_at env b s m i Hregs Hi)
    as (st_i & s' & m' & silent & copied & _ & Hrun & _ & _ & Hsil & _ & H).
  exists s', m'. split; [exact Hrun|]. cbv zeta in H.
  rewrite (generation_changed_true _ _ _ Hlate) in H.
  destruct (silent_path _ _); destruct H as [-> Hr];
    (split; [by apply Hsil|]); rewrite (lookup_total_eq _ _ _ Hr);
    [reflexivity|apply driver_store_position].
Qed.

(** C10. For every endpoint the tick processes: when a notification is
    due in this cycle and the handle held for the endpoint at that moment
    is null, or carries another generation number than the registers read
    at the top of the iteration, the tick returns, every non-null host
    buffer of the endpoint is silence and the position register of the
    endpoint holds what it held before the tick. *)
Theorem tick_is_silent_without_current_handle env b s m (i : nat) st_i :
  _registers (client s) ≠ nullptr →
  (i < length (endpoints (_driverConfig (client s))))%nat →
  Z.of_nat (length (endpointBuffers (client s) b i)) < 2 ^ 31 →
  loop_until env b s m i = Ok st_i →
  let r := registers m !!! i in
  let handles := _notificationHandles (client (session (refresh env st_i i))) in
  crossing_due (client s) r = true →
  handle (handles !!! i) = nullptr ∨
  GENERATION_NUMBER (handleGeneration (handles !!! i))
    ≠ GENERATION_NUMBER (DWORD (generation r)) →
  ∃ s' m',
    run_tick env b s m = Ok (s', m') ∧
    silenced (hostPeriodBytes (_bufferConfig (client s)))
      (endpointBuffers (client s) b i) (endpointBuffers (client s') b i) ∧
    positionRegister (registers m' !!! i) = positionRegister (registers m !!! i).
Proof.
  intros Hregs Hi Hlen Hst r handles Hdue Hstale.
  destruct (tick_at env b s m i Hregs Hi)
    as (st_i' & s' & m' & silent & copied & Hst' & Hrun & _ & _ & Hsil & _ & H).
  rewrite Hst in Hst'. injection Hst' as <-.
  exists s', m'. split; [exact Hrun|]. cbv zeta in H. fold r handles in H.
  rewrite Hdue, (handle_current_false _ _ _ Hstale) in H.
  destruct (silent_path _ _); [|destruct (changed _ _ _)];
    destruct H as [-> Hr];
    (split; [by apply Hsil|]); rewrite (lookup_total_eq _ _ _ Hr);
    first [reflexivity|apply driver_store_position].
Qed.

(** C2, as the code has it.  For every endpoint that passes the tests of
    the silence path: the next position the tick computes is
    [(positionRegister + frameChunkSize) % bufferSize] in unsigned 32-bit
    arithmetic, with [frameChunkSize = hostPeriodBytes *
    activeChannelCount] in 32 bits as well; it is the same number as in
    unbounded arithmetic whenever [positionRegister + hostPeriodBytes *
    activeChannelCount] fits 32 bits; it is below [bufferSize]; and the
    tick leaves in the position register either what was there or that
    next position, the latter when the generation did not change and no
    notification is due. *)
Theorem tick_next_position env b s m (i : nat) :
  _registers (client s) ≠ nullptr →
  (i < length (endpoints (_driverConfig (client s))))%nat →
  let c := client s in
  let r := registers m !!! i in
  let positionRegister_ := DWORD (positionRegister r) in
  let bufferSize_ := DWORD (bufferSize r) in
  let activeChannelCount_ := DWORD (activeChannelCount r) in
  let hostPeriodBytes_ := hostPeriodBytes (_bufferConfig c) in
  silent_path c r = false →
  nextPositionRegister c r
    = DWORD (positionRegister_ + DWORD (hostPeriodBytes_ * activeChannelCount_))
        mod bufferSize_ ∧
  (positionRegister_ + hostPeriodBytes_ * activeChannelCount_ < 2 ^ 32 →
   nextPositionRegister c r
     = (positionRegister_ + hostPeriodBytes_ * activeChannelCount_)
         mod bufferSize_) ∧
  0 <= nextPositionRegister c r < bufferSize_ ∧
  ∃ s' m',
    run_tick env b s m = Ok (s', m') ∧
    (positionRegister (registers m' !!! i) = positionRegister r ∨
     positionRegister (registers m' !!! i) = nextPositionRegister c r) ∧
    (changed r (driver_store (driverGeneration env) i (registers m)) i = false →
     crossing_due c r = false →
     positionRegister (registers m' !!! i) = nextPositionRegister c r).
Proof.
  intros Hregs Hi c r pos size acc bytes Hpath.
  split; [reflexivity|]. split; [|split; [by apply nextPositionRegister_bound|]].
  { intros Hfit.
    unfold nextPositionRegister, nextPositionOf, frameChunkSizeOf.
    fold pos size acc bytes.
    pose proof (DWORD_range (positionRegister r)) as Hp. fold pos in Hp.
    pose proof (DWORD_range (activeChannelCount r)) as Ha. fold acc in Ha.
    assert (0 <= bytes) as Hb by apply DWORD_range.
    assert (0 <= bytes * acc) as Hprod by (apply Z.mul_nonneg_nonneg; lia).
    rewrite (DWORD_small (bytes * acc)) by lia.
    by rewrite DWORD_small by lia. }
  destruct (tick_at env b s m i Hregs Hi)
    as (st_i & s' & m' & silent & copied & _ & Hrun & _ & _ & _ & _ & H).
  exists s', m'. split; [exact Hrun|]. cbv zeta in H. fold c r in H.
  rewrite Hpath in H.
  pose proof (silence_path_false_length _ _ _ Hpath) as Hlen.
  assert (Hadv : positionRegister
                   (advanced c r i
                      (driver_store (driverGeneration env) i (registers m)) !!! i)
                 = nextPositionRegister c r).
  { apply advanced_position. by rewrite driver_store_length. }
  destruct (changed _ _ _).
  { destruct H as [_ Hr]. rewrite (lookup_total_eq _ _ _ Hr).
    split; [left; apply driver_store_position|discriminate]. }
  destruct (crossing_due c r).
  - destruct (current _ _ _).
    + destruct H as (_ & Hr & _). rewrite (lookup_total_eq _ _ _ Hr).
      split; [by right|discriminate].
    + destruct H as [_ Hr]. rewrite (lookup_total_eq _ _ _ Hr).
      split; [left; apply driver_store_position|discriminate].
  - destruct H as [_ Hr]. rewrite (lookup_total_eq _ _ _ Hr).
    split; [by right|]. by intros _ _.
Qed.

(** C3, as the code has it.  An active endpoint with [bufferSize = 1024],
    [positionRegister = 512], [frameChunkSize = 600] and
    [notificationCount = 1], whose ring lies inside the mapping: the next
    position is 88 and a notification is due.  When moreover the
    generation read after the copy is unchanged and the handle held for
    the endpoint is non-null and of that generation, the tick signals
    that handle and the position register becomes 88. *)
Theorem tick_wraps_and_signals env b s m (i : nat) st_i :
  _registers (client s) ≠ nullptr →
  (i < length (endpoints (_driverConfig (client s))))%nat →
  loop_until env b s m i = Ok st_i →
  let c := client s in
  let r := registers m !!! i in
  let handles := _notificationHandles (client (session (refresh env st_i i))) in
  DWORD (bufferSize r) = 1024 →
  DWORD (positionRegister r) = 512 →
  frameChunkSizeOf (hostPeriodBytes (_bufferConfig c))
    (DWORD (activeChannelCount r)) = 600 →
  DWORD (notificationCount r) = 1 →
  silent_path c r = false →
  nextPositionRegister c r = 88 ∧
  crossing_due c r = true ∧
  (changed r (driver_store (driverGeneration env) i (registers m)) i = false →
   current r handles i = true →
   ∃ s' m' before after,
     run_tick env b s m = Ok (s', m') ∧
     positionRegister (registers m' !!! i) = 88 ∧
     calls s' = calls s ++ before ++ SetEvent (handle (handles !!! i)) :: after).
Proof.
  intros Hregs Hi Hst c r handles Hsize Hpos Hchunk Hcount Hpath.
  assert (Hnext : nextPositionRegister c r = 88).
  { unfold nextPositionRegister. fold c r. rewrite Hsize, Hpos, Hchunk.
    reflexivity. }
  assert (Hdue : crossing_due c r = true).
  { unfold crossing_due. rewrite Hnext, Hsize, Hpos, Hcount. reflexivity. }
  split; [exact Hnext|]. split; [exact Hdue|].
  intros Hsame Hcur.
  destruct (tick_at env b s m i Hregs Hi)
    as (st_i' & s' & m' & silent & copied & Hst' & Hrun & _ & _ & _ & _ & H).
  rewrite Hst in Hst'. injection Hst' as <-.
  cbv zeta in H. fold c r handles in H.
  rewrite Hpath, Hsame, Hdue, Hcur in H.
  destruct H as (_ & Hr & before & after & Hcalls).
  exists s', m', before, after. split; [exact Hrun|]. split; [|exact Hcalls].
  rewrite (lookup_total_eq _ _ _ Hr), <- Hnext.
  apply advanced_position. rewrite driver_store_length.
  by eapply silence_path_false_length.
Qed.

(** *** An inactive endpoint: the layout registers are not consulted *)

Lemma refresh_relayout env st i o z j :
  refresh env (relayout_state i o z st) j
    = relayout_state i o z (refresh env st j).
Proof.
  unfold refresh_handles, relayout_state. cbn.
  destruct (relayout_lookup i o z (registers (memory st)) j) as [->|[_ ->]];
    cbn; destruct (_ && _); reflexivity.
Qed.

Lemma silence_endpoint_relayout b j n (bufs : list (option buffer)) st i o z :
  silence_endpoint b j n bufs (relayout_state i o z st)
    = map_result (relayout_state i o z) (silence_endpoint b j n bufs st).
Proof. unfold silence_endpoint. destruct (silence _ _ _); reflexivity. Qed.

Lemma driver_store_relayout dG i o z (regs : list SarEndpointRegisters) j :
  j ≠ i →
  driver_store dG j (relayout i o z regs)
    = relayout i o z (driver_store dG j regs).
Proof.
  intros Hne. unfold driver_store. destruct (dG j) as [g|]; [|reflexivity].
  by apply (relayout_insert i o z regs j (set_generation g)).
Qed.

Lemma publish_relayout b j c r (bufs : list (option buffer)) st i o z :
  j ≠ i →
  publish_step b j c r bufs (relayout_state i o z st)
    = map_result (relayout_state i o z) (publish_step b j c r bufs st).
Proof.
  intros Hne. unfold publish. rewrite silence_endpoint_relayout.
  assert (changed r (registers (memory (relayout_state i o z st))) j
          = changed r (registers (memory st)) j) as ->.
  { unfold generation_changed, read_generation. cbn.
    by rewrite relayout_other. }
  assert (advance c r j (relayout_state i o z st)
          = relayout_state i o z (advance c r j st)) as ->.
  { unfold advance, relayout_state, with_registers. cbn.
    by rewrite (relayout_insert i o z _ j
                  (set_positionRegister (nextPositionRegister c r))). }
  destruct (changed _ _ _); [reflexivity|].
  destruct (crossing_due _ _); [|reflexivity].
  cbn. destruct (current _ _ _); reflexivity.
Qed.

Lemma silence_path_inactive c r :
  GENERATION_IS_ACTIVE (DWORD (generation r)) = false → silent_path c r = true.
Proof. intros H. unfold silence_path. by rewrite H. Qed.

(** One iteration on the changed layout is the iteration on the original
    one, with the layout changed afterwards. *)
Lemma endpoint_step_relayout env b st j i o z :
  GENERATION_IS_ACTIVE (read_generation (registers (memory st)) i) = false →
  endpoint_step env b (relayout_state i o z st) j
    = map_result (relayout_state i o z) (endpoint_step env b st j) ∧
  ∀ st', endpoint_step env b st j = Ok st' →
         GENERATION_IS_ACTIVE (read_generation (registers (memory st')) i) = false.
Proof.
  intros Hinactive. unfold read_generation in Hinactive.
  destruct (decide (j = i)) as [->|Hne].
  - assert (Hsil : silent_path (client (session st))
                     (registers (memory st) !!! i) = true)
      by by apply silence_path_inactive.
    assert (HsilR : silent_path (client (session st))
                      (relayout i o z (registers (memory st)) !!! i) = true).
    { apply silence_path_inactive.
      by destruct (relayout_lookup i o z (registers (memory st)) i)
        as [->|[_ ->]]. }
    unfold tick_endpoint. cbn [relayout_state with_registers session memory
                               registers].
    fold (relayout_state i o z st). rewrite refresh_relayout.
    rewrite Hsil, HsilR. split.
    + apply silence_endpoint_relayout.
    + intros st' H.
      destruct (silence_endpoint_returns b i
                  (hostPeriodBytes (_bufferConfig (client (session st))))
                  (endpointBuffers (client (session st)) b i)
                  (refresh env st i)) as (silent & E & _).
      rewrite E in H. injection H as <-. cbn.
      destruct (refresh_handles_kept env st i) as [_ ->].
      exact Hinactive.
  - split.
    + unfold tick_endpoint. cbn [relayout_state with_registers session memory
                                 registers].
      fold (relayout_state i o z st). rewrite refresh_relayout.
      rewrite relayout_other by assumption.
      destruct (silent_path _ _); [apply silence_endpoint_relayout|].
      cbn [relayout_state with_registers session memory sharedBuffer].
      destruct (copy_endpoint _ _ _ _ _) as [copied|f]; [|reflexivity].
      cbn [bind].
      rewrite <- publish_relayout by assumption.
      f_equal. unfold relayout_state, with_registers, with_session,
                 with_sharedBuffer. cbn.
      by rewrite driver_store_relayout.
    + intros st' H. apply endpoint_step_frame in H as (_ & Hu & _).
      destruct (Hu i ltac:(congruence)) as [_ Hr].
      unfold read_generation. by rewrite (lookup_total_eq _ _ _ Hr).
Qed.

Lemma loop_relayout env b (range : list nat) i o z :
  ∀ st,
    GENERATION_IS_ACTIVE (read_generation (registers (memory st)) i) = false →
    for_each (endpoint_step env b) range (relayout_state i o z st)
      = map_result (relayout_state i o z)
          (for_each (endpoint_step env b) range st).
Proof.
  induction range as [|j range IH]; intros st Hinactive; cbn; [reflexivity|].
  destruct (endpoint_step_relayout env b st j i o z Hinactive) as [-> Hnext].
  destruct (endpoint_step env b st j) as [st'|f]; cbn; [|reflexivity].
  apply IH. by apply Hnext.
Qed.

(** C7. For every endpoint the tick processes whose generation, as read at
    the top of its iteration, is not active: the tick returns, every
    non-null host buffer of the endpoint is silence, and whatever values
    its [bufferOffset] and [bufferSize] registers hold the tick returns
    the same engine object (host buffers of all endpoints, handles, calls
    made) and the same shared memory, those two registers apart; so the
    position registers and the ring are the same too. *)
Theorem inactive_endpoint_ignores_layout env b s m (i : nat) :
  _registers (client s) ≠ nullptr →
  (i < length (endpoints (_driverConfig (client s))))%nat →
  Z.of_nat (length (endpointBuffers (client s) b i)) < 2 ^ 31 →
  GENERATION_IS_ACTIVE (read_generation (registers m) i) = false →
  ∃ s' m',
    (∀ offset size,
       run_tick env b s (relayout_memory i offset size m)
         = Ok (s', relayout_memory i offset size m')) ∧
    silenced (hostPeriodBytes (_bufferConfig (client s)))
      (endpointBuffers (client s) b i) (endpointBuffers (client s') b i).
Proof.
  intros Hregs Hi Hlen Hinactive.
  destruct (tick_at env b s m i Hregs Hi)
    as (st_i & s' & m' & silent & copied & _ & Hrun & _ & _ & Hsil & _ & H).
  exists s', m'. split.
  - intros o z. unfold tick in *.
    destruct (_registers (client s) =? nullptr); [by injection Hrun as <- <-|].
    unfold tick_until in *.
    change (tick_begin s (relayout_memory i o z m))
      with (relayout_state i o z (tick_begin s m)).
    rewrite loop_relayout by exact Hinactive.
    destruct (for_each _ _ _) as [st_n|f]; [|discriminate].
    cbn in *. by injection Hrun as <- <-.
  - cbv zeta in H. rewrite silence_path_inactive in H by exact Hinactive.
    destruct H as [-> _]. by apply Hsil.
Qed.
End engine_facts.

(** ** The engine on the concrete sessions *)

Lemma tick_discards_torn_copy_witness :
  ∃ s' m',
    tick generation_is_active generation_number 16 racing 0
      (studio handle_77) (studio_memory g_active 1) = Ok (s', m') ∧
    silenced 300 [Some (replicate 300 x01); None]
      (endpointBuffers (client s') 0 0) ∧
    positionRegister (registers m' !!! 0%nat) = 512.
Proof.
  apply (tick_discards_torn_copy generation_is_active generation_number 16
           racing 0%nat (studio handle_77) (studio_memory g_active 1) 0%nat).
  - vm_compute. discriminate.
  - vm_compute. lia.
  - vm_compute. reflexivity.
  - right. vm_compute. discriminate.
Defined.

Lemma tick_is_silent_without_current_handle_witness :
  ∃ s' m',
    tick generation_is_active generation_number 16 quiet 0
      (studio no_handle) (studio_memory g_active 1) = Ok (s', m') ∧
    silenced 300 [Some (replicate 300 x01); None]
      (endpointBuffers (client s') 0 0) ∧
    positionRegister (registers m' !!! 0%nat) = 512.
Proof.
  apply (tick_is_silent_without_current_handle generation_is_active
           generation_number 16 quiet 0%nat (studio no_handle)
           (studio_memory g_active 1) 0%nat
           (tick_begin (studio no_handle) (studio_memory g_active 1))).
  - vm_compute. discriminate.
  - vm_compute. lia.
  - vm_compute. reflexivity.
  - reflexivity.
  - vm_compute. reflexivity.
  - left. vm_compute. reflexivity.
Defined.

Lemma tick_next_position_witness :
  nextPositionRegister (studio_client handle_77)
    (registers (studio_memory g_active 0) !!! 0%nat) = (512 + 300 * 2) mod 1024 ∧
  ∃ s' m',
    tick generation_is_active generation_number 16 quiet 0
      (studio handle_77) (studio_memory g_active 0) = Ok (s', m') ∧
    positionRegister (registers m' !!! 0%nat) = 88.
Proof.
  destruct (tick_next_position generation_is_active generation_number 16
              quiet 0%nat (studio handle_77) (studio_memory g_active 0) 0%nat)
    as (_ & Hfit & _ & s' & m' & Hrun & _ & Hadv).
  - vm_compute. discriminate.
  - vm_compute. lia.
  - vm_compute. reflexivity.
  - split.
    + apply Hfit. vm_compute. reflexivity.
    + exists s', m'. split; [exact Hrun|].
      rewrite Hadv; vm_compute; reflexivity.
Defined.

(** C2 as stated fails: the endpoint passes the tests of the silence path,
    [hostPeriodBytes * activeChannelCount] is [4 * (2^30 - 1)] and fits 32
    bits, but its sum with the position 20 does not: the tick computes and
    stores 16, while [(20 + 4 * (2^30 - 1)) mod 24] is 8.  This holds for
    both encodings of the generation. *)
Lemma tick_next_position_wraps :
  let c := tiny_client in
  let r := registers tiny_memory !!! 0%nat in
  silence_path generation_is_active c r = false ∧
  silence_path generation_is_active_bit0 c r = false ∧
  hostPeriodBytes (_bufferConfig c) = 4 ∧
  frameChunkSizeOf 4 (DWORD (activeChannelCount r)) = 4 * (2 ^ 30 - 1) ∧
  nextPositionRegister c r = 16 ∧
  (DWORD (positionRegister r) + 4 * DWORD (activeChannelCount r))
    mod DWORD (bufferSize r) = 8 ∧
  (∃ s' m',
     tick generation_is_active generation_number 16 quiet 0
       {| client := c; calls := [] |} tiny_memory = Ok (s', m') ∧
     positionRegister (registers m' !!! 0%nat) = 16) ∧
  (∃ s' m',
     tick generation_is_active_bit0 generation_number_above 16 quiet 0
       {| client := c; calls := [] |} tiny_memory = Ok (s', m') ∧
     positionRegister (registers m' !!! 0%nat) = 16).
Proof.
  cbv zeta. repeat split; try (vm_compute; reflexivity).
  - remember (tick generation_is_active generation_number 16 quiet 0
                {| client := tiny_client; calls := [] |} tiny_memory) as res eqn:E.
    vm_compute in E. subst res. eexists _, _. split; reflexivity.
  - remember (tick generation_is_active_bit0 generation_number_above 16 quiet 0
                {| client := tiny_client; calls := [] |} tiny_memory) as res eqn:E.
    vm_compute in E. subst res. eexists _, _. split; reflexivity.
Qed.

Lemma tick_wraps_and_signals_witness :
  ∃ s' m' before after,
    tick generation_is_active generation_number 16 quiet 0
      (studio handle_77) (studio_memory g_active 1) = Ok (s', m') ∧
    positionRegister (registers m' !!! 0%nat) = 88 ∧
    calls s' = [] ++ before ++ SetEvent 77 :: after.
Proof.
  destruct (tick_wraps_and_signals generation_is_active generation_number 16
              quiet 0%nat (studio handle_77) (studio_memory g_active 1) 0%nat
              (tick_begin (studio handle_77) (studio_memory g_active 1)))
    as (_ & _ & H).
  - vm_compute. discriminate.
  - vm_compute. lia.
  - reflexivity.
  - vm_compute. reflexivity.
  - vm_compute. reflexivity.
  - vm_compute. reflexivity.
  - vm_compute. reflexivity.
  - vm_compute. reflexivity.
  - apply H; vm_compute; reflexivity.
Defined.

(** C3 as stated fails: in the scenario of the claim, with no handle yet
    delivered for the endpoint, the tick signals nothing and the position
    register stays at 512.  This holds for both encodings of the
    generation. *)
Lemma tick_wraps_without_signal :
  (∃ s' m',
     tick generation_is_active generation_number 16 quiet 0
       (studio no_handle) (studio_memory g_active 1) = Ok (s', m') ∧
     positionRegister (registers m' !!! 0%nat) = 512 ∧
     ∀ h, SetEvent h ∉ calls s') ∧
  (∃ s' m',
     tick generation_is_active_bit0 generation_number_above 16 quiet 0
       (studio no_handle) (studio_memory g_active 1) = Ok (s', m') ∧
     positionRegister (registers m' !!! 0%nat) = 512 ∧
     ∀ h, SetEvent h ∉ calls s').
Proof.
  split.
  - remember (tick generation_is_active generation_number 16 quiet 0
                (studio no_handle) (studio_memory g_active 1)) as res eqn:E.
    vm_compute in E. subst res. eexists _, _.
    split; [reflexivity|]. split; [reflexivity|].
    intros h H. apply list_elem_of_In in H. cbn in H. intuition discriminate.
  - remember (tick generation_is_active_bit0 generation_number_above 16 quiet 0
                (studio no_handle) (studio_memory g_active 1)) as res eqn:E.
    vm_compute in E. subst res. eexists _, _.
    split; [reflexivity|]. split; [reflexivity|].
    intros h H. apply list_elem_of_In in H. cbn in H. intuition discriminate.
Qed.

Lemma inactive_endpoint_ignores_layout_witness :
  ∃ s' m',
    (∀ offset size,
       tick generation_is_active generation_number 16 quiet 0
         (studio handle_77) (relayout_memory 0 offset size (studio_memory 14 1))
         = Ok (s', relayout_memory 0 offset size m')) ∧
    silenced 300 [Some (replicate 300 x01); None]
      (endpointBuffers (client s') 0 0).
Proof.
  apply (inactive_endpoint_ignores_layout generation_is_active
           generation_number 16 quiet 0%nat (studio handle_77)
           (studio_memory 14 1) 0%nat).
  - vm_compute. discriminate.
  - vm_compute. lia.
  - vm_compute. reflexivity.
  - vm_compute. reflexivity.
Defined.

(** ** The round trip through the ring *)

Lemma mul_le_r (a b c : Z) : 0 <= c → a <= b → a * c <= b * c.
Proof. intros. by apply Z.mul_le_mono_nonneg_r. Qed.

Lemma mul_le_cancel_r (a b c : Z) : 0 < c → a * c <= b * c → a <= b.
Proof. intros Hc H. by apply Z.mul_le_mono_pos_r in H. Qed.

Section ring_geometry.
Variables (mem : buffer) (first firstSize second secondSize : Z).
Variables (s n F : Z).
Hypothesis Hs : 0 < s.
Hypothesis Hn : 0 < n.
Hypothesis Hsplit : ring_split mem first firstSize second secondSize.
Hypothesis Hcap : sufficient_capacity firstSize secondSize (s * n) F.
(** [targetSize] is a [size_t]. *)
Hypothesis HFs : F * s < 2 ^ 64.

Local Abbreviation S := (s * n).
Local Abbreviation n1 := (firstSize / (s * n)).
Local Abbreviation base := (frame_base first firstSize second (s * n)).
Local Abbreviation left_at := (remaining_at firstSize secondSize (s * n)).

Lemma stride_pos : 0 < S.
Proof. by apply Z.mul_pos_pos. Qed.

Lemma first_frames : 0 <= n1 ∧ n1 * S <= firstSize.
Proof.
  pose proof stride_pos as HS. destruct Hsplit as (_ & _ & [Hf _] & _).
  split; [by apply Z.div_pos|].
  rewrite Z.mul_comm. by apply Z.mul_div_le.
Qed.

(** Either every frame lies in the first segment, or the first segment is
    used up exactly and the second one holds the rest. *)
Lemma capacity_cases :
  F <= n1 ∨ (n1 * S = firstSize ∧ 0 < n1 ∧ (F - n1) * S <= secondSize).
Proof.
  pose proof stride_pos as HS.
  destruct Hcap as [H1|(k & Hk & Hfirst & Hsecond)].
  - left. apply Z.div_le_lower_bound; [assumption|]. by rewrite Z.mul_comm.
  - right. assert (n1 = k) as -> by (rewrite Hfirst; by apply Z.div_mul, Z.neq_sym, Z.lt_neq).
    by repeat split.
Qed.

Lemma left_at_enough (m : Z) : 0 <= m < F → S <= left_at m.
Proof.
  intros Hm. pose proof stride_pos as HS. pose proof first_frames as [Hn1 Hfit].
  unfold remaining_at. destruct (m <? n1) eqn:E.
  - apply Z.ltb_lt in E. pose proof (mul_le_r (m + 1) n1 S). lia.
  - apply Z.ltb_ge in E. destruct capacity_cases as [Hc|(_ & _ & Hc)]; [lia|].
    pose proof (mul_le_r (m - n1 + 1) (F - n1) S). lia.
Qed.

(** The segment is used up: the next frame starts the second segment. *)
Lemma frame_switch (m : Z) :
  0 <= m → m + 1 < F → left_at m - S = 0 →
  base (m + 1) = second ∧ left_at (m + 1) = secondSize.
Proof.
  intros Hm HmF Hleft. pose proof stride_pos as HS.
  unfold remaining_at, frame_base in *. destruct (m <? n1) eqn:E.
  - apply Z.ltb_lt in E.
    assert (firstSize = (m + 1) * S) as Hfirst by lia.
    assert (n1 = m + 1) as Hn1.
    { rewrite Hfirst at 1. by apply Z.div_mul, Z.neq_sym, Z.lt_neq. }
    rewrite Hn1, Z.ltb_irrefl. split; lia.
  - apply Z.ltb_ge in E. exfalso.
    destruct capacity_cases as [Hc|(_ & _ & Hc)]; [lia|].
    assert ((F - n1) * S <= (m - n1 + 1) * S) as Hle by lia.
    apply mul_le_cancel_r in Hle; lia.
Qed.

(** The segment is not used up: the next frame follows this one. *)
Lemma frame_next (m : Z) :
  0 <= m → m + 1 < F → left_at m - S ≠ 0 →
  base (m + 1) = base m + S ∧ left_at (m + 1) = left_at m - S.
Proof.
  intros Hm HmF Hleft. pose proof stride_pos as HS.
  pose proof (left_at_enough m ltac:(lia)) as Henough.
  pose proof first_frames as [Hn1 Hfit].
  unfold remaining_at, frame_base in *. destruct (m <? n1) eqn:E.
  - apply Z.ltb_lt in E.
    assert (m + 1 < n1) as Hlt.
    { destruct (Z.eq_dec (m + 1) n1) as [Heq|]; [|lia]. exfalso.
      destruct capacity_cases as [Hc|(Hc & _)]; [lia|].
      rewrite <- Heq in Hc. lia. }
    apply Z.ltb_lt in Hlt. rewrite Hlt. split; lia.
  - apply Z.ltb_ge in E.
    assert ((m + 1 <? n1) = false) as -> by (apply Z.ltb_ge; lia).
    split; lia.
Qed.

(** The copy loop in closed form: it copies the frames [m, F) in their
    order, channel [i] of frame [m'] at [base m' + s * i]. *)
Lemma copy_loop_frames {A : Type} (copy : A → Z → Z → A) (i : Z) :
  ∀ (count : nat) (m : Z) (a : A) (buf remaining : Z) (fuel : nat),
    0 <= m → m + Z.of_nat count = F → (count < fuel)%nat →
    ((0 < count)%nat → buf = base m + s * i ∧ remaining = left_at m) →
    copy_loop copy (F * s) S s (second + s * i) secondSize fuel a (m * s) buf
        remaining
      = Ok (foldl (λ a m', copy a (m' * s) (base m' + s * i)) a
              (seqZ m (Z.of_nat count))).
Proof.
  induction count as [|count IH]; intros m a buf remaining fuel Hm HF Hfuel Hstate.
  - destruct fuel as [|fuel]; [lia|]. cbn.
    assert (m = F) as -> by lia. rewrite Z.ltb_irrefl. reflexivity.
  - destruct fuel as [|fuel]; [lia|].
    destruct (Hstate ltac:(lia)) as [-> ->].
    pose proof (left_at_enough m ltac:(lia)) as Henough.
    rewrite seqZ_cons by lia. cbn [foldl copy_loop].
    assert ((m * s <? F * s) = true) as ->.
    { apply Z.ltb_lt. pose proof (mul_le_r (m + 1) F s). lia. }
    assert ((S <=? left_at m) = true) as -> by by apply Z.leb_le.
    cbn [andb].
    replace (size_t (m * s + s)) with (Z.succ m * s).
    2:{ unfold size_t. rewrite Z.mod_small; [lia|].
        pose proof (mul_le_r 0 m s). pose proof (mul_le_r (m + 1) F s). lia. }
    replace (Z.pred (Z.of_nat (Datatypes.S count))) with (Z.of_nat count) by lia.
    destruct (left_at m - S =? 0) eqn:E.
    + apply Z.eqb_eq in E. apply IH; [lia|lia|lia|].
      intros Hc. destruct (frame_switch m Hm ltac:(lia) E) as [Hb Hl].
      replace (Z.succ m) with (m + 1) by lia. rewrite Hb, Hl. split; lia.
    + apply Z.eqb_neq in E. apply IH; [lia|lia|lia|].
      intros Hc. destruct (frame_next m Hm ltac:(lia) E) as [Hb Hl].
      replace (Z.succ m) with (m + 1) by lia. rewrite Hb, Hl. split; lia.
Qed.
End ring_geometry.

(** *** Loads and stores *)

Lemma lookup_load (m : buffer) (p k : Z) (t : nat) :
  0 <= p →
  load m p k !! t
    = if decide (t < Z.to_nat k)%nat then m !! (Z.to_nat p + t)%nat else None.
Proof.
  intros Hp. unfold load. rewrite lookup_take.
  destruct (decide _); [|reflexivity]. by rewrite lookup_drop.
Qed.

Lemma length_load (m : buffer) (p k : Z) :
  0 <= p → 0 <= k → p + k <= Z.of_nat (length m) →
  length (load m p k) = Z.to_nat k.
Proof.
  intros Hp Hk Hfit. unfold load. rewrite length_take, length_drop. lia.
Qed.

(** Reading back what was just stored. *)
Lemma load_store_same (m : buffer) (p : Z) (bs : list byte) :
  0 <= p → p + Z.of_nat (length bs) <= Z.of_nat (length m) →
  load (store m p bs) p (Z.of_nat (length bs)) = bs.
Proof.
  intros Hp Hfit. apply list_eq. intros t. rewrite lookup_load by assumption.
  rewrite Nat2Z.id. destruct (decide _) as [Ht|Ht].
  - unfold store. rewrite list_lookup_inserts by lia. f_equal. lia.
  - symmetry. apply lookup_ge_None. lia.
Qed.

(** A store elsewhere is not seen. *)
Lemma load_store_apart (m : buffer) (p : Z) (bs : list byte) (q k : Z) :
  0 <= p → 0 <= q → 0 <= k →
  q + k <= p ∨ p + Z.of_nat (length bs) <= q →
  load (store m p bs) q k = load m q k.
Proof.
  intros Hp Hq Hk Hapart. apply list_eq. intros t.
  rewrite !lookup_load by assumption. destruct (decide _) as [Ht|]; [|reflexivity].
  unfold store. destruct Hapart.
  - apply list_lookup_inserts_lt. lia.
  - apply list_lookup_inserts_ge. lia.
Qed.

(** A block rebuilt chunk by chunk from another block of the same size. *)
Lemma store_chunks (s : Z) (b : buffer) :
  0 < s →
  ∀ (count : nat) (tb : buffer),
    length tb = length b →
    Z.of_nat count * s <= Z.of_nat (length b) →
    foldl (λ tb m, store tb (m * s) (load b (m * s) s)) tb
      (seqZ 0 (Z.of_nat count))
      = take (Z.to_nat (Z.of_nat count * s)) b
          ++ drop (Z.to_nat (Z.of_nat count * s)) tb.
Proof.
  intros Hs. induction count as [|count IH]; intros tb Hlen Hfit.
  - cbn. by rewrite drop_0.
  - rewrite seqZ_S, foldl_snoc, IH by lia. clear IH.
    rewrite Z.add_0_l.
    set (a := Z.to_nat (Z.of_nat count * s)).
    set (w := Z.to_nat s).
    assert (Ha : Z.to_nat (Z.of_nat (Datatypes.S count) * s) = (a + w)%nat)
      by (unfold a, w; lia).
    assert (Hfit' : (a + w <= length b)%nat) by lia.
    rewrite Ha. unfold store, load. fold a w.
    assert (length (take a b) = a) as Hta by (rewrite length_take; lia).
    replace (list_inserts a (take w (drop a b)) (take a b ++ drop a tb))
      with (list_inserts (length (take a b) + 0) (take w (drop a b))
              (take a b ++ drop a tb))
      by (f_equal; lia).
    rewrite list_inserts_app_r.
    rewrite <- (take_drop w (drop a tb)) at 1.
    rewrite list_inserts_0_r
      by (rewrite !length_take, !length_drop; lia).
    rewrite drop_drop, app_assoc, take_take_drop. reflexivity.
Qed.

Lemma foldl_ext_in {A B : Type} (f g : A → B → A) (l : list B) :
  (∀ a x, x ∈ l → f a x = g a x) → ∀ a, foldl f a l = foldl g a l.
Proof.
  induction l as [|x l IH]; intros Hfg a; cbn; [reflexivity|].
  rewrite Hfg by left. apply IH. intros a' y Hy. apply Hfg. by right.
Qed.

Section ring_round_trip.
Variables (mem : buffer) (first firstSize second secondSize : Z).
Variables (s n F : Z).
Hypothesis Hs : 0 < s.
Hypothesis Hn : 0 < n.
Hypothesis HF : 0 < F.
Hypothesis Hsplit : ring_split mem first firstSize second secondSize.
Hypothesis Hcap : sufficient_capacity firstSize secondSize (s * n) F.
(** The size of a frame is an [int], [targetSize] a [size_t]. *)
Hypothesis Hstride : s * n < 2 ^ 31.
Hypothesis HFs : F * s < 2 ^ 64.

Local Abbreviation S := (s * n).
Local Abbreviation n1 := (firstSize / (s * n)).
Local Abbreviation base := (frame_base first firstSize second (s * n)).
Local Abbreviation sample := (sample_at first firstSize second s n).

(** A frame lies in the first segment or in the second one. *)
Lemma frame_span (m : Z) :
  0 <= m < F →
  (m < n1 ∧ base m = first + m * S ∧ base m + S <= first + firstSize) ∨
  (n1 <= m ∧ base m = second + (m - n1) * S ∧
   base m + S <= second + secondSize).
Proof.
  intros Hm. pose proof (stride_pos s n Hs Hn) as HS.
  pose proof (first_frames mem first firstSize second secondSize s n Hs Hn Hsplit)
    as [Hn1 Hfit].
  unfold frame_base. destruct (m <? n1) eqn:E.
  - apply Z.ltb_lt in E. left. pose proof (mul_le_r (m + 1) n1 S). lia.
  - apply Z.ltb_ge in E. right.
    destruct (capacity_cases firstSize secondSize s n F Hs Hn Hcap)
      as [Hc|(_ & _ & Hc)]; [lia|].
    pose proof (mul_le_r (m - n1 + 1) (F - n1) S). lia.
Qed.

Lemma frame_bounds (m : Z) :
  0 <= m < F → 0 <= base m ∧ base m + S <= Z.of_nat (length mem).
Proof.
  intros Hm. pose proof (stride_pos s n Hs Hn) as HS.
  destruct Hsplit as (H1 & H2 & _ & _ & H5 & H6 & _).
  destruct (frame_span m Hm) as [(Hlt & -> & Hfit)|(Hge & -> & Hfit)].
  - pose proof (mul_le_r 0 m S). lia.
  - pose proof (mul_le_r 0 (m - n1) S). lia.
Qed.

Lemma frames_apart (m m' : Z) :
  0 <= m < F → 0 <= m' < F → m < m' →
  base m + S <= base m' ∨ base m' + S <= base m.
Proof.
  intros Hm Hm' Hlt. pose proof (stride_pos s n Hs Hn) as HS.
  destruct Hsplit as (H1 & H2 & _ & _ & _ & _ & Hapart).
  destruct (frame_span m Hm) as [(A1 & A2 & A3)|(A1 & A2 & A3)];
    destruct (frame_span m' Hm') as [(B1 & B2 & B3)|(B1 & B2 & B3)].
  - left. rewrite A2, B2. pose proof (mul_le_r (m + 1) m' S). lia.
  - pose proof (mul_le_r 0 m S). pose proof (mul_le_r 0 (m' - n1) S). lia.
  - lia.
  - left. rewrite A2, B2. pose proof (mul_le_r (m - n1 + 1) (m' - n1) S). lia.
Qed.

Lemma sample_bounds (i m : Z) :
  0 <= i < n → 0 <= m < F →
  base m <= sample i m ∧ sample i m + s <= base m + S ∧
  0 <= sample i m ∧ sample i m + s <= Z.of_nat (length mem).
Proof.
  intros Hi Hm. unfold sample_at. pose proof (frame_bounds m Hm).
  pose proof (mul_le_r 0 i s). pose proof (mul_le_r (i + 1) n s). lia.
Qed.

(** Two samples overlap only if they are the same sample. *)
Lemma samples_apart (i m i' m' : Z) :
  0 <= i < n → 0 <= m < F → 0 <= i' < n → 0 <= m' < F →
  i ≠ i' ∨ m ≠ m' →
  sample i m + s <= sample i' m' ∨ sample i' m' + s <= sample i m.
Proof.
  intros Hi Hm Hi' Hm' Hne.
  pose proof (sample_bounds i m Hi Hm). pose proof (sample_bounds i' m' Hi' Hm').
  destruct (Z.lt_trichotomy m m') as [Hlt|[->|Hgt]].
  - pose proof (frames_apart m m' Hm Hm' Hlt). lia.
  - unfold sample_at. destruct (Z.lt_trichotomy i i') as [Hlt|[->|Hgt]].
    + left. pose proof (mul_le_r (i + 1) i' s). lia.
    + lia.
    + right. pose proof (mul_le_r (i' + 1) i s). lia.
  - pose proof (frames_apart m' m Hm' Hm Hgt). lia.
Qed.

(** The stores of one channel, frame after frame: each sample can be read
    back when all are written, and nothing else has changed. *)
Lemma channel_stores (b : buffer) (i : Z) :
  0 <= i < n → Z.of_nat (length b) = F * s →
  ∀ (count : nat) (m0 : Z) (mem0 : buffer),
    0 <= m0 → m0 + Z.of_nat count <= F → length mem0 = length mem →
    let mem' :=
      foldl (λ mem m, store mem (sample i m) (load b (m * s) s)) mem0
        (seqZ m0 (Z.of_nat count)) in
    length mem' = length mem ∧
    (∀ m, m0 <= m < m0 + Z.of_nat count →
          load mem' (sample i m) s = load b (m * s) s) ∧
    (∀ q k, 0 <= q → 0 <= k →
            (∀ m, m0 <= m < m0 + Z.of_nat count →
                  q + k <= sample i m ∨ sample i m + s <= q) →
            load mem' q k = load mem0 q k).
Proof.
  intros Hi Hb. induction count as [|count IH]; intros m0 mem0 Hm0 Hfit Hlen.
  - cbn. split; [exact Hlen|]. split; [lia|reflexivity].
  - rewrite seqZ_cons by lia. cbn [foldl].
    replace (Z.pred (Z.of_nat (Datatypes.S count))) with (Z.of_nat count) by lia.
    set (chunk := load b (m0 * s) s).
    assert (Hchunk : Z.of_nat (length chunk) = s).
    { unfold chunk. rewrite length_load; [lia| |lia|].
      - pose proof (mul_le_r 0 m0 s). lia.
      - pose proof (mul_le_r (m0 + 1) F s). lia. }
    pose proof (sample_bounds i m0 Hi ltac:(lia)) as (_ & _ & Hp0 & Hp1).
    destruct (IH (Z.succ m0) (store mem0 (sample i m0) chunk)
                ltac:(lia) ltac:(lia) ltac:(by rewrite length_store))
      as (IH1 & IH2 & IH3).
    split; [exact IH1|]. split.
    + intros m Hm. destruct (Z.eq_dec m m0) as [->|Hne].
      * rewrite IH3; [| lia | lia |].
        -- fold chunk.
           pose proof (load_store_same mem0 (sample i m0) chunk Hp0
                         ltac:(rewrite Hlen; lia)) as Hsame.
           by rewrite Hchunk in Hsame.
        -- intros m Hm'. apply samples_apart; try lia.
      * apply IH2. lia.
    + intros q k Hq Hk Hapart. rewrite IH3; [|assumption..|].
      * apply load_store_apart; [assumption..|].
        rewrite Hchunk. apply Hapart. lia.
      * intros m Hm. apply Hapart. lia.
Qed.

(** The offset of channel [i] in a frame, as the code computes it. *)
Lemma channel_offset (i : nat) :
  Z.of_nat i < n → int (s * Z.of_nat i) = s * Z.of_nat i.
Proof.
  intros Hi. apply int_small.
  pose proof (mul_le_r 0 (Z.of_nat i) s). pose proof (mul_le_r (Z.of_nat i) n s).
  lia.
Qed.

(** The first frame starts the first segment, which holds it. *)
Lemma first_frame :
  base 0 = first ∧
  remaining_at firstSize secondSize S 0 = firstSize ∧
  S <= firstSize ∧ size_t (int S) = S ∧ size_t s = s.
Proof.
  pose proof (stride_pos s n Hs Hn) as HS.
  pose proof (left_at_enough mem first firstSize second secondSize s n F
                Hs Hn Hsplit Hcap 0 ltac:(lia)) as Henough.
  assert (0 < n1) as Hn1.
  { destruct (capacity_cases firstSize secondSize s n F Hs Hn Hcap)
      as [?|(_ & ? & _)]; lia. }
  unfold frame_base, remaining_at in *.
  apply Z.ltb_lt in Hn1. rewrite Hn1 in *.
  destruct Hsplit as (_ & _ & [_ Hsize] & _).
  pose proof (mul_le_r 1 n s).
  split; [lia|]. split; [lia|]. split; [lia|].
  rewrite int_small by lia.
  unfold size_t. split; apply Z.mod_small; lia.
Qed.

Lemma budget_enough : (Z.to_nat F < loop_budget (F * s))%nat.
Proof. unfold loop_budget. pose proof (mul_le_r 1 s F). lia. Qed.

(** One channel of [mux] in closed form. *)
Lemma mux_channel_frames (tbs : list (option buffer)) (i : nat) (b : buffer)
    (mem0 : buffer) :
  Z.of_nat i < n → tbs !! i = Some (Some b) →
  mux_channel (loop_budget (F * s)) first firstSize second secondSize (F * s)
    (size_t (int S)) s tbs mem0 i
  = Ok (foldl (λ mem m, store mem (sample (Z.of_nat i) m) (load b (m * s) s))
          mem0 (seqZ 0 F)).
Proof.
  intros Hi Hb. destruct first_frame as (Hbase & Hleft & _ & HS & Hsz).
  unfold mux_channel. rewrite lookup_total_option, Hb.
  cbn [default from_option id is_null deref bind].
  rewrite HS, Hsz, (channel_offset i Hi).
  pose proof (copy_loop_frames mem first firstSize second secondSize s n F Hs Hn
                Hsplit Hcap HFs
                (λ mem j buf, memcpy mem buf b j s) (Z.of_nat i) (Z.to_nat F) 0
                mem0 (first + s * Z.of_nat i) firstSize (loop_budget (F * s))
                ltac:(lia) ltac:(lia) budget_enough) as Hloop.
  rewrite Z2Nat.id, Z.mul_0_l in Hloop by lia.
  apply Hloop. intros _. rewrite Hbase, Hleft. by split.
Qed.

(** One channel of [demux] in closed form. *)
Lemma demux_channel_frames (ring : buffer) (tbs : list (option buffer))
    (i : nat) (tb : buffer) :
  Z.of_nat i < n → tbs !! i = Some (Some tb) →
  demux_channel (loop_budget (F * s)) ring first firstSize second secondSize
    (F * s) (size_t (int S)) s tbs i
  = Ok (<[i := Some
              (foldl (λ tb m,
                        store tb (m * s) (load ring (sample (Z.of_nat i) m) s))
                 tb (seqZ 0 F))]> tbs).
Proof.
  intros Hi Hb. destruct first_frame as (Hbase & Hleft & _ & HS & Hsz).
  unfold demux_channel. rewrite lookup_total_option, Hb.
  cbn [default from_option id is_null deref bind].
  rewrite HS, Hsz, (channel_offset i Hi).
  pose proof (copy_loop_frames mem first firstSize second secondSize s n F Hs Hn
                Hsplit Hcap HFs
                (λ tb j buf, memcpy tb j ring buf s) (Z.of_nat i) (Z.to_nat F) 0
                tb (first + s * Z.of_nat i) firstSize (loop_budget (F * s))
                ltac:(lia) ltac:(lia) budget_enough) as Hloop.
  rewrite Z2Nat.id, Z.mul_0_l in Hloop by lia.
  rewrite Hloop; [reflexivity|].
  intros _. rewrite Hbase, Hleft. by split.
Qed.

Variable blocks : list buffer.
Hypothesis Hblocks : Forall (λ b, Z.of_nat (length b) = F * s) blocks.
Hypothesis Hcount : Z.of_nat (length blocks) = n.

Local Abbreviation mux_step :=
  (mux_channel (loop_budget (F * s)) first firstSize second secondSize (F * s)
     (size_t (int S)) s (Some <$> blocks)).

(** [mux] over a set of channels: every sample of every channel can be read
    back from the ring, and the ring is unchanged elsewhere. *)
Lemma mux_channels (range : list nat) :
  NoDup range → (∀ i, i ∈ range → (i < length blocks)%nat) →
  ∀ mem0 : buffer,
    length mem0 = length mem →
    ∃ ring,
      for_each mux_step range mem0 = Ok ring ∧
      length ring = length mem ∧
      (∀ (i : nat) b m,
         i ∈ range → blocks !! i = Some b → 0 <= m < F →
         load ring (sample (Z.of_nat i) m) s = load b (m * s) s) ∧
      (∀ q k, 0 <= q → 0 <= k →
              (∀ (i : nat) m, i ∈ range → 0 <= m < F →
                 q + k <= sample (Z.of_nat i) m ∨
                 sample (Z.of_nat i) m + s <= q) →
              load ring q k = load mem0 q k).
Proof.
  induction 1 as [|i range Hi Hnd IH]; intros Hrange mem0 Hlen.
  - exists mem0. split; [reflexivity|]. split; [exact Hlen|].
    split; [|reflexivity]. intros i b m Hin. by apply elem_of_nil in Hin.
  - assert (Hlt : (i < length blocks)%nat) by (apply Hrange; left).
    destruct (lookup_lt_is_Some_2 blocks i Hlt) as [b Hb].
    assert (Hlenb : Z.of_nat (length b) = F * s).
    { eapply (Forall_lookup_1 _ _ _ _ Hblocks Hb). }
    cbn [for_each].
    rewrite (mux_channel_frames (Some <$> blocks) i b mem0)
      by (try lia; rewrite list_lookup_fmap, Hb; reflexivity).
    cbn [bind].
    destruct (channel_stores b (Z.of_nat i) ltac:(lia) Hlenb (Z.to_nat F) 0 mem0
                ltac:(lia) ltac:(lia) Hlen) as (C1 & C2 & C3).
    rewrite Z2Nat.id in C1, C2, C3 by lia.
    set (mem1 := foldl _ mem0 (seqZ 0 F)) in *.
    destruct (IH ltac:(intros j Hj; apply Hrange; by right) mem1 C1)
      as (ring & E & R1 & R2 & R3).
    exists ring. split; [exact E|]. split; [exact R1|]. split.
    + intros j bj m Hj Hbj Hm. apply elem_of_cons in Hj as [->|Hj].
      * rewrite Hb in Hbj. injection Hbj as <-.
        pose proof (sample_bounds (Z.of_nat i) m ltac:(lia) Hm) as (_ & _ & P0 & _).
        rewrite R3; [apply C2; lia|lia|lia|].
        intros j m' Hj Hm'. apply samples_apart; try lia.
        -- split; [lia|].
           assert (j < length blocks)%nat by (apply Hrange; by right). lia.
        -- left. intros E'. apply Nat2Z.inj in E'. by subst.
      * by apply (R2 j bj m).
    + intros q k Hq Hk Hapart. rewrite R3; [|assumption..|].
      * apply C3; [assumption..|]. intros m Hm. apply Hapart; [left|lia].
      * intros j m Hj Hm. apply Hapart; [by right|assumption].
Qed.

(** [demux] of channel [i] out of a ring that holds the samples of block
    [b]: the destination block becomes [b]. *)
Lemma demux_channel_restores (ring : buffer) (tbs : list (option buffer))
    (i : nat) (b tb : buffer) :
  blocks !! i = Some b → tbs !! i = Some (Some tb) →
  length tb = length b →
  (∀ m, 0 <= m < F →
        load ring (sample (Z.of_nat i) m) s = load b (m * s) s) →
  demux_channel (loop_budget (F * s)) ring first firstSize second secondSize
    (F * s) (size_t (int S)) s tbs i
  = Ok (<[i := Some b]> tbs).
Proof.
  intros Hb Htb Hlen Hring.
  assert (Hlenb : Z.of_nat (length b) = F * s).
  { eapply (Forall_lookup_1 _ _ _ _ Hblocks Hb). }
  assert (Hi : Z.of_nat i < n) by (apply lookup_lt_Some in Hb; lia).
  rewrite (demux_channel_frames ring tbs i tb Hi Htb). do 3 f_equal.
  rewrite (foldl_ext_in _ (λ tb m, store tb (m * s) (load b (m * s) s))).
  2:{ intros a m Hm. apply elem_of_seqZ in Hm. by rewrite Hring by lia. }
  rewrite <- (Z2Nat.id F) at 1 by lia.
  rewrite store_chunks; [|assumption|assumption|lia].
  rewrite Z2Nat.id by lia. rewrite <- Hlenb, Nat2Z.id.
  rewrite firstn_all, drop_ge by lia. apply app_nil_r.
Qed.

(** The channel loop of [demux] restores the blocks one after the other. *)
Lemma demux_channels (ring : buffer) (blocks' : list buffer) :
  length blocks' = length blocks →
  Forall (λ b, Z.of_nat (length b) = F * s) blocks' →
  (∀ (i : nat) b m,
     blocks !! i = Some b → 0 <= m < F →
     load ring (sample (Z.of_nat i) m) s = load b (m * s) s) →
  ∀ k : nat,
    (k <= length blocks)%nat →
    for_each
      (demux_channel (loop_budget (F * s)) ring first firstSize second
         secondSize (F * s) (size_t (int S)) s)
      (seq 0 k) (Some <$> blocks')
    = Ok (Some <$> (take k blocks ++ drop k blocks')).
Proof.
  intros Hlen Hblocks' Hring. induction k as [|k IH]; intros Hk.
  - cbn. by rewrite drop_0.
  - rewrite seq_S, for_each_app, IH by lia. cbn [bind for_each Nat.add].
    destruct (lookup_lt_is_Some_2 blocks k ltac:(lia)) as [b Hb].
    destruct (lookup_lt_is_Some_2 blocks' k ltac:(lia)) as [tb Htb].
    assert (Hlenb : Z.of_nat (length b) = F * s).
    { eapply (Forall_lookup_1 _ _ _ _ Hblocks Hb). }
    assert (Hlentb : Z.of_nat (length tb) = F * s).
    { eapply (Forall_lookup_1 _ _ _ _ Hblocks' Htb). }
    rewrite (demux_channel_restores ring _ k b tb Hb); [|  |lia|intros m Hm; by apply Hring].
    + cbn [bind]. f_equal. rewrite <- list_fmap_insert. f_equal.
      rewrite (take_S_r _ _ _ Hb), (drop_S _ _ _ Htb), <- app_assoc.
      rewrite insert_app_r_alt by (rewrite length_take; lia).
      rewrite length_take, Nat.min_l, Nat.sub_diag by lia. reflexivity.
    + rewrite list_lookup_fmap, lookup_app_r by (rewrite length_take; lia).
      rewrite length_take, Nat.min_l, Nat.sub_diag, lookup_drop, Nat.add_0_r, Htb
        by lia.
      reflexivity.
Qed.

(** Interleaving the blocks into the ring and reading them back, for a
    period of at least one frame and at least one channel. *)
Lemma round_trip_frames (blocks' : list buffer) :
  length blocks' = length blocks →
  Forall (λ b, Z.of_nat (length b) = F * s) blocks' →
  ∃ ring,
    mux mem first firstSize second secondSize (Some <$> blocks) n n (F * s) s
      = Ok ring ∧
    demux ring first firstSize second secondSize (Some <$> blocks') n n (F * s) s
      = Ok (Some <$> blocks).
Proof.
  intros Hlen Hblocks'.
  destruct (mux_channels (seq 0 (length blocks)) (NoDup_seq _ _)
              ltac:(intros i Hi; apply elem_of_seq in Hi; lia) mem eq_refl)
    as (ring & E & _ & Hring & _).
  exists ring. unfold mux, mux_with, demux, demux_with.
  rewrite Z.ltb_irrefl.
  replace (Z.to_nat n) with (length blocks) by lia.
  split; [exact E|].
  rewrite (demux_channels ring blocks' Hlen Hblocks'); [|  |lia].
  - cbn [bind]. rewrite Nat.sub_diag. cbn [seq for_each].
    rewrite firstn_all, drop_ge, app_nil_r by lia. reflexivity.
  - intros i b m Hb Hm. apply (Hring i b m); [|assumption..].
    apply elem_of_seq. apply lookup_lt_Some in Hb. lia.
Qed.
End ring_round_trip.

(** *** A period without frames *)

Lemma mux_empty_period mem first firstSize second secondSize tbs ntargets
    nsources sampleSize :
  mux mem first firstSize second secondSize tbs ntargets nsources 0 sampleSize
  = Ok mem.
Proof.
  unfold mux, mux_with.
  induction (seq 0 _) as [|i range IH]; [reflexivity|].
  cbn [for_each]. unfold mux_channel at 1.
  destruct (tbs !!! i) as [b|]; cbn [is_null deref bind]; [|exact IH].
  unfold loop_budget. cbn [Z.to_nat].
  rewrite copy_loop_skipped by (left; lia). exact IH.
Qed.

Lemma demux_channel_empty_period mem first firstSize second secondSize
    sourceStride sampleSize tbs i :
  demux_channel (loop_budget 0) mem first firstSize second secondSize 0
    sourceStride sampleSize tbs i = Ok tbs.
Proof.
  unfold demux_channel. rewrite list_lookup_total_alt.
  destruct (tbs !! i) as [[b|]|] eqn:E; cbn [default from_option id is_null deref bind];
    [|reflexivity..].
  unfold loop_budget. cbn [Z.to_nat].
  rewrite copy_loop_skipped by (left; lia). cbn [bind].
  by rewrite list_insert_id.
Qed.

Lemma demux_empty_period mem first firstSize second secondSize tbs n sampleSize :
  demux mem first firstSize second secondSize tbs n n 0 sampleSize = Ok tbs.
Proof.
  unfold demux, demux_with. rewrite Z.ltb_irrefl, Nat.sub_diag.
  assert (for_each
            (demux_channel (loop_budget 0) mem first firstSize second secondSize
               0 (size_t (int (sampleSize * n))) sampleSize)
            (seq 0 (Z.to_nat n)) tbs = Ok tbs) as ->; [|reflexivity].
  induction (seq 0 _) as [|i range IH]; [reflexivity|].
  cbn [for_each]. rewrite demux_channel_empty_period. exact IH.
Qed.

Lemma empty_blocks (blocks blocks' : list buffer) :
  Forall (λ b, Z.of_nat (length b) = 0) blocks →
  Forall (λ b, Z.of_nat (length b) = 0) blocks' →
  length blocks' = length blocks → blocks' = blocks.
Proof.
  intros H. revert blocks'.
  induction H as [|b blocks Hb _ IH]; intros [|b' blocks'] H' Hlen;
    try discriminate; [reflexivity|].
  apply Forall_cons in H' as [Hb' H'].
  destruct b; [|cbn in Hb; lia]. destruct b'; [|cbn in Hb'; lia].
  f_equal. apply IH; [assumption|]. by injection Hlen.
Qed.

(** C5. Round trip.  Take per-channel blocks, none of them null, of [frames]
    samples of [sampleSize] bytes each, where a frame ([sampleSize] times
    the number of channels) fits an [int] and a block a [size_t], and a ring
    split whose two segments lie inside the memory, apart from each other,
    and hold the [frames] frames of the period: all of them in the first
    segment, or the first segment is a positive whole number of frames and
    the second one holds the rest.  Then [mux] with as many source channels
    as blocks returns, and [demux] on the ring it leaves, with the same
    segments and the same parameters, returns with every destination block
    equal to the original block, whatever the destination blocks held
    before. *)
Theorem mux_demux_round_trip (mem : buffer)
    (first firstSize second secondSize : Z) (blocks blocks' : list buffer)
    (sampleSize frames : Z) :
  0 < sampleSize → 0 <= frames →
  sampleSize * Z.of_nat (length blocks) < 2 ^ 31 →
  frames * sampleSize < 2 ^ 64 →
  Forall (λ b, Z.of_nat (length b) = frames * sampleSize) blocks →
  Forall (λ b, Z.of_nat (length b) = frames * sampleSize) blocks' →
  length blocks' = length blocks →
  ring_split mem first firstSize second secondSize →
  sufficient_capacity firstSize secondSize
    (sampleSize * Z.of_nat (length blocks)) frames →
  ∃ ring,
    mux mem first firstSize second secondSize (Some <$> blocks)
      (Z.of_nat (length blocks)) (Z.of_nat (length blocks))
      (frames * sampleSize) sampleSize = Ok ring ∧
    demux ring first firstSize second secondSize (Some <$> blocks')
      (Z.of_nat (length blocks)) (Z.of_nat (length blocks))
      (frames * sampleSize) sampleSize = Ok (Some <$> blocks).
Proof.
  intros Hs HF Hstride HFs Hblocks Hblocks' Hlen Hsplit Hcap.
  destruct (decide (frames = 0)) as [->|Hframes].
  - rewrite Z.mul_0_l in *. exists mem.
    rewrite mux_empty_period, demux_empty_period.
    by rewrite (empty_blocks blocks blocks').
  - destruct blocks as [|b blocks].
    + destruct blocks'; [|discriminate]. exists mem. split; reflexivity.
    + apply round_trip_frames; try assumption; [|lia|reflexivity].
      rewrite length_cons. lia.
Qed.

(** Two channels of three one-byte samples through a six-byte ring whose
    first segment holds one frame and lies behind the second one. *)
Lemma mux_demux_round_trip_witness :
  ∃ ring,
    mux (replicate 6 x00) 4 2 0 4
      [Some [x01; x02; x03]; Some [x04; x05; x06]] 2 2 3 1 = Ok ring ∧
    demux ring 4 2 0 4
      [Some [xff; xff; xff]; Some [xee; xee; xee]] 2 2 3 1
    = Ok [Some [x01; x02; x03]; Some [x04; x05; x06]].
Proof.
  apply (mux_demux_round_trip (replicate 6 x00) 4 2 0 4
           [[x01; x02; x03]; [x04; x05; x06]]
           [[xff; xff; xff]; [xee; xee; xee]] 1 3).
  - lia.
  - lia.
  - cbn. lia.
  - lia.
  - repeat constructor.
  - repeat constructor.
  - reflexivity.
  - unfold ring_split. cbn. lia.
  - right. exists 1. cbn. lia.
Defined.

(** C5 as stated fails: capacity counted in bytes is not enough.  Two
    channels of three one-byte samples need six bytes; a ring split of nine
    bytes, five in the first segment and four in the second, has them.  But
    the copy loop leaves the first segment only when what remains of it is
    exactly zero: after two frames one byte remains, less than a frame, and
    the loop ends.  The third sample of each channel is neither written by
    [mux] nor read by [demux], and the destination keeps what it held. *)
Lemma round_trip_needs_whole_frames :
  let mem := replicate 9 x00 in
  let blocks := [[x01; x02; x03]; [x04; x05; x06]] in
  let blocks' := [[xff; xff; xff]; [xee; xee; xee]] in
  ring_split mem 0 5 5 4 ∧
  3 * (1 * Z.of_nat (length blocks)) <= 5 + 4 ∧
  ∃ ring,
    mux mem 0 5 5 4 (Some <$> blocks) 2 2 (3 * 1) 1 = Ok ring ∧
    demux ring 0 5 5 4 (Some <$> blocks') 2 2 (3 * 1) 1
    = Ok [Some [x01; x02; xff]; Some [x04; x05; xee]] ∧
    [Some [x01; x02; xff]; Some [x04; x05; xee]] ≠ Some <$> blocks.
Proof.
  cbv zeta. split; [unfold ring_split; cbn; lia|]. split; [cbn; lia|].
  eexists. split; [vm_compute; reflexivity|].
  split; [vm_compute; reflexivity|discriminate].
Qed.

(** * Further properties of the code *)

(** ** The codec beyond the round trip *)

Lemma for_each_ext {A : Type} (f g : A → nat → result A) (range : list nat) :
  (∀ a i, i ∈ range → f a i = g a i) →
  ∀ a, for_each f range a = for_each g range a.
Proof.
  induction range as [|i range IH]; intros Hfg a; cbn; [reflexivity|].
  rewrite Hfg by left. destruct (g a i) as [a'|]; cbn; [|reflexivity].
  apply IH. intros a0 k Hk. apply Hfg. by right.
Qed.

(** While what is left of the first segment is not a whole number of
    frames, the loop never reaches [if (!remaining)] with zero: the second
    segment plays no part. *)
Lemma copy_loop_partial_segment {A : Type} (copy : A → Z → Z → A)
    (targetSize sourceStride sampleSize secondBuf secondSize
       secondBuf' secondSize' : Z) :
  ∀ (fuel : nat) (a : A) (j buf remaining : Z),
    remaining mod sourceStride ≠ 0 →
    copy_loop copy targetSize sourceStride sampleSize secondBuf secondSize
      fuel a j buf remaining
    = copy_loop copy targetSize sourceStride sampleSize secondBuf' secondSize'
        fuel a j buf remaining.
Proof.
  induction fuel as [|fuel IH]; intros a j buf remaining Hrem; cbn;
    [reflexivity|].
  destruct (_ && _); [|reflexivity].
  assert (Hnext : (remaining - sourceStride) mod sourceStride ≠ 0).
  { replace (remaining - sourceStride) with (remaining + (-1) * sourceStride)
      by lia.
    by rewrite Z_mod_plus_full. }
  assert ((remaining - sourceStride =? 0) = false) as ->.
  { apply Z.eqb_neq. intros E. by rewrite E, Zmod_0_l in Hnext. }
  by apply IH.
Qed.

(** X1. A first segment that is not a whole number of frames ends the copy:
    whatever the second segment is, where it lies and how long it is,
    [demux] gives the same target buffers and [mux] the same ring.  The size
    of a frame is the stride the code computes,
    [(size_t)(sampleSize * nsources)] with its product in 32 bits; for a
    stride of 0 the condition is that the first segment is not empty. *)
Theorem partial_first_segment_ends_copy (mem : buffer)
    (first firstSize second secondSize second' secondSize' : Z)
    (tbs : list (option buffer)) (ntargets nsources targetSize sampleSize : Z) :
  firstSize mod size_t (int (sampleSize * nsources)) ≠ 0 →
  demux mem first firstSize second secondSize tbs ntargets nsources
    targetSize sampleSize
  = demux mem first firstSize second' secondSize' tbs ntargets nsources
      targetSize sampleSize ∧
  mux mem first firstSize second secondSize tbs ntargets nsources
    targetSize sampleSize
  = mux mem first firstSize second' secondSize' tbs ntargets nsources
      targetSize sampleSize.
Proof.
  intros Hpart. split.
  - unfold demux, demux_with. f_equal. apply for_each_ext. intros a i _.
    unfold demux_channel. destruct (is_null _); [reflexivity|].
    destruct (deref _); cbn; [|reflexivity].
    by rewrite (copy_loop_partial_segment _ _ _ _ _ _
                  (second' + int (sampleSize * Z.of_nat i)) secondSize').
  - unfold mux, mux_with. apply for_each_ext. intros a i _.
    unfold mux_channel. destruct (is_null _); [reflexivity|].
    destruct (deref _); cbn; [|reflexivity].
    by apply copy_loop_partial_segment.
Qed.

(** A ring of 5 bytes as first segment and frames of 2 bytes: two frames are
    copied, the third is not, with a second segment of 4 bytes or none. *)
Lemma partial_first_segment_ends_copy_witness :
  demux [x01; x02; x03; x04; x05; x06; x07; x08; x09] 0 5 5 4
    [Some [x00; x00; x00]; Some [x00; x00; x00]] 2 2 3 1
  = demux [x01; x02; x03; x04; x05; x06; x07; x08; x09] 0 5 0 0
      [Some [x00; x00; x00]; Some [x00; x00; x00]] 2 2 3 1 ∧
  mux [x01; x02; x03; x04; x05; x06; x07; x08; x09] 0 5 5 4
    [Some [x00; x00; x00]; Some [x00; x00; x00]] 2 2 3 1
  = mux [x01; x02; x03; x04; x05; x06; x07; x08; x09] 0 5 0 0
      [Some [x00; x00; x00]; Some [x00; x00; x00]] 2 2 3 1.
Proof.
  apply partial_first_segment_ends_copy. vm_compute. discriminate.
Defined.

(** X2. Nothing to copy.  When the period is empty ([targetSize <= 0]) or
    the first segment is shorter than one frame, in particular when it is
    empty and a frame is not, [mux] returns the ring as it was and [demux]
    returns with every target channel below [nsources] as it was, whatever
    the second segment holds.  The size of a frame is the stride the code
    computes, [(size_t)(sampleSize * nsources)] with its product in 32
    bits. *)
Theorem nothing_to_copy (mem : buffer) (first firstSize second secondSize : Z)
    (tbs : list (option buffer)) (ntargets nsources targetSize sampleSize : Z) :
  targetSize <= 0 ∨ firstSize < size_t (int (sampleSize * nsources)) →
  mux mem first firstSize second secondSize tbs ntargets nsources
    targetSize sampleSize = Ok mem ∧
  ∃ tbs',
    demux mem first firstSize second secondSize tbs ntargets nsources
      targetSize sampleSize = Ok tbs' ∧
    ∀ k : nat, Z.of_nat k < nsources → tbs' !! k = tbs !! k.
Proof.
  intros Hnone.
  assert (Hskip : ∀ {A : Type} (copy : A → Z → Z → A) sb (a : A) buf,
            copy_loop copy targetSize (size_t (int (sampleSize * nsources)))
              sampleSize sb secondSize (loop_budget targetSize) a 0 buf firstSize = Ok a).
  { intros A copy sb a buf. unfold loop_budget. apply copy_loop_skipped. lia. }
  split.
  - unfold mux, mux_with.
    induction (seq 0 _) as [|i range IH]; [reflexivity|].
    cbn [for_each]. unfold mux_channel at 1.
    destruct (tbs !!! i) as [b|]; cbn [is_null deref bind]; [|exact IH].
    rewrite Hskip. exact IH.
  - unfold demux, demux_with.
    set (i := Z.to_nat (if ntargets <? nsources then ntargets else nsources)).
    assert (for_each
              (demux_channel (loop_budget targetSize) mem first firstSize second
                 secondSize targetSize (size_t (int (sampleSize * nsources)))
                 sampleSize)
              (seq 0 i) tbs = Ok tbs) as ->.
    { induction (seq 0 i) as [|k range IH]; [reflexivity|].
      cbn [for_each]. unfold demux_channel at 1.
      rewrite list_lookup_total_alt.
      destruct (tbs !! k) as [[b|]|] eqn:E;
        cbn [default from_option id is_null deref bind]; [|exact IH..].
      rewrite Hskip. cbn [bind]. by rewrite list_insert_id. }
    cbn [bind].
    destruct (silence_loop targetSize (seq i (Z.to_nat ntargets - i))
                (NoDup_seq _ _) tbs) as (tbs' & E & Hk).
    exists tbs'. split; [exact E|]. intros k Hlt. rewrite Hk.
    destruct (decide _) as [Hin|]; [|reflexivity].
    apply elem_of_seq in Hin. subst i.
    destruct (ntargets <? nsources) eqn:Hc; [apply Z.ltb_lt in Hc|apply Z.ltb_ge in Hc]; lia.
Qed.

(** An empty first segment in front of a second one of four bytes. *)
Lemma nothing_to_copy_witness :
  mux [x01; x02; x03; x04] 0 0 0 4 [Some [x0a; x0b]; Some [x0c; x0d]] 2 2 2 1
    = Ok [x01; x02; x03; x04] ∧
  ∃ tbs',
    demux [x01; x02; x03; x04] 0 0 0 4 [Some [x0a; x0b]; Some [x0c; x0d]]
      2 2 2 1 = Ok tbs' ∧
    ∀ k : nat, Z.of_nat k < 2 → tbs' !! k = [Some [x0a; x0b]; Some [x0c; x0d]] !! k.
Proof.
  apply (nothing_to_copy [x01; x02; x03; x04] 0 0 0 4
           [Some [x0a; x0b]; Some [x0c; x0d]] 2 2 2 1).
  right. vm_compute. reflexivity.
Defined.

(** A block written chunk by chunk reads back chunk by chunk. *)
Lemma stored_chunks_load (s : Z) (chunk : Z → list byte) :
  0 < s →
  ∀ (count : nat) (tb : buffer),
    (∀ m, 0 <= m < Z.of_nat count → Z.of_nat (length (chunk m)) = s) →
    Z.of_nat count * s <= Z.of_nat (length tb) →
    let tb' := foldl (λ tb m, store tb (m * s) (chunk m)) tb
                 (seqZ 0 (Z.of_nat count)) in
    length tb' = length tb ∧
    ∀ m, 0 <= m < Z.of_nat count → load tb' (m * s) s = chunk m.
Proof.
  intros Hs. induction count as [|count IH]; intros tb Hchunk Hfit.
  - cbn. split; [reflexivity|lia].
  - rewrite seqZ_S, foldl_snoc. cbn zeta.
    destruct (IH tb) as [Hlen Hload]; [intros m Hm; apply Hchunk; lia|lia|].
    cbn zeta in Hlen, Hload. rewrite Z.add_0_l.
    set (tb1 := foldl _ tb (seqZ 0 (Z.of_nat count))) in *.
    pose proof (Hchunk (Z.of_nat count) ltac:(lia)) as Hc.
    pose proof (mul_le_r 0 (Z.of_nat count) s ltac:(lia) ltac:(lia)) as Hpos.
    split; [by rewrite length_store|].
    intros m Hm. destruct (decide (m = Z.of_nat count)) as [->|Hne].
    + pose proof (load_store_same tb1 (Z.of_nat count * s) (chunk (Z.of_nat count))
                    ltac:(lia) ltac:(lia)) as Hsame.
      by rewrite Hc in Hsame.
    + rewrite load_store_apart; [apply Hload; lia|lia| |lia|].
      * pose proof (mul_le_r 0 m s). lia.
      * left. pose proof (mul_le_r (m + 1) (Z.of_nat count) s). lia.
Qed.

(** The channel loop of [demux] leaves the entries of the other channels
    alone. *)
Lemma demux_channels_other fuel mem first firstSize second secondSize
    targetSize sourceStride sampleSize (range : list nat)
    (tbs tbs' : list (option buffer)) (k : nat) :
  for_each
    (demux_channel fuel mem first firstSize second secondSize targetSize
       sourceStride sampleSize) range tbs = Ok tbs' →
  k ∉ range → tbs' !! k = tbs !! k.
Proof.
  intros E Hk.
  eapply (channel_loop_frame _ _ range
            (demux_channel_step fuel mem first firstSize second secondSize
               targetSize sourceStride sampleSize)); eassumption.
Qed.

(** [demux] in the terms of the ring, channel by channel. *)
Lemma demux_frames (ring : buffer)
    (first firstSize second secondSize s n F : Z)
    (tbs : list (option buffer)) (ntargets : Z) :
  0 < s → 0 < n → 0 < F → s * n < 2 ^ 31 → F * s < 2 ^ 64 →
  ring_split ring first firstSize second secondSize →
  sufficient_capacity firstSize secondSize (s * n) F →
  ∃ tbs',
    demux ring first firstSize second secondSize tbs ntargets n (F * s) s
      = Ok tbs' ∧
    ∀ (i : nat) (tb : buffer),
      Z.of_nat i < ntargets → Z.of_nat i < n →
      tbs !! i = Some (Some tb) → Z.of_nat (length tb) = F * s →
      ∃ tb',
        tbs' !! i = Some (Some tb') ∧ length tb' = length tb ∧
        ∀ m, 0 <= m < F →
             load tb' (m * s) s
             = load ring (sample_at first firstSize second s n (Z.of_nat i) m) s.
Proof.
  intros Hs Hn HF Hstride HFs Hsplit Hcap.
  assert (Hret : ∃ tbs',
            demux ring first firstSize second secondSize tbs ntargets n (F * s) s
            = Ok tbs').
  { unfold demux, demux_with.
    edestruct (for_each_total (λ _ : list (option buffer), True))
      as (t1 & -> & _); [|exact I|].
    { intros a i Hi _. apply elem_of_seq in Hi.
      assert (Hin : Z.of_nat i < n).
      { destruct (ntargets <? n) eqn:E; [apply Z.ltb_lt in E|]; lia. }
      destruct (a !! i) as [[tb|]|] eqn:Ea.
      - rewrite (demux_channel_frames ring first firstSize second secondSize
                   s n F Hs Hn HF Hsplit Hcap Hstride HFs ring a i tb Hin Ea).
        eauto.
      - unfold demux_channel. rewrite lookup_total_option, Ea. cbn. eauto.
      - unfold demux_channel. rewrite lookup_total_option, Ea. cbn. eauto. }
    cbn. edestruct silence_loop as (t2 & -> & _); [apply NoDup_seq|]. eauto. }
  destruct Hret as (tbs' & E).
  exists tbs'. split; [exact E|]. intros i tb Hit Hin Htb Hlen.
  unfold demux, demux_with in E.
  set (k := Z.to_nat (if ntargets <? n then ntargets else n)) in *.
  assert (Hik : (i < k)%nat).
  { subst k. destruct (ntargets <? n); lia. }
  apply bind_Ok in E as (tbs1 & E1 & E2).
  replace (seq 0 k) with (seq 0 i ++ [i] ++ seq (S i) (k - S i)) in E1.
  2:{ replace k with (i + S (k - S i))%nat at 2 by lia.
      rewrite seq_app. reflexivity. }
  rewrite !for_each_app in E1.
  apply bind_Ok in E1 as (tbsa & Ea & E1).
  apply bind_Ok in E1 as (tbsb & Eb & Ec).
  apply demux_channels_other with (k := i) in Ea;
    [|rewrite elem_of_seq; lia].
  apply demux_channels_other with (k := i) in Ec;
    [|rewrite elem_of_seq; lia].
  rewrite (demux_channel_frames ring first firstSize second secondSize s n F
             Hs Hn HF Hsplit Hcap Hstride HFs ring tbsa i tb Hin) in Eb
    by congruence.
  injection Eb as <-.
  destruct (silence_loop (F * s) (seq k (Z.to_nat ntargets - k)) (NoDup_seq _ _)
              tbs1) as (t & E2' & Hsil).
  rewrite E2' in E2. injection E2 as ->.
  specialize (Hsil i). destruct (decide _) as [Hin'|_] in Hsil;
    [apply elem_of_seq in Hin'; lia|].
  rewrite Hsil, Ec, list_lookup_insert_eq
    by (apply lookup_lt_is_Some; rewrite Ea, Htb; eauto).
  set (chunk := λ m, load ring (sample_at first firstSize second s n (Z.of_nat i) m) s).
  destruct (stored_chunks_load s chunk Hs (Z.to_nat F) tb) as [Hl Hload].
  - intros m Hm. unfold chunk.
    destruct (sample_bounds ring first firstSize second secondSize s n F Hs Hn
                Hsplit Hcap (Z.of_nat i) m ltac:(lia) ltac:(lia))
      as (_ & _ & Hp0 & Hp1).
    rewrite length_load; lia.
  - lia.
  - rewrite Z2Nat.id in Hl, Hload by lia. eexists. split; [reflexivity|].
    split; [exact Hl|]. intros m Hm. by apply Hload.
Qed.

(** X3. [demux] de-interleaves.  With a frame that fits an [int], a block
    that fits a [size_t] and a ring split that holds the [F] frames of the
    period, [demux] returns, and in every target block of [F] samples
    fed by a source channel the sample of frame [m] is the sample the ring
    holds for that channel in frame [m], in the first segment or, from the
    frame where the first segment is used up, in the second one. *)
Theorem demux_deinterleaves (ring : buffer)
    (first firstSize second secondSize s n F : Z)
    (tbs : list (option buffer)) (ntargets : Z) :
  0 < s → 0 < n → 0 < F → s * n < 2 ^ 31 → F * s < 2 ^ 64 →
  ring_split ring first firstSize second secondSize →
  sufficient_capacity firstSize secondSize (s * n) F →
  ∃ tbs',
    demux ring first firstSize second secondSize tbs ntargets n (F * s) s
      = Ok tbs' ∧
    ∀ (i : nat) (tb : buffer),
      Z.of_nat i < ntargets → Z.of_nat i < n →
      tbs !! i = Some (Some tb) → Z.of_nat (length tb) = F * s →
      ∃ tb',
        tbs' !! i = Some (Some tb') ∧ length tb' = length tb ∧
        ∀ m, 0 <= m < F →
             load tb' (m * s) s
             = load ring (sample_at first firstSize second s n (Z.of_nat i) m) s.
Proof. apply demux_frames. Qed.

(** Three frames of two one-byte channels in a ring whose first segment, at
    offset 4, holds one frame; only the first channel is asked for. *)
Lemma demux_deinterleaves_witness :
  ∃ tbs',
    demux [x01; x02; x03; x04; x05; x06] 4 2 0 4 [Some [xff; xff; xff]] 1 2 3 1
      = Ok tbs' ∧
    ∀ (i : nat) (tb : buffer),
      Z.of_nat i < 1 → Z.of_nat i < 2 →
      [Some [xff; xff; xff]] !! i = Some (Some tb) → Z.of_nat (length tb) = 3 * 1 →
      ∃ tb',
        tbs' !! i = Some (Some tb') ∧ length tb' = length tb ∧
        ∀ m, 0 <= m < 3 →
             load tb' (m * 1) 1
             = load [x01; x02; x03; x04; x05; x06]
                 (sample_at 4 2 0 1 2 (Z.of_nat i) m) 1.
Proof.
  apply (demux_deinterleaves [x01; x02; x03; x04; x05; x06] 4 2 0 4 1 2 3
           [Some [xff; xff; xff]] 1).
  - lia.
  - lia.
  - lia.
  - lia.
  - lia.
  - unfold ring_split. cbn. lia.
  - right. exists 1. cbn. lia.
Defined.

(** [mux] of all the blocks, in the terms of the ring. *)
Lemma mux_ring (mem : buffer) (first firstSize second secondSize s n F : Z)
    (blocks : list buffer) :
  0 < s → 0 < n → 0 < F → s * n < 2 ^ 31 → F * s < 2 ^ 64 →
  ring_split mem first firstSize second secondSize →
  sufficient_capacity firstSize secondSize (s * n) F →
  Forall (λ b, Z.of_nat (length b) = F * s) blocks →
  Z.of_nat (length blocks) = n →
  ∃ ring,
    mux mem first firstSize second secondSize (Some <$> blocks) n n (F * s) s
      = Ok ring ∧
    length ring = length mem ∧
    (∀ (i : nat) b m,
       blocks !! i = Some b → 0 <= m < F →
       load ring (sample_at first firstSize second s n (Z.of_nat i) m) s
       = load b (m * s) s) ∧
    (∀ q k, 0 <= q → 0 <= k →
            (∀ (i : nat) m, (i < length blocks)%nat → 0 <= m < F →
               q + k <= sample_at first firstSize second s n (Z.of_nat i) m ∨
               sample_at first firstSize second s n (Z.of_nat i) m + s <= q) →
            load ring q k = load mem q k).
Proof.
  intros Hs Hn HF Hstride HFs Hsplit Hcap Hblocks Hcount.
  destruct (mux_channels mem first firstSize second secondSize s n F Hs Hn HF
              Hsplit Hcap Hstride HFs blocks Hblocks Hcount
              (seq 0 (length blocks))
              (NoDup_seq _ _)
              ltac:(intros i Hi; apply elem_of_seq in Hi; lia) mem eq_refl)
    as (ring & E & Hlen & Hload & Hframe).
  exists ring. unfold mux, mux_with. rewrite Z.ltb_irrefl.
  replace (Z.to_nat n) with (length blocks) by lia.
  split; [exact E|]. split; [exact Hlen|]. split.
  - intros i b m Hb Hm. apply (Hload i b m); [|assumption..].
    apply elem_of_seq. apply lookup_lt_Some in Hb. lia.
  - intros q k Hq Hk Hapart. apply Hframe; [assumption..|].
    intros i m Hi Hm. apply Hapart; [|assumption].
    apply elem_of_seq in Hi. lia.
Qed.

(** X4. [mux] interleaves.  With a frame that fits an [int], blocks that fit
    a [size_t], a ring split that holds the [F] frames of the period and as
    many source channels as blocks, [mux] returns, and the
    ring then holds, for every channel and every frame, the sample of that
    block: frame after frame, the channels of a frame side by side. *)
Theorem mux_interleaves (mem : buffer)
    (first firstSize second secondSize s F : Z) (blocks : list buffer) :
  0 < s → 0 < F → blocks ≠ [] →
  s * Z.of_nat (length blocks) < 2 ^ 31 → F * s < 2 ^ 64 →
  ring_split mem first firstSize second secondSize →
  sufficient_capacity firstSize secondSize (s * Z.of_nat (length blocks)) F →
  Forall (λ b, Z.of_nat (length b) = F * s) blocks →
  ∃ ring,
    mux mem first firstSize second secondSize (Some <$> blocks)
      (Z.of_nat (length blocks)) (Z.of_nat (length blocks)) (F * s) s
      = Ok ring ∧
    ∀ (i : nat) b m,
      blocks !! i = Some b → 0 <= m < F →
      load ring
        (frame_base first firstSize second (s * Z.of_nat (length blocks)) m
         + s * Z.of_nat i) s
      = load b (m * s) s.
Proof.
  intros Hs HF Hne Hstride HFs Hsplit Hcap Hblocks.
  destruct (mux_ring mem first firstSize second secondSize s
              (Z.of_nat (length blocks)) F blocks Hs) as (ring & E & _ & Hload & _);
    try assumption; try reflexivity.
  { destruct blocks; [done|]. rewrite length_cons. lia. }
  exists ring. split; [exact E|]. exact Hload.
Qed.

Lemma mux_interleaves_witness :
  ∃ ring,
    mux (replicate 6 x00) 4 2 0 4
      [Some [x01; x02; x03]; Some [x04; x05; x06]] 2 2 3 1
      = Ok ring ∧
    ∀ (i : nat) b m,
      [[x01; x02; x03]; [x04; x05; x06]] !! i = Some b → 0 <= m < 3 →
      load ring (frame_base 4 2 0 2 m + 1 * Z.of_nat i) 1
      = load b (m * 1) 1.
Proof.
  apply (mux_interleaves (replicate 6 x00) 4 2 0 4 1 3
           [[x01; x02; x03]; [x04; x05; x06]]).
  - lia.
  - lia.
  - discriminate.
  - cbn. lia.
  - lia.
  - unfold ring_split. cbn. lia.
  - right. exists 1. cbn. lia.
  - repeat constructor.
Defined.

(** [mux] leaves what lies apart from the two segments. *)
Lemma mux_ring_outside (mem : buffer)
    (first firstSize second secondSize s F : Z) (blocks : list buffer) :
  0 < s → 0 < F → blocks ≠ [] →
  s * Z.of_nat (length blocks) < 2 ^ 31 → F * s < 2 ^ 64 →
  ring_split mem first firstSize second secondSize →
  sufficient_capacity firstSize secondSize (s * Z.of_nat (length blocks)) F →
  Forall (λ b, Z.of_nat (length b) = F * s) blocks →
  ∃ ring,
    mux mem first firstSize second secondSize (Some <$> blocks)
      (Z.of_nat (length blocks)) (Z.of_nat (length blocks)) (F * s) s
      = Ok ring ∧
    length ring = length mem ∧
    ∀ q k,
      0 <= q → 0 <= k →
      q + k <= first ∨ first + firstSize <= q →
      q + k <= second ∨ second + secondSize <= q →
      load ring q k = load mem q k.
Proof.
  intros Hs HF Hne Hstride HFs Hsplit Hcap Hblocks.
  assert (Hn : 0 < Z.of_nat (length blocks)).
  { destruct blocks; [done|]. rewrite length_cons. lia. }
  destruct (mux_ring mem first firstSize second secondSize s
              (Z.of_nat (length blocks)) F blocks Hs)
    as (ring & E & Hlen & _ & Hframe); try assumption; try reflexivity.
  exists ring. split; [exact E|]. split; [exact Hlen|].
  intros q k Hq Hk H1 H2. apply Hframe; [assumption..|].
  intros i m Hi Hm.
  destruct (sample_bounds mem first firstSize second secondSize s _ F Hs Hn
              Hsplit Hcap (Z.of_nat i) m ltac:(lia) Hm) as (Hb0 & Hb1 & _).
  pose proof (stride_pos s _ Hs Hn) as HS.
  destruct (frame_span mem first firstSize second secondSize s _ F Hs Hn
              Hsplit Hcap m Hm) as [(Hlt & Hbase & Hfit)|(Hge & Hbase & Hfit)].
  - pose proof (mul_le_r 0 m (s * Z.of_nat (length blocks))). lia.
  - pose proof (mul_le_r 0 (m - firstSize / (s * Z.of_nat (length blocks)))
                  (s * Z.of_nat (length blocks))). lia.
Qed.

(** X5. [mux] writes inside the two segments only.  With a frame that fits
    an [int], blocks that fit a [size_t] and a ring split that holds the
    frames of the period, the memory keeps its size and every run of bytes
    that lies apart from both segments is as it was. *)
Theorem mux_writes_inside_segments (mem : buffer)
    (first firstSize second secondSize s F : Z) (blocks : list buffer) :
  0 < s → 0 < F → blocks ≠ [] →
  s * Z.of_nat (length blocks) < 2 ^ 31 → F * s < 2 ^ 64 →
  ring_split mem first firstSize second secondSize →
  sufficient_capacity firstSize secondSize (s * Z.of_nat (length blocks)) F →
  Forall (λ b, Z.of_nat (length b) = F * s) blocks →
  ∃ ring,
    mux mem first firstSize second secondSize (Some <$> blocks)
      (Z.of_nat (length blocks)) (Z.of_nat (length blocks)) (F * s) s
      = Ok ring ∧
    length ring = length mem ∧
    ∀ q k,
      0 <= q → 0 <= k →
      q + k <= first ∨ first + firstSize <= q →
      q + k <= second ∨ second + secondSize <= q →
      load ring q k = load mem q k.
Proof. apply mux_ring_outside. Qed.

Lemma mux_writes_inside_segments_witness :
  ∃ ring,
    mux [x0a; x0b; x0c; x0d; x0e; x0f; x10; x11] 5 2 1 2
      [Some [x01; x02]; Some [x04; x05]] 2 2 2 1
      = Ok ring ∧
    length ring = 8%nat ∧
    ∀ q k,
      0 <= q → 0 <= k →
      q + k <= 5 ∨ 5 + 2 <= q →
      q + k <= 1 ∨ 1 + 2 <= q →
      load ring q k = load [x0a; x0b; x0c; x0d; x0e; x0f; x10; x11] q k.
Proof.
  apply (mux_writes_inside_segments [x0a; x0b; x0c; x0d; x0e; x0f; x10; x11]
           5 2 1 2 1 2 [[x01; x02]; [x04; x05]]).
  - lia.
  - lia.
  - discriminate.
  - cbn. lia.
  - lia.
  - unfold ring_split. cbn. lia.
  - right. exists 1. cbn. lia.
  - repeat constructor.
Defined.

(** ** The engine beyond one endpoint *)

Section engine_invariants.
Variable GENERATION_IS_ACTIVE : Z → bool.
Variable GENERATION_NUMBER : Z → Z.
Variable sizeof_SarHandleQueueResponse : Z.

Local Abbreviation refresh :=
  (refresh_handles GENERATION_NUMBER sizeof_SarHandleQueueResponse).
Local Abbreviation endpoint_step :=
  (tick_endpoint GENERATION_IS_ACTIVE GENERATION_NUMBER
     sizeof_SarHandleQueueResponse).
Local Abbreviation loop_until :=
  (tick_until GENERATION_IS_ACTIVE GENERATION_NUMBER
     sizeof_SarHandleQueueResponse).
Local Abbreviation run_tick :=
  (tick GENERATION_IS_ACTIVE GENERATION_NUMBER sizeof_SarHandleQueueResponse).
Local Abbreviation step_returns :=
  (endpoint_step_returns GENERATION_IS_ACTIVE GENERATION_NUMBER
     sizeof_SarHandleQueueResponse).
Local Abbreviation step_frame :=
  (endpoint_step_frame GENERATION_IS_ACTIVE GENERATION_NUMBER
     sizeof_SarHandleQueueResponse).
Local Abbreviation step_result :=
  (endpoint_step_result GENERATION_IS_ACTIVE GENERATION_NUMBER
     sizeof_SarHandleQueueResponse).

(** [tick] on an engine with registers, as the endpoint loop. *)
Lemma tick_loop env b s m :
  _registers (client s) ≠ nullptr →
  run_tick env b s m
  = (st <- for_each (endpoint_step env b)
             (seq 0 (length (endpoints (_driverConfig (client s)))))
             (tick_begin s m) ;;
     Ok (session st, memory st)).
Proof.
  intros Hregs. unfold tick, tick_until.
  destruct (_registers (client s) =? nullptr) eqn:E; [|reflexivity].
  by apply Z.eqb_eq in E.
Qed.

(** [tick] returns, with the configuration kept. *)
Lemma tick_result env b s m :
  ∃ s' m', run_tick env b s m = Ok (s', m') ∧ session_kept s s'.
Proof.
  destruct (decide (_registers (client s) = nullptr)) as [Hnull|Hregs].
  { exists s, m. unfold tick. rewrite Hnull. cbn.
    split; [reflexivity|apply session_kept_refl]. }
  rewrite (tick_loop env b s m Hregs).
  destruct (tick_begin_frame s m) as [[Hb _] _].
  destruct (for_each_total (λ st, session_kept s (session st))
              (endpoint_step env b)
              (seq 0 (length (endpoints (_driverConfig (client s)))))) with
    (a := tick_begin s m) as (st & -> & Hk).
  - intros a i _ Ha. destruct (step_returns env b a i) as (a' & E).
    exists a'. split; [exact E|]. apply step_frame in E as (Hk & _).
    by eapply session_kept_trans.
  - exact Hb.
  - exists (session st), (memory st). split; [reflexivity|exact Hk].
Qed.


(** X7. After [stop] on an engine whose device is open, [tick] does
    nothing: it returns with the engine object, the calls made and the
    shared memory as they are. *)
Theorem tick_after_stop env b s m :
  _device (client s) ≠ INVALID_HANDLE_VALUE →
  run_tick env b (stop s) m = Ok (stop s, m).
Proof.
  intros Hdev. destruct (stop_releases s Hdev) as (_ & Hregs & _).
  unfold tick. by rewrite Hregs.
Qed.




(** The registers of an index the endpoint loop does not visit. *)
Lemma tick_beyond_endpoints env b s m s' m' (j : nat) :
  run_tick env b s m = Ok (s', m') →
  (length (endpoints (_driverConfig (client s))) <= j)%nat →
  registers m' !! j = registers m !! j ∧
  endpointBuffers (client s') b j = endpointBuffers (client s) b j.
Proof.
  intros E Hj.
  destruct (decide (_registers (client s) = nullptr)) as [Hnull|Hregs].
  { unfold tick in E. rewrite Hnull in E. cbn in E. by injection E as <- <-. }
  rewrite (tick_loop env b s m Hregs) in E.
  destruct (loop_frame GENERATION_IS_ACTIVE GENERATION_NUMBER
              sizeof_SarHandleQueueResponse env b
              (seq 0 (length (endpoints (_driverConfig (client s))))) j
              (tick_begin s m)) as (st & Est & _ & Hb & Hr);
    [rewrite elem_of_seq; lia|].
  rewrite Est in E. cbn in E. injection E as <- <-.
  destruct (tick_begin_frame s m) as [Hk Hm].
  rewrite Hm in Hr. split; [exact Hr|].
  rewrite Hb. by apply endpointBuffers_kept.
Qed.


Lemma other_half_kept_refl b s : other_half_kept b s s.
Proof. by intros b' _. Qed.

Lemma other_half_kept_trans b s1 s2 s3 :
  other_half_kept b s1 s2 → other_half_kept b s2 s3 → other_half_kept b s1 s3.
Proof. intros H1 H2 b' Hb. by rewrite H2, H1. Qed.

Lemma other_half_kept_refresh b s s' :
  refresh_kept s s' → other_half_kept b s s'.
Proof. intros [_ E] b' _. by rewrite E. Qed.

Lemma other_half_kept_set b i (v : list (option buffer)) s :
  other_half_kept b s (update (set_asioBuffers b i v) s).
Proof. intros b' Hb. cbn. by apply list_lookup_insert_ne. Qed.

Lemma other_half_kept_call b e s : other_half_kept b s (call e s).
Proof. by intros b' _. Qed.

Lemma endpoint_step_other_half env b st i st' :
  endpoint_step env b st i = Ok st' →
  other_half_kept b (session st) (session st').
Proof.
  intros H.
  destruct (step_result env b st i)
    as (silent1 & copied & silent2 & _ & _ & _ & _ & _ & E).
  rewrite E in H. clear E. injection H as <-.
  destruct (refresh_handles_kept GENERATION_NUMBER sizeof_SarHandleQueueResponse
              env st i) as [Hk _].
  apply (other_half_kept_refresh b) in Hk.
  set (st1 := refresh env st i) in *.
  assert (H2 : other_half_kept b (session st)
                 (session (copied_state env b i copied st1))).
  { eapply other_half_kept_trans; [exact Hk|]. apply other_half_kept_set. }
  destruct (silence_path _ _ _).
  { eapply other_half_kept_trans; [exact Hk|]. apply other_half_kept_set. }
  cbv zeta. destruct (generation_changed _ _ _ _ _).
  { eapply other_half_kept_trans; [exact H2|]. apply other_half_kept_set. }
  destruct (crossing_due _ _); [destruct (handle_current _ _ _ _)|].
  - eapply other_half_kept_trans; [exact H2|].
    apply (other_half_kept_call b _ (session (copied_state env b i copied st1))).
  - eapply other_half_kept_trans; [exact H2|]. apply other_half_kept_set.
  - exact H2.
Qed.

(** X9. [tick] for one half of the double buffer leaves the host buffers of
    the other half as they are, and in its own half it changes no pointer
    and no size: the same entries are null and every block keeps its
    length. *)
Theorem tick_keeps_buffer_layout env b s m :
  ∃ s' m',
    run_tick env b s m = Ok (s', m') ∧
    (∀ b' j : nat, b' ≠ b →
       endpointBuffers (client s') b' j = endpointBuffers (client s) b' j) ∧
    ∀ j : nat,
      shape (endpointBuffers (client s') b j)
      = shape (endpointBuffers (client s) b j).
Proof.
  destruct (tick_result env b s m) as (s' & m' & E & _).
  exists s', m'. split; [exact E|].
  destruct (decide (_registers (client s) = nullptr)) as [Hnull|Hregs].
  { unfold tick in E. rewrite Hnull in E. cbn in E. injection E as <- <-.
    by split. }
  split.
  - rewrite (tick_loop env b s m Hregs) in E.
    apply bind_Ok in E as (st & Est & [= <- <-]).
    assert (Hother : other_half_kept b s (session st)).
    { eapply (for_each_keeps (λ st, other_half_kept b s (session st)));
        [|  |exact Est].
      - intros a i a' _ Ha Ea. eapply other_half_kept_trans; [exact Ha|].
        by eapply endpoint_step_other_half.
      - apply other_half_kept_refresh. apply tick_begin_frame. }
    intros b' j Hb. unfold endpointBuffers.
    by rewrite (lookup_total_eq _ _ _ (Hother b' Hb)).
  - intros j.
    destruct (decide (j < length (endpoints (_driverConfig (client s))))%nat)
      as [Hj|Hj].
    2:{ destruct (tick_beyond_endpoints env b s m s' m' j E ltac:(lia)) as [_ ->].
        reflexivity. }
    destruct (tick_at GENERATION_IS_ACTIVE GENERATION_NUMBER
                sizeof_SarHandleQueueResponse env b s m j Hregs Hj)
      as (st_i & s1 & m1 & silent & copied & _ & E1 & _ & Hs & _ & Hc & H).
    rewrite E1 in E. injection E as <- <-. cbv zeta in H.
    destruct (silence_path _ _ _); [by destruct H as [-> _]|].
    destruct (generation_changed _ _ _ _ _); [by destruct H as [-> _]|].
    destruct (crossing_due _ _); [destruct (handle_current _ _ _ _)|].
    + by destruct H as (-> & _).
    + by destruct H as [-> _].
    + by destruct H as [-> _].
Qed.

Lemma silence_endpoint_memory b i n (bufs : list (option buffer)) st st' :
  silence_endpoint b i n bufs st = Ok st' → memory st' = memory st.
Proof.
  destruct (silence_endpoint_returns b i n bufs st) as (silent & -> & _).
  by intros [= <-].
Qed.

(** An iteration for a playback endpoint leaves the ring as it is. *)
Lemma endpoint_step_playback env b st i st' :
  type (endpoints (_driverConfig (client (session st))) !!! i) = Playback →
  endpoint_step env b st i = Ok st' →
  sharedBuffer (memory st') = sharedBuffer (memory st).
Proof.
  intros Hplay H. unfold tick_endpoint in H.
  destruct (refresh_handles_kept GENERATION_NUMBER sizeof_SarHandleQueueResponse
              env st i) as [_ Hmem].
  set (st1 := refresh env st i) in *.
  destruct (silence_path _ _ _).
  { apply silence_endpoint_memory in H. by rewrite H, Hmem. }
  apply bind_Ok in H as (copied & Ec & H).
  unfold copy_endpoint in Ec. rewrite Hplay in Ec.
  apply bind_Ok in Ec as (bufs & _ & [= <-]). cbn [fst snd] in H.
  unfold publish in H.
  destruct (generation_changed _ _ _ _ _).
  { apply silence_endpoint_memory in H. rewrite H. cbn. by rewrite Hmem. }
  destruct (crossing_due _ _); [destruct (handle_current _ _ _ _)|].
  - injection H as <-. cbn. by rewrite Hmem.
  - apply silence_endpoint_memory in H. rewrite H. cbn. by rewrite Hmem.
  - injection H as <-. cbn. by rewrite Hmem.
Qed.

(** X10. Playback only reads the ring: when every endpoint is a playback
    endpoint, [tick] returns with the shared buffer byte for byte as it
    was. *)
Theorem tick_playback_keeps_ring env b s m :
  Forall (λ e, type e = Playback) (endpoints (_driverConfig (client s))) →
  ∃ s' m',
    tick GENERATION_IS_ACTIVE GENERATION_NUMBER sizeof_SarHandleQueueResponse
      env b s m = Ok (s', m') ∧
    sharedBuffer m' = sharedBuffer m.
Proof.
  intros Hplay. destruct (tick_result env b s m) as (s' & m' & E & _).
  exists s', m'. split; [exact E|].
  destruct (decide (_registers (client s) = nullptr)) as [Hnull|Hregs].
  { unfold tick in E. rewrite Hnull in E. cbn in E. by injection E as <- <-. }
  rewrite (tick_loop env b s m Hregs) in E.
  apply bind_Ok in E as (st & Est & [= <- <-]).
  destruct (tick_begin_frame s m) as [[Hb _] Hm].
  apply (for_each_keeps
           (λ st, session_kept s (session st) ∧
                  sharedBuffer (memory st) = sharedBuffer m)) in Est;
    [apply Est| |by rewrite Hm].
  intros a i a' Hi [Hk Hring] Ea. split.
  - eapply session_kept_trans; [exact Hk|]. by apply step_frame in Ea as (? & _).
  - rewrite <- Hring. eapply endpoint_step_playback; [|exact Ea].
    destruct Hk as (-> & _). apply elem_of_seq in Hi.
    destruct (lookup_lt_is_Some_2 (endpoints (_driverConfig (client s))) i
                ltac:(lia)) as [e He].
    rewrite (list_lookup_total_correct _ _ _ He).
    by eapply (Forall_lookup_1 _ _ _ _ Hplay).
Qed.
End engine_invariants.

Lemma tick_after_stop_witness :
  tick generation_is_active generation_number 16 quiet 0
    (stop (studio handle_77)) (studio_memory g_active 1)
  = Ok (stop (studio handle_77), studio_memory g_active 1).
Proof.
  apply (tick_after_stop generation_is_active generation_number 16 quiet 0%nat
           (studio handle_77) (studio_memory g_active 1)).
  vm_compute. discriminate.
Defined.

Lemma tick_playback_keeps_ring_witness :
  ∃ s' m',
    tick generation_is_active generation_number 16 quiet 0
      (studio handle_77) (studio_memory g_active 1) = Ok (s', m') ∧
    sharedBuffer m' = sharedBuffer (studio_memory g_active 1).
Proof.
  apply (tick_playback_keeps_ring generation_is_active generation_number 16
           quiet 0%nat (studio handle_77) (studio_memory g_active 1)).
  repeat constructor.
Defined.

Lemma count_calls_app p (l1 l2 : list OsCall) :
  count_calls p (l1 ++ l2) = (count_calls p l1 + count_calls p l2)%nat.
Proof. unfold count_calls. by rewrite List.filter_app, length_app. Qed.

Lemma adds_refl s : adds 0 0 s s.
Proof. exists []. rewrite app_nil_r. repeat split; [constructor|cbn; lia..]. Qed.

Lemma adds_trans w1 p1 w2 p2 s1 s2 s3 :
  adds w1 p1 s1 s2 → adds w2 p2 s2 s3 → adds (w1 + w2) (p1 + p2) s1 s3.
Proof.
  intros (n1 & E1 & F1 & A1 & W1 & P1) (n2 & E2 & F2 & A2 & W2 & P2).
  exists (n1 ++ n2). rewrite E2, E1, app_assoc, !count_calls_app.
  repeat split; [congruence|by apply Forall_app|lia..].
Qed.

Lemma adds_weaken w p w' p' s s' :
  adds w p s s' → (w <= w')%nat → (p <= p')%nat → adds w' p' s s'.
Proof.
  intros (n & E & F & A & W & P) Hw Hp. exists n. repeat split; try done; lia.
Qed.

Lemma adds_call e s :
  loop_call e →
  adds (if is_wait_request e then 1 else 0) (if is_poll e then 1 else 0)
    s (call e s).
Proof.
  intros He. exists [e]. repeat split; [by constructor|..];
    unfold count_calls; cbn; by destruct (_ e).
Qed.

Lemma adds_update f s :
  (∀ c, _updateSampleRateOnTick (f c) = _updateSampleRateOnTick c) →
  adds 0 0 s (update f s).
Proof.
  intros Hf. exists []. rewrite app_nil_r.
  repeat split; [apply Hf|constructor|cbn; lia..].
Qed.

Section engine_calls.
Variable GENERATION_IS_ACTIVE : Z → bool.
Variable GENERATION_NUMBER : Z → Z.
Variable sizeof_SarHandleQueueResponse : Z.

Local Abbreviation updateHandles :=
  (updateNotificationHandles sizeof_SarHandleQueueResponse).
Local Abbreviation refresh :=
  (refresh_handles GENERATION_NUMBER sizeof_SarHandleQueueResponse).
Local Abbreviation endpoint_step :=
  (tick_endpoint GENERATION_IS_ACTIVE GENERATION_NUMBER
     sizeof_SarHandleQueueResponse).
Local Abbreviation run_tick :=
  (tick GENERATION_IS_ACTIVE GENERATION_NUMBER sizeof_SarHandleQueueResponse).

Lemma processNotificationHandleUpdate_adds responses s i :
  adds 0 0 s (processNotificationHandleUpdate responses s i).
Proof.
  unfold processNotificationHandleUpdate.
  destruct (negb _) eqn:E.
  - eapply (adds_trans 0 0 0 0); [|by apply adds_update].
    apply (adds_call (CloseHandle _)). cbn.
    apply negb_true_iff, Z.eqb_neq in E. exact E.
  - by apply adds_update.
Qed.

Lemma processNotificationHandleUpdates_adds responses updateCount s :
  adds 0 0 s (processNotificationHandleUpdates responses updateCount s).
Proof.
  unfold processNotificationHandleUpdates.
  generalize (seq 0 (Z.to_nat updateCount)). intros l. revert s.
  induction l as [|i l IH]; intros s; cbn; [apply adds_refl|].
  eapply (adds_trans 0 0 0 0); [apply processNotificationHandleUpdate_adds|].
  apply IH.
Qed.

(** What follows the decision to start a new operation. *)
Lemma wait_request_adds env s :
  let s1 := call (DeviceIoControl (_device (client s)) SAR_WAIT_HANDLE_QUEUE) s in
  let s2 :=
    if waitStatus env then
      update (set_handleQueueStarted false)
        (processNotificationHandleUpdates (waitResponses env)
           (int (waitInternalHigh env / sizeof_SarHandleQueueResponse)) s1)
    else s1 in
  adds 1 0 s
    (if negb (waitError env =? ERROR_IO_PENDING)
     then update (set_handleQueueStarted false) s2 else s2).
Proof.
  intros s1 s2.
  assert (H1 : adds 1 0 s s1)
    by (by apply (adds_call (DeviceIoControl _ SAR_WAIT_HANDLE_QUEUE))).
  assert (H2 : adds 1 0 s s2).
  { unfold s2. destruct (waitStatus env); [|exact H1].
    eapply (adds_trans 1 0 0 0); [exact H1|].
    eapply (adds_trans 0 0 0 0); [apply processNotificationHandleUpdates_adds|].
    by apply adds_update. }
  destruct (negb _); [|exact H2].
  eapply (adds_trans 1 0 0 0); [exact H2|]. by apply adds_update.
Qed.

Lemma updateNotificationHandles_adds env s : adds 1 1 s (updateHandles env s).
Proof.
  unfold updateNotificationHandles.
  destruct (_handleQueueStarted (client s)).
  - set (s0 := call (GetQueuedCompletionStatus _) s).
    assert (H0 : adds 0 1 s s0) by (by apply (adds_call (GetQueuedCompletionStatus _))).
    destruct (completion env) as [bytes|[]]; cbn [negb].
    + eapply (adds_trans 0 1 1 0); [exact H0|].
      eapply (adds_trans 0 0 1 0);
        [apply processNotificationHandleUpdates_adds|].
      apply wait_request_adds.
    + eapply (adds_trans 0 1 1 0); [exact H0|]. apply wait_request_adds.
    + apply (adds_weaken 0 1); [exact H0|lia..].
  - cbn [negb].
    eapply (adds_trans 0 0 1 1);
      [by apply (adds_update (set_handleQueueStarted true))|].
    eapply (adds_weaken 1 0); [apply wait_request_adds|lia..].
Qed.

Lemma refresh_handles_adds env st i :
  ∃ w, adds w w (session st) (session (refresh env st i)) ∧
       (w + refresh_budget (refresh env st i) <= refresh_budget st)%nat.
Proof.
  unfold refresh_handles, refresh_budget.
  destruct (hasUpdatedNotificationHandles st) eqn:Hu; cbn [negb andb].
  { rewrite Hu. exists 0%nat. split; [apply adds_refl|lia]. }
  destruct (negb _ && negb _); cbn.
  - exists 1%nat. split; [apply updateNotificationHandles_adds|lia].
  - rewrite Hu. exists 0%nat. split; [apply adds_refl|lia].
Qed.

Lemma set_asioBuffers_adds b i (v : list (option buffer)) s :
  adds 0 0 s (update (set_asioBuffers b i v) s).
Proof. by apply adds_update. Qed.

(** The calls of one iteration of the endpoint loop. *)
Lemma endpoint_step_adds env b st i st' :
  endpoint_step env b st i = Ok st' →
  ∃ w, adds w w (session st) (session st') ∧
       (w + refresh_budget st' <= refresh_budget st)%nat.
Proof.
  intros H.
  destruct (endpoint_step_result GENERATION_IS_ACTIVE GENERATION_NUMBER
              sizeof_SarHandleQueueResponse env b st i)
    as (silent1 & copied & silent2 & _ & _ & _ & _ & _ & E).
  rewrite E in H. clear E. injection H as <-.
  destruct (refresh_handles_adds env st i) as (w & Hw & Hb).
  set (st1 := refresh env st i) in *.
  exists w.
  assert (Hset : ∀ v, adds w w (session st)
                        (update (set_asioBuffers b i v) (session st1))).
  { intros v. replace w with (w + 0)%nat by lia.
    eapply adds_trans; [exact Hw|apply set_asioBuffers_adds]. }
  destruct (silence_path _ _ _); [split; [apply Hset|exact Hb]|].
  cbv zeta.
  destruct (generation_changed _ _ _ _ _).
  { split; [|exact Hb]. replace w with (w + 0)%nat by lia.
    eapply adds_trans; [apply (Hset (fst copied))|apply set_asioBuffers_adds]. }
  destruct (crossing_due _ _); [destruct (handle_current _ _ _ _) eqn:Hc|].
  - split; [|exact Hb]. replace w with (w + 0)%nat by lia.
    eapply adds_trans; [apply (Hset (fst copied))|].
    apply (adds_call (SetEvent _)). cbn.
    unfold handle_current in Hc. apply andb_true_iff in Hc as [Hc _].
    apply negb_true_iff, Z.eqb_neq in Hc. exact Hc.
  - split; [|exact Hb]. replace w with (w + 0)%nat by lia.
    eapply adds_trans; [apply (Hset (fst copied))|apply set_asioBuffers_adds].
  - split; [apply Hset|exact Hb].
Qed.

Lemma loop_adds env b (range : list nat) :
  ∀ st st', for_each (endpoint_step env b) range st = Ok st' →
    ∃ w, adds w w (session st) (session st') ∧
         (w + refresh_budget st' <= refresh_budget st)%nat.
Proof.
  induction range as [|i range IH]; intros st st' H; cbn in H.
  - injection H as <-. exists 0%nat. split; [apply adds_refl|lia].
  - apply bind_Ok in H as (st1 & H1 & H2).
    apply endpoint_step_adds in H1 as (w1 & A1 & B1).
    apply IH in H2 as (w2 & A2 & B2).
    exists (w1 + w2)%nat. split; [by eapply adds_trans|lia].
Qed.

(** The calls of a whole [tick] on an engine with registers: the format
    change request when the flag is set, then calls of the endpoint loop. *)
Lemma tick_calls env b s m s' m' :
  _registers (client s) ≠ nullptr →
  run_tick env b s m = Ok (s', m') →
  ∃ rest,
    calls s'
    = calls s
      ++ (if _updateSampleRateOnTick (client s)
          then [DeviceIoControl (_device (client s)) SAR_SEND_FORMAT_CHANGE_EVENT]
          else [])
      ++ rest ∧
    _updateSampleRateOnTick (client s') = false ∧
    Forall loop_call rest ∧
    (count_calls is_wait_request rest <= 1)%nat ∧
    (count_calls is_poll rest <= 1)%nat.
Proof.
  intros Hregs E. unfold tick, tick_until in E.
  destruct (_registers (client s) =? nullptr) eqn:En;
    [by apply Z.eqb_eq in En|].
  apply bind_Ok in E as (st & Est & [= <- <-]).
  apply loop_adds in Est as (w & (rest & Ec & Ef & Ha & Hw & Hp) & Hb).
  exists rest. unfold tick_begin in Ec, Ef, Hb. cbn in Ec, Ef, Hb.
  unfold refresh_budget in Hb. cbn in Hb.
  split; [|split; [|split; [exact Ha|split; lia]]].
  - rewrite Ec. destruct (_updateSampleRateOnTick (client s)); cbn.
    + by rewrite <- app_assoc.
    + reflexivity.
  - rewrite Ef. by destruct (_updateSampleRateOnTick (client s)) eqn:Hf.
Qed.

(** X11. [tick] consumes the format change flag.  On an engine with
    registers, when the flag is set the first call of the tick is the
    request [SAR_SEND_FORMAT_CHANGE_EVENT] to the device; whether it was set
    or not, the request is not made again during the tick, and the flag is
    clear when [tick] returns. *)
Theorem tick_consumes_format_change env b s m :
  _registers (client s) ≠ nullptr →
  ∃ s' m' rest,
    run_tick env b s m = Ok (s', m') ∧
    calls s'
    = calls s
      ++ (if _updateSampleRateOnTick (client s)
          then [DeviceIoControl (_device (client s)) SAR_SEND_FORMAT_CHANGE_EVENT]
          else [])
      ++ rest ∧
    (∀ d, DeviceIoControl d SAR_SEND_FORMAT_CHANGE_EVENT ∉ rest) ∧
    _updateSampleRateOnTick (client s') = false.
Proof.
  intros Hregs.
  destruct (tick_result GENERATION_IS_ACTIVE GENERATION_NUMBER
              sizeof_SarHandleQueueResponse env b s m) as (s' & m' & E & _).
  destruct (tick_calls env b s m s' m' Hregs E) as (rest & Ec & Ef & Ha & _).
  exists s', m', rest. split; [exact E|]. split; [exact Ec|].
  split; [|exact Ef].
  intros d Hd. by apply (proj1 (Forall_forall _ _) Ha) in Hd.
Qed.

(** X12. The handles are refreshed at most once in a tick: among the calls a
    [tick] adds there is at most one poll of the completion port and at most
    one request [SAR_WAIT_HANDLE_QUEUE], however many endpoints ask for a
    refresh. *)
Theorem tick_refreshes_at_most_once env b s m :
  ∃ s' m' new,
    run_tick env b s m = Ok (s', m') ∧
    calls s' = calls s ++ new ∧
    (count_calls is_poll new <= 1)%nat ∧
    (count_calls is_wait_request new <= 1)%nat.
Proof.
  destruct (tick_result GENERATION_IS_ACTIVE GENERATION_NUMBER
              sizeof_SarHandleQueueResponse env b s m) as (s' & m' & E & _).
  destruct (decide (_registers (client s) = nullptr)) as [Hnull|Hregs].
  { exists s', m', []. split; [exact E|].
    unfold tick in E. rewrite Hnull in E. cbn in E. injection E as <- <-.
    rewrite app_nil_r. repeat split; cbn; lia. }
  destruct (tick_calls env b s m s' m' Hregs E) as (rest & Ec & _ & _ & Hw & Hp).
  eexists s', m', _. split; [exact E|]. split; [exact Ec|].
  rewrite !count_calls_app.
  destruct (_updateSampleRateOnTick (client s)); cbn; split; lia.
Qed.

(** X13. [tick] makes no call but these: the format change request, the
    poll of the completion port, the request for handles, [CloseHandle] and
    [SetEvent]; and it never signals, nor closes, a null handle. *)
Theorem tick_makes_engine_calls_only env b s m :
  ∃ s' m' new,
    run_tick env b s m = Ok (s', m') ∧
    calls s' = calls s ++ new ∧
    Forall (λ e, is_format_change e = true ∨ loop_call e) new.
Proof.
  destruct (tick_result GENERATION_IS_ACTIVE GENERATION_NUMBER
              sizeof_SarHandleQueueResponse env b s m) as (s' & m' & E & _).
  destruct (decide (_registers (client s) = nullptr)) as [Hnull|Hregs].
  { exists s', m', []. split; [exact E|].
    unfold tick in E. rewrite Hnull in E. cbn in E. injection E as <- <-.
    rewrite app_nil_r. by split. }
  destruct (tick_calls env b s m s' m' Hregs E) as (rest & Ec & _ & Ha & _).
  eexists s', m', _. split; [exact E|]. split; [exact Ec|].
  apply Forall_app. split.
  - destruct (_updateSampleRateOnTick (client s)); repeat constructor.
  - eapply Forall_impl; [exact Ha|]. intros e He. by right.
Qed.
End engine_calls.

Lemma tick_consumes_format_change_witness :
  ∃ s' m' rest,
    tick generation_is_active generation_number 16 quiet 0
      (update (set_updateSampleRateOnTick true) (studio handle_77))
      (studio_memory g_active 1) = Ok (s', m') ∧
    calls s' = [] ++ [DeviceIoControl 5 SAR_SEND_FORMAT_CHANGE_EVENT] ++ rest ∧
    (∀ d, DeviceIoControl d SAR_SEND_FORMAT_CHANGE_EVENT ∉ rest) ∧
    _updateSampleRateOnTick (client s') = false.
Proof.
  apply (tick_consumes_format_change generation_is_active generation_number 16
           quiet 0%nat
           (update (set_updateSampleRateOnTick true) (studio handle_77))
           (studio_memory g_active 1)).
  vm_compute. discriminate.
Defined.

(** ** The notification handles *)

Lemma processNotificationHandleUpdates_responses
    (responses : list SarHandleQueueResponse) (updateCount : Z) (s : Session) :
  updateCount <= Z.of_nat (length responses) →
  processNotificationHandleUpdates responses updateCount s
  = foldl apply_response s (take (Z.to_nat updateCount) responses).
Proof.
  intros Hcount. unfold processNotificationHandleUpdates.
  assert (Hk : (Z.to_nat updateCount <= length responses)%nat) by lia.
  revert Hk. generalize (Z.to_nat updateCount). clear Hcount updateCount.
  intros k. revert s. induction k as [|k IH]; intros s Hk.
  - reflexivity.
  - rewrite seq_S, foldl_snoc, IH by lia. cbn [Nat.add].
    destruct (lookup_lt_is_Some_2 responses k ltac:(lia)) as [r Hr].
    rewrite (take_S_r _ _ _ Hr), foldl_snoc.
    unfold processNotificationHandleUpdate.
    by rewrite (list_lookup_total_correct _ _ _ Hr).
Qed.

Lemma apply_response_handles (s : Session) (r : SarHandleQueueResponse) :
  _notificationHandles (client (apply_response s r))
  = <[response_endpoint r := response_entry r]> (_notificationHandles (client s)).
Proof. unfold apply_response. by destruct (negb _). Qed.

Lemma apply_responses_last (ups : list SarHandleQueueResponse) (s : Session) :
  Forall (λ r, (response_endpoint r < length (_notificationHandles (client s)))%nat)
    ups →
  length (_notificationHandles (client (foldl apply_response s ups)))
    = length (_notificationHandles (client s)) ∧
  ∀ e : nat,
    _notificationHandles (client (foldl apply_response s ups)) !! e
    = match last (filter (λ r, response_endpoint r = e) ups) with
      | Some r => Some (response_entry r)
      | None => _notificationHandles (client s) !! e
      end.
Proof.
  induction ups as [|r ups IH] using rev_ind; intros Hin.
  - by split.
  - apply Forall_app in Hin as [Hin Hr]. rewrite Forall_singleton in Hr.
    destruct (IH Hin) as [Hlen Hlook].
    rewrite foldl_snoc, apply_response_handles, length_insert.
    split; [exact Hlen|]. intros e. rewrite filter_app, filter_cons, filter_nil.
    destruct (decide (response_endpoint r = e)) as [<-|Hne].
    + rewrite last_snoc. apply list_lookup_insert_eq. rewrite Hlen. exact Hr.
    + rewrite app_nil_r, list_lookup_insert_ne by done. apply Hlook.
Qed.

(** X14. A batch of handle updates: the last response for an endpoint wins.
    After [processNotificationHandleUpdates] every entry of
    [_notificationHandles] that a response of the batch names holds the
    generation and the handle of the last such response, every other entry
    is as it was, and the array keeps its length. *)
Theorem handle_updates_last_wins (responses : list SarHandleQueueResponse)
    (updateCount : Z) (s : Session) :
  updateCount <= Z.of_nat (length responses) →
  Forall (λ r, (response_endpoint r < length (_notificationHandles (client s)))%nat)
    (take (Z.to_nat updateCount) responses) →
  length (_notificationHandles
            (client (processNotificationHandleUpdates responses updateCount s)))
    = length (_notificationHandles (client s)) ∧
  ∀ e : nat,
    _notificationHandles
      (client (processNotificationHandleUpdates responses updateCount s)) !! e
    = match last (filter (λ r, response_endpoint r = e)
                    (take (Z.to_nat updateCount) responses)) with
      | Some r => Some (response_entry r)
      | None => _notificationHandles (client s) !! e
      end.
Proof.
  intros Hcount Hin.
  rewrite processNotificationHandleUpdates_responses by exact Hcount.
  by apply apply_responses_last.
Qed.

Lemma handle_updates_last_wins_witness :
  length (_notificationHandles
            (client (processNotificationHandleUpdates
                       [ {| responseHandle := 77; associatedData := 2 ^ 31 + 15 |};
                         {| responseHandle := 78; associatedData := 2 ^ 31 + 16 |} ]
                       2 (studio no_handle))))
    = 1%nat ∧
  ∀ e : nat,
    _notificationHandles
      (client (processNotificationHandleUpdates
                 [ {| responseHandle := 77; associatedData := 2 ^ 31 + 15 |};
                   {| responseHandle := 78; associatedData := 2 ^ 31 + 16 |} ]
                 2 (studio no_handle))) !! e
    = match last (filter (λ r, response_endpoint r = e)
                    [ {| responseHandle := 77; associatedData := 2 ^ 31 + 15 |};
                      {| responseHandle := 78; associatedData := 2 ^ 31 + 16 |} ])
      with
      | Some r => Some (response_entry r)
      | None => no_handle !! e
      end.
Proof.
  apply (handle_updates_last_wins
           [ {| responseHandle := 77; associatedData := 2 ^ 31 + 15 |};
             {| responseHandle := 78; associatedData := 2 ^ 31 + 16 |} ]
           2 (studio no_handle)).
  - cbn. lia.
  - repeat constructor.
Defined.

Lemma held_app (l1 l2 : list NotificationHandle) :
  held (l1 ++ l2) = held l1 ++ held l2.
Proof. unfold held. by rewrite fmap_app, filter_app. Qed.

Lemma held_cons (x : NotificationHandle) (l : list NotificationHandle) :
  held (x :: l) = held [x] ++ held l.
Proof. apply (held_app [x] l). Qed.

Lemma held_insert (handles : list NotificationHandle) (i : nat)
    (old x : NotificationHandle) :
  handles !! i = Some old →
  held [old] ++ held (<[i := x]> handles) ≡ₚ held handles ++ held [x].
Proof.
  intros Hold.
  assert (Hi : (i < length handles)%nat) by (by eapply lookup_lt_Some).
  pose proof (insert_take_drop handles i x Hi) as Eins.
  pose proof (take_drop_middle handles i old Hold) as E.
  set (pre := take i handles) in *. set (post := drop (S i) handles) in *.
  rewrite Eins, <- E, !held_app, (held_cons old post), (held_cons x post).
  rewrite (Permutation_app_swap_app (held [old]) (held pre)).
  rewrite <- !app_assoc. do 2 f_equiv. apply Permutation_app_comm.
Qed.

(** One update: what it closes and what it stores. *)
Lemma apply_response_conserves (s : Session) (r : SarHandleQueueResponse) :
  (response_endpoint r < length (_notificationHandles (client s)))%nat →
  ∃ cl,
    calls (apply_response s r) = calls s ++ (CloseHandle <$> cl) ∧
    cl ++ held (_notificationHandles (client (apply_response s r)))
    ≡ₚ held (_notificationHandles (client s)) ++ held [response_entry r].
Proof.
  intros Hin. rewrite apply_response_handles.
  destruct (lookup_lt_is_Some_2 _ _ Hin) as [old Hold].
  exists (held [old]). split; [|by apply held_insert].
  unfold apply_response. rewrite (list_lookup_total_correct _ _ _ Hold).
  unfold held. cbn [fmap list_fmap]. rewrite filter_cons, filter_nil.
  destruct (decide (handle old ≠ nullptr)) as [Hne|Heq].
  - apply Z.eqb_neq in Hne. rewrite Hne. reflexivity.
  - apply dec_stable in Heq. apply Z.eqb_eq in Heq. rewrite Heq. cbn.
    by rewrite app_nil_r.
Qed.

Lemma apply_responses_conserve (ups : list SarHandleQueueResponse) :
  ∀ s : Session,
    Forall (λ r, (response_endpoint r < length (_notificationHandles (client s)))%nat)
      ups →
    ∃ cl,
      calls (foldl apply_response s ups) = calls s ++ (CloseHandle <$> cl) ∧
      cl ++ held (_notificationHandles (client (foldl apply_response s ups)))
      ≡ₚ held (_notificationHandles (client s)) ++ held (response_entry <$> ups).
Proof.
  induction ups as [|r ups IH]; intros s Hin.
  - exists []. cbn. by rewrite !app_nil_r.
  - apply Forall_cons in Hin as [Hr Hin]. cbn [foldl].
    destruct (apply_response_conserves s r Hr) as (c1 & E1 & P1).
    destruct (IH (apply_response s r)) as (c2 & E2 & P2).
    { by rewrite apply_response_handles, length_insert. }
    exists (c1 ++ c2). split.
    + by rewrite E2, E1, fmap_app, app_assoc.
    + rewrite fmap_cons, (held_cons (response_entry r)).
      rewrite <- app_assoc, P2, !app_assoc, P1. reflexivity.
Qed.

(** X15. A batch of handle updates loses no handle and closes none twice.
    The calls [processNotificationHandleUpdates] makes are [CloseHandle]
    calls only, and the handles it closes together with the handles the
    array holds afterwards are, up to order, the handles the array held
    before together with the handles the responses brought; null handles
    are neither held nor closed. *)
Theorem handle_updates_conserve_handles
    (responses : list SarHandleQueueResponse) (updateCount : Z) (s : Session) :
  updateCount <= Z.of_nat (length responses) →
  Forall (λ r, (response_endpoint r < length (_notificationHandles (client s)))%nat)
    (take (Z.to_nat updateCount) responses) →
  ∃ cl,
    calls (processNotificationHandleUpdates responses updateCount s)
    = calls s ++ (CloseHandle <$> cl) ∧
    cl ++ held (_notificationHandles
                  (client (processNotificationHandleUpdates responses updateCount s)))
    ≡ₚ held (_notificationHandles (client s))
       ++ held (response_entry <$> take (Z.to_nat updateCount) responses).
Proof.
  intros Hcount Hin.
  rewrite processNotificationHandleUpdates_responses by exact Hcount.
  by apply apply_responses_conserve.
Qed.

Lemma handle_updates_conserve_handles_witness :
  ∃ cl,
    calls (processNotificationHandleUpdates
             [ {| responseHandle := 78; associatedData := 2 ^ 31 + 16 |} ]
             1 (studio handle_77))
    = [] ++ (CloseHandle <$> cl) ∧
    cl ++ held (_notificationHandles
                  (client (processNotificationHandleUpdates
                             [ {| responseHandle := 78;
                                  associatedData := 2 ^ 31 + 16 |} ]
                             1 (studio handle_77))))
    ≡ₚ held handle_77
       ++ held (response_entry <$>
                  [ {| responseHandle := 78; associatedData := 2 ^ 31 + 16 |} ]).
Proof.
  apply (handle_updates_conserve_handles
           [ {| responseHandle := 78; associatedData := 2 ^ 31 + 16 |} ]
           1 (studio handle_77)).
  - cbn. lia.
  - repeat constructor.
Defined.

Lemma processNotificationHandleUpdates_fields responses updateCount s :
  _handleQueueStarted
    (client (processNotificationHandleUpdates responses updateCount s))
  = _handleQueueStarted (client s) ∧
  _device (client (processNotificationHandleUpdates responses updateCount s))
  = _device (client s).
Proof.
  unfold processNotificationHandleUpdates.
  generalize (seq 0 (Z.to_nat updateCount)). intros l. revert s.
  induction l as [|i l IH]; intros s; cbn [foldl]; [by split|].
  destruct (IH (processNotificationHandleUpdate responses s i)) as [-> ->].
  unfold processNotificationHandleUpdate. by destruct (negb _).
Qed.

Section handle_queue.
Variable sizeof_SarHandleQueueResponse : Z.

Local Abbreviation updateHandles :=
  (updateNotificationHandles sizeof_SarHandleQueueResponse).

(** The request for handles and what follows it, lines 443-462. *)
Lemma wait_request_calls env s :
  _handleQueueStarted (client s) = true →
  let s1 := call (DeviceIoControl (_device (client s)) SAR_WAIT_HANDLE_QUEUE) s in
  let s2 :=
    if waitStatus env then
      update (set_handleQueueStarted false)
        (processNotificationHandleUpdates (waitResponses env)
           (int (waitInternalHigh env / sizeof_SarHandleQueueResponse)) s1)
    else s1 in
  let s3 :=
    if negb (waitError env =? ERROR_IO_PENDING)
    then update (set_handleQueueStarted false) s2 else s2 in
  (∃ after,
     calls s3
     = calls s ++ DeviceIoControl (_device (client s)) SAR_WAIT_HANDLE_QUEUE :: after ∧
     count_calls is_wait_request after = 0%nat) ∧
  _handleQueueStarted (client s3)
  = negb (waitStatus env) && (waitError env =? ERROR_IO_PENDING).
Proof.
  intros Hstarted s1 s2 s3.
  assert (H2 : (∃ after,
                  calls s2 = calls s1 ++ after ∧
                  count_calls is_wait_request after = 0%nat) ∧
               _handleQueueStarted (client s2) = negb (waitStatus env)).
  { unfold s2. destruct (waitStatus env); cbn [negb].
    - split; [|reflexivity]. cbn [calls update].
      destruct (processNotificationHandleUpdates_adds (waitResponses env)
                  (int (waitInternalHigh env / sizeof_SarHandleQueueResponse)) s1)
        as (new & E & _ & _ & Hw & _).
      exists new. split; [exact E|lia].
    - split; [|exact Hstarted]. exists []. by rewrite app_nil_r. }
  destruct H2 as [(after & E & Hw) Hf].
  assert (E3 : calls s3 = calls s2 ∧
               _handleQueueStarted (client s3)
               = _handleQueueStarted (client s2) &&
                 (waitError env =? ERROR_IO_PENDING)).
  { unfold s3. destruct (waitError env =? ERROR_IO_PENDING); cbn [negb].
    - by rewrite andb_true_r.
    - by rewrite andb_false_r. }
  destruct E3 as [-> ->]. rewrite Hf. split; [|reflexivity].
  exists after. split; [|exact Hw]. rewrite E. unfold s1. cbn.
  by rewrite <- app_assoc.
Qed.

(** X16. One request for handles at a time.  While the earlier request is
    outstanding and the poll finds nothing, [updateNotificationHandles] only
    polls: it makes no request and changes nothing else.  In every other
    case it makes exactly one request [SAR_WAIT_HANDLE_QUEUE], and
    [_handleQueueStarted] is then set exactly when that request did not
    complete at once and is pending. *)
Theorem updateNotificationHandles_one_request env s :
  if still_pending env s then
    updateHandles env s
    = call (GetQueuedCompletionStatus (_completionPort (client s))) s
  else
    (∃ before after,
       calls (updateHandles env s)
       = calls s ++ before
         ++ DeviceIoControl (_device (client s)) SAR_WAIT_HANDLE_QUEUE :: after ∧
       count_calls is_wait_request (before ++ after) = 0%nat) ∧
    _handleQueueStarted (client (updateHandles env s))
    = negb (waitStatus env) && (waitError env =? ERROR_IO_PENDING).
Proof.
  unfold still_pending, updateNotificationHandles.
  destruct (_handleQueueStarted (client s)) eqn:Hs; cbn [andb].
  - set (s0 := call (GetQueuedCompletionStatus (_completionPort (client s))) s).
    destruct (completion env) as [bytes|[]]; cbn [negb]; [| |reflexivity].
    + set (s1 := processNotificationHandleUpdates _ _ s0).
      destruct (processNotificationHandleUpdates_fields (completedResponses env)
                  (int (DWORD bytes / sizeof_SarHandleQueueResponse)) s0)
        as [Hf Hd]. fold s1 in Hf, Hd.
      destruct (processNotificationHandleUpdates_adds (completedResponses env)
                  (int (DWORD bytes / sizeof_SarHandleQueueResponse)) s0)
        as (new & E & _ & _ & Hw & _). fold s1 in E.
      assert (Hw' : count_calls is_wait_request new = 0%nat) by lia.
      destruct (wait_request_calls env s1) as [(after & Ea & Ha) Hflag];
        [by rewrite Hf|].
      cbv zeta in Ea, Hflag. split; [|exact Hflag].
      exists ([GetQueuedCompletionStatus (_completionPort (client s))] ++ new),
        after.
      split.
      * rewrite Ea, E, Hd. cbn. by rewrite <- !app_assoc.
      * rewrite !count_calls_app, Hw', Ha. reflexivity.
    + destruct (wait_request_calls env s0) as [(after & Ea & Ha) Hflag];
        [exact Hs|].
      cbv zeta in Ea, Hflag. split; [|exact Hflag].
      exists [GetQueuedCompletionStatus (_completionPort (client s))], after.
      rewrite Ea. cbn. rewrite <- !app_assoc. split; [reflexivity|exact Ha].
  - cbn [negb].
    destruct (wait_request_calls env (update (set_handleQueueStarted true) s))
      as [(after & Ea & Ha) Hflag]; [reflexivity|].
    cbv zeta in Ea, Hflag. split; [|exact Hflag].
    exists [], after. split; [exact Ea|exact Ha].
Qed.
End handle_queue.

(** ** The bootstrap *)

Lemma openControlDevice_success (env : BootEnv) (s : Session) :
  fst (openControlDevice env s) = true →
  createdFile env ≠ INVALID_HANDLE_VALUE ∧ createdPort env ≠ nullptr ∧
  client (snd (openControlDevice env s))
  = set_notificationHandles
      (replicate (length (endpoints (_driverConfig (client s)))) inhabitant)
      (set_completionPort (createdPort env)
         (set_device (createdFile env) (client s))).
Proof.
  destruct s as [[] tr]. unfold openControlDevice, update, call. cbn.
  branches; decide_tests; cbn; try discriminate. intros _. by repeat split.
Qed.

Lemma openMmNotificationClient_success (env : BootEnv) (s : Session) :
  fst (openMmNotificationClient env s) = true →
  ∃ e n,
    enumeratorInstance env = Some e ∧ clientInstance env = Some n ∧
    client (snd (openMmNotificationClient env s))
    = set_mmNotificationClientRegistered true
        (set_mmNotificationClient n (set_mmEnumerator e (client s))).
Proof.
  destruct s as [[] tr]. unfold openMmNotificationClient, update, call. cbn.
  destruct (enumeratorInstance env) as [e|]; [|discriminate].
  destruct (clientInstance env) as [n|]; [|discriminate].
  destruct (registerCallback env); [|discriminate]. cbn. intros _.
  by exists e, n.
Qed.

Lemma setBufferLayout_success (env : BootEnv) (s : Session) :
  fst (setBufferLayout env s) = true →
  ∃ response,
    layoutResponse env = Some response ∧
    client (snd (setBufferLayout env s))
    = set_mapping (virtualAddress response + registerBase response)
        (virtualAddress response) (actualSize response) (client s).
Proof.
  unfold setBufferLayout. destruct (layoutResponse env) as [r|]; [|discriminate].
  intros _. by exists r.
Qed.

(** [start] returns true only when the four steps did, and then the engine
    object is this. *)
Lemma start_success (env : BootEnv) (s : Session) :
  fst (start env s) = true →
  ∃ e n response,
    enumeratorInstance env = Some e ∧ clientInstance env = Some n ∧
    layoutResponse env = Some response ∧
    createdFile env ≠ INVALID_HANDLE_VALUE ∧ createdPort env ≠ nullptr ∧
    client (snd (start env s))
    = started_client (client s) (createdFile env) (createdPort env) e n response.
Proof.
  intros Hok.
  destruct (fst (openControlDevice env s)) eqn:H1.
  2:{ unfold start in Hok. destruct (openControlDevice env s) as [ok1 s1].
      cbn in H1. subst ok1. discriminate. }
  rewrite (start_after_control_device env s H1) in Hok |- *. cbv zeta in *.
  destruct (openControlDevice_success env s H1) as (Hfile & Hport & E1).
  set (s1 := snd (openControlDevice env s)) in *.
  destruct (fst (openMmNotificationClient env s1)) eqn:H2; [|discriminate].
  destruct (openMmNotificationClient_success env s1 H2) as (e & n & He & Hn & E2).
  set (s2 := snd (openMmNotificationClient env s1)) in *.
  destruct (fst (setBufferLayout env s2)) eqn:H3; [|discriminate].
  destruct (setBufferLayout_success env s2 H3) as (response & Hr & E3).
  set (s3 := snd (setBufferLayout env s2)) in *.
  pose proof (createEndpoints_from_client env
                (endpoints (_driverConfig (client s3))) 0 s3) as E4.
  fold (createEndpoints env s3) in E4.
  destruct (fst (createEndpoints env s3)) eqn:H4; [|discriminate].
  cbn [negb] in *.
  exists e, n, response. repeat split; try assumption.
  assert (Hc : client (snd (if enableApplicationRouting
                                 (_driverConfig (client (snd (createEndpoints env s3))))
                            then (true, snd (enableRegistryFilter env
                                               (snd (createEndpoints env s3))))
                            else (true, snd (createEndpoints env s3))))
               = client s3).
  { destruct (enableApplicationRouting _); cbn; exact E4. }
  rewrite Hc, E3, E2, E1. destruct (client s). reflexivity.
Qed.

(** X17. What a successful [start] establishes.  [start] returns true only
    if none of the four bootstrap steps failed, and the engine object then
    holds the device and the completion port as they were opened, both
    valid, the registered notification client, the mapping of the layout
    response with the registers at [virtualAddress + registerBase], and one
    empty notification handle per configured endpoint; the configuration is
    the one it was constructed with. *)
Theorem start_establishes_session (env : BootEnv) (s : Session) :
  fst (start env s) = true →
  first_failure env s = None ∧
  ∃ e n response,
    enumeratorInstance env = Some e ∧ clientInstance env = Some n ∧
    layoutResponse env = Some response ∧
    createdFile env ≠ INVALID_HANDLE_VALUE ∧ createdPort env ≠ nullptr ∧
    client (snd (start env s))
    = started_client (client s) (createdFile env) (createdPort env) e n response.
Proof.
  intros Hok. split; [|by apply start_success].
  unfold first_failure.
  destruct (fst (openControlDevice env s)) eqn:H1.
  2:{ unfold start in Hok. destruct (openControlDevice env s) as [ok1 s1].
      cbn in H1. subst ok1. discriminate. }
  rewrite (start_after_control_device env s H1) in Hok. cbv zeta in Hok. cbn [negb].
  destruct (fst (openMmNotificationClient env _)); [|discriminate]. cbn [negb] in *.
  destruct (fst (setBufferLayout env _)); [|discriminate]. cbn [negb] in *.
  destruct (fst (createEndpoints env _)); [|discriminate]. reflexivity.
Qed.

Lemma start_establishes_session_witness :
  first_failure boot_ok fresh_session = None ∧
  ∃ e n response,
    enumeratorInstance boot_ok = Some e ∧ clientInstance boot_ok = Some n ∧
    layoutResponse boot_ok = Some response ∧
    createdFile boot_ok ≠ INVALID_HANDLE_VALUE ∧ createdPort boot_ok ≠ nullptr ∧
    client (snd (start boot_ok fresh_session))
    = started_client fresh_client (createdFile boot_ok) (createdPort boot_ok)
        e n response.
Proof.
  apply (start_establishes_session boot_ok fresh_session). reflexivity.
Defined.

(** The calls of [stop], in their order. *)
Lemma stop_calls (s : Session) :
  calls (stop s)
  = calls s
    ++ (if _mmNotificationClientRegistered (client s)
        then [UnregisterEndpointNotificationCallback
                (_mmEnumerator (client s)) (_mmNotificationClient (client s))]
        else [])
    ++ (if _mmNotificationClient (client s) =? nullptr then []
        else [Release (_mmNotificationClient (client s))])
    ++ (if _device (client s) =? INVALID_HANDLE_VALUE then []
        else [CancelIoEx (_device (client s)); CloseHandle (_device (client s))])
    ++ (if _completionPort (client s) =? nullptr then []
        else [CloseHandle (_completionPort (client s))]).
Proof.
  destruct s as [[] tr]. unfold stop, update, call. cbn.
  branches; cbn; rewrite <- ?app_assoc; cbn; by rewrite ?app_nil_r.
Qed.

(** X18. [stop] after a successful [start] releases what [start] acquired,
    each thing once and in this order: the notification callback is
    unregistered, the notification client released, the pending requests on
    the device cancelled, the device closed, the completion port closed; and
    the engine object is torn down, with no mapping left. *)
Theorem stop_after_start (env : BootEnv) (s : Session) (e n : Z) :
  fst (start env s) = true →
  enumeratorInstance env = Some e → clientInstance env = Some n →
  n ≠ nullptr →
  calls (stop (snd (start env s)))
  = calls (snd (start env s))
    ++ [ UnregisterEndpointNotificationCallback e n; Release n;
         CancelIoEx (createdFile env); CloseHandle (createdFile env);
         CloseHandle (createdPort env) ] ∧
  released (client (stop (snd (start env s)))).
Proof.
  intros Hok He Hn Hnn.
  destruct (start_success env s Hok)
    as (e' & n' & response & He' & Hn' & _ & Hfile & Hport & E).
  rewrite He in He'. injection He' as <-. rewrite Hn in Hn'. injection Hn' as <-.
  split.
  2:{ apply stop_releases. rewrite E. exact Hfile. }
  rewrite stop_calls, E. cbn [started_client _mmNotificationClientRegistered
    _mmEnumerator _mmNotificationClient _device _completionPort].
  apply Z.eqb_neq in Hnn, Hfile, Hport. by rewrite Hnn, Hfile, Hport.
Qed.

Lemma stop_after_start_witness :
  calls (stop (snd (start boot_ok fresh_session)))
  = calls (snd (start boot_ok fresh_session))
    ++ [ UnregisterEndpointNotificationCallback 7 8; Release 8;
         CancelIoEx 5; CloseHandle 5; CloseHandle 6 ] ∧
  released (client (stop (snd (start boot_ok fresh_session)))).
Proof.
  apply (stop_after_start boot_ok fresh_session 7 8); [reflexivity..|].
  vm_compute. discriminate.
Defined.

Lemma createEndpoints_from_requests (env : BootEnv) (rest : list EndpointConfig) :
  ∀ (i : nat) (s : Session),
    ∃ k : nat,
      (k <= length rest)%nat ∧
      calls (snd (createEndpoints_from env i rest s))
      = calls s ++ imap (λ j e, create_endpoint_call (_device (client s)) (i + j) e)
                     (take k rest) ∧
      (∀ j : nat, (S j < k)%nat → createEndpoint env (i + j) = true) ∧
      if fst (createEndpoints_from env i rest s)
      then k = length rest ∧
           ∀ j : nat, (j < length rest)%nat → createEndpoint env (i + j) = true
      else (0 < k)%nat ∧ createEndpoint env (i + (k - 1)) = false.
Proof.
  induction rest as [|e rest IH]; intros i s; cbn [createEndpoints_from].
  - exists 0%nat. cbn. rewrite app_nil_r. repeat split; lia.
  - destruct (createEndpoint env i) eqn:Hi; cbn [negb].
    + destruct (IH (S i)
                  (call (create_endpoint_call (_device (client s)) i e) s))
        as (k & Hk & Ec & Hbefore & Hres).
      exists (S k). cbn [length]. split; [lia|]. split.
      { unfold create_endpoint_call in Ec at 1. rewrite Ec.
        cbn [take]. rewrite imap_cons, Nat.add_0_r. cbn [calls call client].
        rewrite <- app_assoc. do 2 f_equal.
        apply imap_ext. intros j x _. cbn. f_equal. lia. }
      split.
      { intros [|j] Hj; [by rewrite Nat.add_0_r|].
        replace (i + S j)%nat with (S i + j)%nat by lia. apply Hbefore. lia. }
      unfold create_endpoint_call in Hres.
      destruct (fst (createEndpoints_from env (S i) rest _)).
      * destruct Hres as [-> Hall]. split; [reflexivity|].
        intros [|j] Hj; [by rewrite Nat.add_0_r|].
        replace (i + S j)%nat with (S i + j)%nat by lia. apply Hall. lia.
      * destruct Hres as [Hpos Hfail]. split; [lia|].
        replace (i + (S k - 1))%nat with (S i + (k - 1))%nat by lia. exact Hfail.
    + exists 1%nat. cbn. rewrite !Nat.add_0_r. repeat split; try lia.
      exact Hi.
Qed.

(** X19. [createEndpoints] asks the driver for the endpoints in their
    order and gives up at the first refusal.  The calls it makes are the
    requests [SAR_CREATE_ENDPOINT] for the first [k] endpoints of the
    configuration, in that order, the request for endpoint [j] with index
    [j] and with the type, channel count, name and identifier of that
    endpoint; every endpoint before the last of them was accepted; it
    returns true exactly when [k] is the number of endpoints and none is
    refused, and false with the last request refused otherwise.  The engine
    object is not changed. *)
Theorem createEndpoints_requests (env : BootEnv) (s : Session) :
  ∃ k : nat,
    (k <= length (endpoints (_driverConfig (client s))))%nat ∧
    calls (snd (createEndpoints env s))
    = calls s
      ++ imap (λ j endpoint,
                 DeviceIoControl (_device (client s))
                   (SAR_CREATE_ENDPOINT
                      {| request_type :=
                           match type endpoint with
                           | Playback => SAR_ENDPOINT_TYPE_PLAYBACK
                           | Recording => SAR_ENDPOINT_TYPE_RECORDING
                           end;
                         request_index := int (Z.of_nat j);
                         request_channelCount := channelCount endpoint;
                         request_name := description endpoint;
                         request_id := endpointId endpoint |}))
           (take k (endpoints (_driverConfig (client s)))) ∧
    client (snd (createEndpoints env s)) = client s ∧
    (∀ j : nat, (S j < k)%nat → createEndpoint env j = true) ∧
    if fst (createEndpoints env s)
    then k = length (endpoints (_driverConfig (client s))) ∧
         ∀ j : nat, (j < k)%nat → createEndpoint env j = true
    else (0 < k)%nat ∧ createEndpoint env (k - 1) = false.
Proof.
  unfold createEndpoints.
  destruct (createEndpoints_from_requests env
              (endpoints (_driverConfig (client s))) 0 s)
    as (k & Hk & Ec & Hbefore & Hres).
  exists k. split; [exact Hk|]. split; [exact Ec|].
  split; [apply createEndpoints_from_client|]. split; [exact Hbefore|].
  destruct (fst _).
  - destruct Hres as [-> Hall]. by split.
  - exact Hres.
Qed.

(** A configuration of two endpoints, the second of which the driver
    refuses: both requests are made, in order, and the result is false. *)
Example createEndpoints_second_refused :
  let loopback :=
    {| endpointId := "in"; description := "Loopback"; type := Recording;
       channelCount := 4 |} in
  let s :=
    update (λ c, {| _driverConfig :=
                      {| endpoints := endpoints (_driverConfig c) ++ [loopback];
                         enableApplicationRouting := false;
                         waveRtMinimumFrames := 0 |};
                    _bufferConfig := _bufferConfig c; _device := 5;
                    _completionPort := 6;
                    _handleQueueStarted := false; _mmEnumerator := 7;
                    _mmNotificationClient := 8;
                    _mmNotificationClientRegistered := true;
                    _registers := 0; _sharedBuffer := 0; _sharedBufferSize := 0;
                    _notificationHandles := [];
                    _updateSampleRateOnTick := false |}) fresh_session in
  let env :=
    {| classDevs := true; enumInterfaces := true;
       detailSizeError := ERROR_INSUFFICIENT_BUFFER; interfaceDetail := true;
       createdFile := 5; createdPort := 6;
       enumeratorInstance := Some 7; clientInstance := Some 8;
       registerCallback := true; layoutResponse := None;
       createEndpoint := λ j, bool_decide (j = 0%nat);
       registryFilter := true |} in
  createEndpoints env s
  = (false,
     call (DeviceIoControl 5
             (SAR_CREATE_ENDPOINT
                {| request_type := SAR_ENDPOINT_TYPE_RECORDING;
                   request_index := 1; request_channelCount := 4;
                   request_name := "Loopback"; request_id := "in" |}))
       (call (DeviceIoControl 5
                (SAR_CREATE_ENDPOINT
                   {| request_type := SAR_ENDPOINT_TYPE_PLAYBACK;
                      request_index := 0; request_channelCount := 2;
                      request_name := "Speakers"; request_id := "out" |})) s)).
Proof. reflexivity. Qed.

(** X20. [openControlDevice] destroys the device information set it got,
    once, on every path: it asks for the set once, and it calls
    [SetupDiDestroyDeviceInfoList] exactly once when it got one and never
    when it did not, whichever later step fails or succeeds. *)
Theorem openControlDevice_destroys_device_list (env : BootEnv) (s : Session) :
  ∃ new,
    calls (snd (openControlDevice env s)) = calls s ++ new ∧
    count_calls is_class_devs new = 1%nat ∧
    count_calls is_destroy_list new = (if classDevs env then 1 else 0)%nat.
Proof.
  destruct s as [c tr]. unfold openControlDevice, update, call. cbn.
  destruct (classDevs env); cbn;
    [|eexists; split; [reflexivity|by split]].
  branches; cbn; rewrite <- ?app_assoc; cbn;
    (eexists; split; [reflexivity|by split]).
Qed.

(** X21. When the completion port cannot be created, [openControlDevice]
    closes the device it had opened and leaves [_device] null, which is not
    [INVALID_HANDLE_VALUE]; [start] returns false without [stop], and a
    [stop] made later cancels and closes the null handle, its last two
    calls. *)
Theorem stop_after_failed_port (env : BootEnv) (s : Session) :
  classDevs env = true → enumInterfaces env = true →
  detailSizeError env = ERROR_INSUFFICIENT_BUFFER → interfaceDetail env = true →
  createdFile env ≠ INVALID_HANDLE_VALUE → createdPort env = nullptr →
  start env s = (false, snd (openControlDevice env s)) ∧
  _device (client (snd (start env s))) = nullptr ∧
  (∃ before,
     calls (snd (start env s))
     = calls s ++ before ++ [CloseHandle (createdFile env)]) ∧
  ∃ middle,
    calls (stop (snd (start env s)))
    = calls (snd (start env s)) ++ middle
      ++ [CancelIoEx nullptr; CloseHandle nullptr].
Proof.
  intros H1 H2 H3 H4 H5 H6.
  assert (E : openControlDevice env s
              = (false,
                 update (set_device nullptr)
                   (call (CloseHandle (createdFile env))
                      (update (set_completionPort nullptr)
                         (call (CreateIoCompletionPort (createdFile env))
                            (update (set_device (createdFile env))
                               (call CreateFile
                                  (call SetupDiDestroyDeviceInfoList
                                     (call SetupDiGetDeviceInterfaceDetail
                                        (call SetupDiGetDeviceInterfaceDetail
                                           (call SetupDiEnumDeviceInterfaces
                                              (call SetupDiGetClassDevs s)))))))))))).
  { unfold openControlDevice. rewrite H1, H2, H3, H4, H6. cbn.
    apply Z.eqb_neq in H5. rewrite H5. reflexivity. }
  assert (Es : start env s = (false, snd (openControlDevice env s))).
  { unfold start. rewrite E. reflexivity. }
  rewrite Es. cbn [snd]. split; [reflexivity|]. rewrite E. cbn [snd].
  split; [reflexivity|]. split.
  - exists [SetupDiGetClassDevs; SetupDiEnumDeviceInterfaces;
            SetupDiGetDeviceInterfaceDetail; SetupDiGetDeviceInterfaceDetail;
            SetupDiDestroyDeviceInfoList; CreateFile;
            CreateIoCompletionPort (createdFile env)].
    cbn. by rewrite <- !app_assoc.
  - set (s1 := update (set_device nullptr) _).
    assert (Hc : client s1
                 = set_device nullptr
                     (set_completionPort nullptr
                        (set_device (createdFile env) (client s))))
      by reflexivity.
    rewrite stop_calls, Hc. clearbody s1. destruct (client s). cbn.
    eexists. f_equal. rewrite app_assoc. reflexivity.
Qed.

Lemma stop_after_failed_port_witness :
  start boot_no_port fresh_session
    = (false, snd (openControlDevice boot_no_port fresh_session)) ∧
  _device (client (snd (start boot_no_port fresh_session))) = nullptr ∧
  (∃ before,
     calls (snd (start boot_no_port fresh_session))
     = calls fresh_session ++ before ++ [CloseHandle (createdFile boot_no_port)]) ∧
  ∃ middle,
    calls (stop (snd (start boot_no_port fresh_session)))
    = calls (snd (start boot_no_port fresh_session)) ++ middle
      ++ [CancelIoEx nullptr; CloseHandle nullptr].
Proof.
  apply (stop_after_failed_port boot_no_port fresh_session);
    try reflexivity. vm_compute. discriminate.
Defined.

(** X22. [OnDeviceStateChanged] always answers [S_OK].  For a state other
    than active, or when the engine object is gone, it makes no call at all.
    Otherwise it initialises COM once and uninitialises it once, whichever
    request fails, and it asks the engine for a sample rate update, once,
    exactly when the enumerator, the device, its property store and the
    endpoint id property could all be had; the property value is cleared
    exactly then. *)
Theorem OnDeviceStateChanged_requests (env : DeviceEnv) (dwNewState : Z) :
  fst (OnDeviceStateChanged env dwNewState) = S_OK ∧
  (dwNewState ≠ DEVICE_STATE_ACTIVE ∨ clientAlive env = false →
   snd (OnDeviceStateChanged env dwNewState) = []) ∧
  (dwNewState = DEVICE_STATE_ACTIVE → clientAlive env = true →
   com_count CoInitialize (snd (OnDeviceStateChanged env dwNewState)) = 1%nat ∧
   com_count CoUninitialize (snd (OnDeviceStateChanged env dwNewState)) = 1%nat ∧
   last (snd (OnDeviceStateChanged env dwNewState)) = Some CoUninitialize) ∧
  com_count UpdateSampleRateOnTick (snd (OnDeviceStateChanged env dwNewState))
  = (if (dwNewState =? DEVICE_STATE_ACTIVE) && clientAlive env &&
        enumeratorCreated env && deviceFound env && storeOpened env &&
        endpointIdRead env
     then 1%nat else 0%nat) ∧
  com_count PropVariantClear (snd (OnDeviceStateChanged env dwNewState))
  = com_count UpdateSampleRateOnTick (snd (OnDeviceStateChanged env dwNewState)).
Proof.
  unfold OnDeviceStateChanged, query_endpoint.
  destruct (dwNewState =? DEVICE_STATE_ACTIVE) eqn:E;
    [apply Z.eqb_eq in E|apply Z.eqb_neq in E];
    destruct env as [[] [] [] [] []]; cbn;
    repeat split; try reflexivity; try congruence;
    intros; try congruence; try (by destruct H); repeat split; reflexivity.
Qed.

(** ** The copy of a period *)

Section period.
Variables (c : SarClient) (r : SarEndpointRegisters) (ring : buffer).
Hypothesis Hcopy : copyable c r ring.

Local Abbreviation F := (periodFrameSize (_bufferConfig c)).
Local Abbreviation s := (sampleSize (_bufferConfig c)).
Local Abbreviation n := (activeChannelCount r).
Local Abbreviation size := (bufferSize r).
Local Abbreviation pos := (positionRegister r).
Local Abbreviation off := (bufferOffset r).
Local Abbreviation chunk := (F * s * n).
Local Abbreviation firstSize := (Z.min chunk (size - pos)).

Lemma period_bounds :
  0 < s * n ∧ 0 < F * s ∧ 0 < chunk ∧ F * s <= chunk ∧ chunk < 2 ^ 32 ∧
  F * s < 2 ^ 32 ∧ size < 2 ^ 32 ∧ off < 2 ^ 32 ∧ pos + off < 2 ^ 32.
Proof.
  destruct Hcopy as [HF Hs Hn Hstride Hpos Hoff Hring Hmap _ Hper _].
  assert (0 < s * n) by lia. assert (0 < F * s) by lia.
  assert (F * s <= chunk) by nia. repeat split; nia.
Qed.

(** The values [tick] computes from the registers, without the casts. *)
Lemma period_values :
  hostPeriodBytes (_bufferConfig c) = F * s ∧
  int s = s ∧ int (DWORD n) = n ∧
  frameChunkSizeOf (hostPeriodBytes (_bufferConfig c)) (DWORD n) = chunk ∧
  DWORD (DWORD pos + DWORD off) = pos + off ∧
  DWORD off = off ∧
  DWORD (DWORD size - DWORD pos) = size - pos ∧
  DWORD (chunk - firstSize) = chunk - firstSize.
Proof.
  pose proof period_bounds as (HS & HFs & Hc & Hle & Hc32 & HFs32 & Hsz & Ho & Hpo).
  destruct Hcopy as [HF Hs Hn Hstride Hpos Hoff Hring Hmap _ Hper _].
  unfold hostPeriodBytes, frameChunkSizeOf.
  rewrite !int_small by lia. rewrite !(DWORD_small n) by lia.
  rewrite (int_small n) by lia.
  rewrite (DWORD_small (F * s)) by lia.
  rewrite (DWORD_small pos), (DWORD_small off), (DWORD_small size) by lia.
  repeat split; apply DWORD_small; lia.
Qed.

Lemma period_not_silent (GENERATION_IS_ACTIVE : Z → bool) :
  GENERATION_IS_ACTIVE (DWORD (generation r)) = true →
  silence_path GENERATION_IS_ACTIVE c r = false.
Proof.
  intros Hactive.
  pose proof period_bounds as (HS & HFs & Hc & Hle & Hc32 & HFs32 & Hsz & Ho & Hpo).
  destruct Hcopy as [HF Hs Hn Hstride Hpos Hoff Hring Hmap _ Hper _].
  unfold silence_path. rewrite Hactive. cbn [negb orb].
  rewrite (DWORD_small size), (DWORD_small pos), (DWORD_small off),
    (DWORD_small (_sharedBufferSize c)), (DWORD_small (off + size)) by lia.
  repeat (apply orb_false_iff; split);
    [apply Z.eqb_neq|apply Z.ltb_ge|apply Z.ltb_ge]; lia.
Qed.

Lemma period_split : ring_split ring (pos + off) firstSize off (chunk - firstSize).
Proof.
  pose proof period_bounds as (HS & HFs & Hc & Hle & Hc32 & HFs32 & Hsz & Ho & Hpo).
  destruct Hcopy as [HF Hs Hn Hstride Hpos Hoff Hring Hmap Hthere Hper _].
  unfold ring_split. repeat split; lia.
Qed.

Lemma period_capacity :
  sufficient_capacity firstSize (chunk - firstSize) (s * n) F.
Proof.
  pose proof period_bounds as (HS & HFs & Hc & Hle & Hc32 & HFs32 & Hsz & Ho & Hpo).
  destruct Hcopy as [HF Hs Hn Hstride Hpos Hoff Hring Hmap Hthere Hper Halign].
  unfold sufficient_capacity.
  destruct (Z.le_gt_cases chunk (size - pos)) as [Hle'|Hgt].
  - left. rewrite Z.min_l by lia. lia.
  - right. rewrite Z.min_r by lia.
    apply Z.mod_divide in Halign; [|lia]. destruct Halign as [k Hk].
    exists k. split; [nia|]. split; [exact Hk|]. nia.
Qed.

(** The frames of the period follow the ring round. *)
Lemma period_frames (m : Z) :
  0 <= m < F →
  frame_base (pos + off) firstSize off (s * n) m
  = ring_position off size pos (s * n) m.
Proof.
  intros Hm.
  pose proof period_bounds as (HS & HFs & Hc & Hle & Hc32 & HFs32 & Hsz & Ho & Hpo).
  destruct Hcopy as [HF Hs Hn Hstride Hpos Hoff Hring Hmap Hthere Hper Halign].
  unfold frame_base, ring_position.
  assert (Hms : (m + 1) * (s * n) <= chunk) by nia.
  assert (Hm0 : 0 <= m * (s * n)) by nia.
  destruct (Z.le_gt_cases chunk (size - pos)) as [Hle'|Hgt].
  - rewrite Z.min_l by lia.
    replace (chunk / (s * n)) with F by (apply Z.div_unique_exact; lia).
    destruct (m <? F) eqn:E; [|apply Z.ltb_ge in E; lia].
    rewrite Z.mod_small by lia. lia.
  - rewrite Z.min_r by lia.
    apply Z.mod_divide in Halign; [|lia]. destruct Halign as [k Hk].
    rewrite Hk, Z.div_mul by lia.
    destruct (m <? k) eqn:E; [apply Z.ltb_lt in E|apply Z.ltb_ge in E].
    + pose proof (mul_le_r (m + 1) k (s * n) ltac:(lia) ltac:(lia)) as Hmk.
      rewrite Z.mod_small by lia. lia.
    + pose proof (mul_le_r 0 (m - k) (s * n) ltac:(lia) ltac:(lia)) as Hmk.
      assert (Hd : (m - k) * (s * n) = m * (s * n) - k * (s * n)) by ring.
      replace (pos + m * (s * n)) with ((pos + m * (s * n) - size) + 1 * size)
        by lia.
      rewrite Z_mod_plus_full, Z.mod_small by lia. lia.
Qed.

(** The copy of a playback endpoint is this call of [demux]. *)
Lemma copy_endpoint_playback (endpoint : EndpointConfig)
    (bufs : list (option buffer)) :
  type endpoint = Playback →
  copy_endpoint c endpoint r bufs ring
  = (bufs' <- demux ring (pos + off) firstSize off (chunk - firstSize) bufs
                (int (Z.of_nat (length bufs))) n (F * s) s ;;
     Ok (bufs', ring)).
Proof.
  intros Hplay.
  destruct period_values as (E1 & E2 & E3 & E4 & E5 & E6 & E7 & E8).
  unfold copy_endpoint. cbv zeta. rewrite Hplay.
  rewrite E4, E1, E2, E3, E5, E6, E7, E8. reflexivity.
Qed.

(** The copy of a recording endpoint is this call of [mux]. *)
Lemma copy_endpoint_recording (endpoint : EndpointConfig)
    (bufs : list (option buffer)) :
  type endpoint = Recording →
  copy_endpoint c endpoint r bufs ring
  = (ring' <- mux ring (pos + off) firstSize off (chunk - firstSize) bufs
                (int (Z.of_nat (length bufs))) n (F * s) s ;;
     Ok (bufs, ring')).
Proof.
  intros Hrec.
  destruct period_values as (E1 & E2 & E3 & E4 & E5 & E6 & E7 & E8).
  unfold copy_endpoint. cbv zeta. rewrite Hrec.
  rewrite E4, E1, E2, E3, E5, E6, E7, E8. reflexivity.
Qed.

(** What the copy of a playback endpoint delivers. *)
Lemma copy_endpoint_delivers (endpoint : EndpointConfig)
    (bufs : list (option buffer)) :
  type endpoint = Playback → Z.of_nat (length bufs) < 2 ^ 31 →
  ∃ bufs',
    copy_endpoint c endpoint r bufs ring = Ok (bufs', ring) ∧
    ∀ (ch : nat) (tb : buffer),
      Z.of_nat ch < n → bufs !! ch = Some (Some tb) →
      Z.of_nat (length tb) = F * s →
      ∃ tb',
        bufs' !! ch = Some (Some tb') ∧ length tb' = length tb ∧
        ∀ m, 0 <= m < F →
             load tb' (m * s) s
             = load ring (ring_position off size pos (s * n) m + s * Z.of_nat ch) s.
Proof.
  intros Hplay Hlen. rewrite (copy_endpoint_playback endpoint bufs Hplay).
  rewrite int_small by lia.
  destruct Hcopy as [HF Hs Hn Hstride _ _ _ _ _ _ _].
  pose proof period_bounds as (_ & _ & _ & _ & _ & HFs32 & _).
  destruct (demux_frames ring (pos + off) firstSize off (chunk - firstSize) s n F
              bufs (Z.of_nat (length bufs)) ltac:(lia) ltac:(lia) ltac:(lia)
              Hstride ltac:(lia) period_split period_capacity)
    as (bufs' & E & Hframes).
  exists bufs'. rewrite E. split; [reflexivity|].
  intros ch tb Hch Htb Htbl.
  destruct (Hframes ch tb) as (tb' & E' & Hl & Hload); try assumption.
  { apply lookup_lt_Some in Htb. lia. }
  exists tb'. split; [exact E'|]. split; [exact Hl|].
  intros m Hm. rewrite Hload by exact Hm. unfold sample_at.
  by rewrite period_frames.
Qed.

(** What the copy of a recording endpoint puts into the ring. *)
Lemma copy_endpoint_captures (endpoint : EndpointConfig) (blocks : list buffer) :
  type endpoint = Recording →
  Z.of_nat (length blocks) = n →
  Forall (λ blk, Z.of_nat (length blk) = F * s) blocks →
  ∃ ring',
    copy_endpoint c endpoint r (Some <$> blocks) ring
      = Ok (Some <$> blocks, ring') ∧
    length ring' = length ring ∧
    (∀ (ch : nat) blk k,
       blocks !! ch = Some blk → 0 <= k < F →
       load ring' (ring_position off size pos (s * n) k + s * Z.of_nat ch) s
       = load blk (k * s) s) ∧
    ∀ q len,
      0 <= q → 0 <= len → q + len <= off ∨ off + size <= q →
      load ring' q len = load ring q len.
Proof.
  intros Hrec Hcount Hsizes.
  rewrite (copy_endpoint_recording endpoint _ Hrec).
  pose proof period_bounds as (HS & HFs & Hc & Hle & Hc32 & HFs32 & Hsz & Ho & Hpo).
  pose proof Hcopy as [HF Hs Hn Hstride Hpos Hoff Hring Hmap Hthere Hper Halign].
  rewrite length_fmap, Hcount, int_small by lia.
  assert (Hne : blocks ≠ []).
  { intros ->. cbn in Hcount. lia. }
  pose proof period_split as Hsplit. pose proof period_capacity as Hcap.
  destruct (mux_ring ring (pos + off) firstSize off (chunk - firstSize) s n F
              blocks ltac:(lia) ltac:(lia) ltac:(lia) Hstride ltac:(lia)
              Hsplit Hcap Hsizes Hcount)
    as (ring' & E & Hlen & Hload & _).
  assert (Hcap' : sufficient_capacity firstSize (chunk - firstSize)
                    (s * Z.of_nat (length blocks)) F)
    by (rewrite Hcount; exact Hcap).
  destruct (mux_ring_outside ring (pos + off) firstSize off (chunk - firstSize) s F
              blocks ltac:(lia) ltac:(lia) Hne ltac:(by rewrite Hcount)
              ltac:(lia) Hsplit Hcap' Hsizes)
    as (ring'' & E'' & _ & Hout).
  rewrite Hcount in E''. rewrite E in E''. injection E'' as <-.
  exists ring'. rewrite E. split; [reflexivity|]. split; [exact Hlen|]. split.
  - intros ch blk k Hblk Hk. rewrite <- (Hload ch blk k Hblk Hk).
    unfold sample_at. by rewrite period_frames.
  - intros q len Hq Hl Hapart. apply Hout; [assumption..| |]; lia.
Qed.
End period.

Lemma copy_endpoint_kept (s s' : Session) endpoint r (bufs : list (option buffer))
    ring :
  session_kept s s' →
  copy_endpoint (client s') endpoint r bufs ring
  = copy_endpoint (client s) endpoint r bufs ring.
Proof.
  intros Hk. pose proof (hostPeriodBytes_kept _ _ Hk) as Hh.
  destruct Hk as (_ & _ & Hs & _). unfold copy_endpoint. by rewrite Hh, Hs.
Qed.

Section engine_path.
Variable GENERATION_IS_ACTIVE : Z → bool.
Variable GENERATION_NUMBER : Z → Z.
Variable sizeof_SarHandleQueueResponse : Z.

Local Abbreviation refresh :=
  (refresh_handles GENERATION_NUMBER sizeof_SarHandleQueueResponse).
Local Abbreviation silent_path := (silence_path GENERATION_IS_ACTIVE).
Local Abbreviation endpoint_step :=
  (tick_endpoint GENERATION_IS_ACTIVE GENERATION_NUMBER
     sizeof_SarHandleQueueResponse).
Local Abbreviation run_tick :=
  (tick GENERATION_IS_ACTIVE GENERATION_NUMBER sizeof_SarHandleQueueResponse).

(** An iteration that does not take the silence path leaves the host
    buffers of its endpoint as the copy made them, or silenced; as the copy
    made them when the generation is found unchanged and no notification is
    due. *)
Lemma endpoint_step_copies env b st i st' :
  endpoint_step env b st i = Ok st' →
  silent_path (client (session st)) (registers (memory st) !!! i) = false →
  let c := client (session st) in
  let r := registers (memory st) !!! i in
  let old := endpointBuffers c b i in
  ∃ copied silent,
    copy_endpoint c (endpoints (_driverConfig c) !!! i) r old
      (sharedBuffer (memory st)) = Ok copied ∧
    shape silent = shape old ∧
    (Z.of_nat (length old) < 2 ^ 31 →
     silenced (hostPeriodBytes (_bufferConfig c)) old silent) ∧
    (endpointBuffers (client (session st')) b i = fst copied ∨
     endpointBuffers (client (session st')) b i = silent) ∧
    sharedBuffer (memory st') = snd copied ∧
    (generation_changed GENERATION_IS_ACTIVE GENERATION_NUMBER r
       (driver_store (driverGeneration env) i (registers (memory st))) i
     = false →
     crossing_due c r = false →
     endpointBuffers (client (session st')) b i = fst copied).
Proof.
  intros H Hsil c r old. unfold tick_endpoint in H. rewrite Hsil in H.
  destruct (refresh_handles_kept GENERATION_NUMBER sizeof_SarHandleQueueResponse
              env st i) as [Hkr Hmem].
  set (st1 := refresh env st i) in *.
  apply bind_Ok in H as (copied & Ec & H). rewrite Hmem in Ec.
  destruct (copy_endpoint_returns c (endpoints (_driverConfig c) !!! i)
              r old (sharedBuffer (memory st)))
    as (copied' & Ec' & Hsc).
  fold c r old in Ec. rewrite Ec in Ec'. injection Ec' as <-.
  destruct (publish_result GENERATION_IS_ACTIVE GENERATION_NUMBER b i c
              r (fst copied) (copied_state env b i copied st1))
    as (silent & Hs & Hsilenced & Ep).
  unfold copied_state in Ep. fold c r in H. rewrite Ep in H. clear Ep.
  injection H as <-.
  exists copied, silent. split; [exact Ec|].
  split; [rewrite Hs; exact Hsc|]. split.
  { intros Hlen. eapply silenced_shape; [exact Hsc|]. apply Hsilenced.
    by rewrite (shape_length _ _ Hsc). }
  pose proof (session_frame_refresh b i _ _ Hkr) as Hf1.
  destruct (session_frame_set b i _ _ (fst copied) Hf1 Hsc) as [Hf2 Hc2].
  destruct (session_frame_set b i _ _ silent Hf2 ltac:(rewrite Hs; exact Hsc))
    as [_ Hc3].
  cbn [memory registers with_registers with_session with_sharedBuffer].
  rewrite Hmem.
  destruct (generation_changed _ _ _ _ _).
  { split; [right; exact Hc3|]. split; [reflexivity|]. discriminate. }
  destruct (crossing_due _ _); [destruct (handle_current _ _ _ _)|].
  - split; [left; exact Hc2|]. split; [reflexivity|]. intros _ [=].
  - split; [right; exact Hc3|]. split; [reflexivity|]. intros _ [=].
  - split; [left; exact Hc2|]. split; [reflexivity|]. intros _ _. exact Hc2.
Qed.

(** Playback endpoints leave the ring to the iterations after them. *)
Lemma loop_keeps_ring env b (range : list nat) (s : Session) st st' :
  session_kept s (session st) →
  (∀ j e, j ∈ range → endpoints (_driverConfig (client s)) !! j = Some e →
          type e = Playback) →
  (∀ j, j ∈ range → (j < length (endpoints (_driverConfig (client s))))%nat) →
  for_each (endpoint_step env b) range st = Ok st' →
  sharedBuffer (memory st') = sharedBuffer (memory st).
Proof.
  intros Hk Hplay Hin E.
  apply (for_each_keeps
           (λ a, session_kept s (session a) ∧
                 sharedBuffer (memory a) = sharedBuffer (memory st))) in E;
    [apply E| |by split].
  intros a j a' Hj [Hka Hring] Ea. split.
  - eapply session_kept_trans; [exact Hka|].
    by apply (endpoint_step_frame GENERATION_IS_ACTIVE GENERATION_NUMBER
                sizeof_SarHandleQueueResponse) in Ea as (? & _).
  - rewrite <- Hring.
    eapply (endpoint_step_playback GENERATION_IS_ACTIVE GENERATION_NUMBER
              sizeof_SarHandleQueueResponse); [|exact Ea].
    destruct Hka as (-> & _).
    destruct (lookup_lt_is_Some_2 _ _ (Hin j Hj)) as [e He].
    rewrite (list_lookup_total_correct _ _ _ He). by eapply Hplay.
Qed.

(** X23. [tick] delivers the period of a playback endpoint.  Take an engine
    with registers, an endpoint [i] that is for playback as are the
    endpoints before it, whose generation is active and whose registers
    describe a period the ring holds whole ([copyable]).  Then [tick]
    returns, and the host buffers of the endpoint are silenced or hold the
    period ([holds_period]): in every block of a channel below the active
    channel count, sample [k] is the sample of that channel in the frame at
    ring position [(positionRegister + k * stride) mod bufferSize], read
    from the shared buffer as it was when [tick] began.  They hold the
    period whenever the generation read again after the copy is active and
    of the same number, and no notification is due in this cycle. *)
Theorem tick_delivers_playback env b s m (i : nat) :
  _registers (client s) ≠ nullptr →
  (i < length (endpoints (_driverConfig (client s))))%nat →
  (∀ (j : nat) e, (j <= i)%nat →
     endpoints (_driverConfig (client s)) !! j = Some e → type e = Playback) →
  copyable (client s) (registers m !!! i) (sharedBuffer m) →
  GENERATION_IS_ACTIVE (DWORD (generation (registers m !!! i))) = true →
  Z.of_nat (length (endpointBuffers (client s) b i)) < 2 ^ 31 →
  ∃ s' m',
    run_tick env b s m = Ok (s', m') ∧
    (silenced (hostPeriodBytes (_bufferConfig (client s)))
       (endpointBuffers (client s) b i) (endpointBuffers (client s') b i) ∨
     holds_period (client s) (registers m !!! i) (sharedBuffer m)
       (endpointBuffers (client s) b i) (endpointBuffers (client s') b i)) ∧
    (generation_changed GENERATION_IS_ACTIVE GENERATION_NUMBER
       (registers m !!! i)
       (driver_store (driverGeneration env) i (registers m)) i = false →
     crossing_due (client s) (registers m !!! i) = false →
     holds_period (client s) (registers m !!! i) (sharedBuffer m)
       (endpointBuffers (client s) b i) (endpointBuffers (client s') b i)).
Proof.
  intros Hregs Hi Hplay Hcopy Hactive Hlen.
  destruct (tick_split GENERATION_IS_ACTIVE GENERATION_NUMBER
              sizeof_SarHandleQueueResponse env b s m
              (length (endpoints (_driverConfig (client s)))) i Hi)
    as (st_i & st_i' & st_n & E1 & E2 & E3 & Hk1 & Hb1 & Hr1 & _ & Hu3 & _).
  exists (session st_n), (memory st_n). split.
  { unfold tick. destruct (_registers (client s) =? nullptr) eqn:En;
      [by apply Z.eqb_eq in En|].
    by rewrite E3. }
  rewrite Hu3.
  destruct (tick_begin_frame s m) as [[Hkb _] Hm].
  assert (Hring : sharedBuffer (memory st_i) = sharedBuffer m).
  { unfold tick_until in E1.
    rewrite (loop_keeps_ring env b (seq 0 i) s (tick_begin s m) st_i Hkb);
      [by rewrite Hm| | |exact E1].
    - intros j e Hj. apply elem_of_seq in Hj. apply Hplay. lia.
    - intros j Hj. apply elem_of_seq in Hj. lia. }
  pose proof (lookup_total_eq _ _ _ Hr1) as Hr.
  destruct (endpoint_step_copies env b st_i i st_i' E2)
    as (copied & silent & Ec & Hs & Hsil & Hor & _ & Hpub).
  { rewrite Hr, (silence_path_kept GENERATION_IS_ACTIVE _ _ _ Hk1).
    by apply (period_not_silent _ _ _ Hcopy). }
  rewrite Hr, Hb1, Hring, (copy_endpoint_kept _ _ _ _ _ _ Hk1) in Ec.
  rewrite Hb1, (hostPeriodBytes_kept _ _ Hk1) in Hsil. rewrite Hb1 in Hs.
  rewrite Hr, (crossing_due_kept _ _ _ Hk1),
    (generation_changed_same GENERATION_IS_ACTIVE GENERATION_NUMBER _
       (driver_store (driverGeneration env) i (registers m)) _ i)
    in Hpub by (by apply driver_store_same).
  destruct Hk1 as (Hcfg & _). rewrite Hcfg in Ec.
  destruct (lookup_lt_is_Some_2 _ _ Hi) as [e He].
  rewrite (list_lookup_total_correct _ _ _ He) in Ec.
  destruct (copy_endpoint_delivers _ _ _ Hcopy e (endpointBuffers (client s) b i)
              (Hplay i e ltac:(lia) He) Hlen) as (bufs' & E' & Hframes).
  rewrite E' in Ec. injection Ec as <-. cbn [fst] in Hor, Hpub.
  split.
  - destruct Hor as [-> | ->]; [right; exact Hframes|left; by apply Hsil].
  - intros Hsame Hquiet. rewrite (Hpub Hsame Hquiet). exact Hframes.
Qed.

(** X24. [tick] captures the period of a recording endpoint.  Take an
    engine with registers and an endpoint [i] for recording, every other
    endpoint being for playback, with an active generation, registers that
    describe a period the ring holds whole ([copyable]) and as many host
    blocks, none null and each of one period, as active channels.  Then
    [tick] returns and the shared buffer holds the period: at ring position
    [(positionRegister + k * stride) mod bufferSize] the samples of frame
    [k], channel by channel.  The shared buffer keeps its size, and what
    lies outside the ring of the endpoint is as it was. *)
Theorem tick_captures_recording env b s m (i : nat) (blocks : list buffer) :
  _registers (client s) ≠ nullptr →
  (i < length (endpoints (_driverConfig (client s))))%nat →
  (∀ (j : nat) e, endpoints (_driverConfig (client s)) !! j = Some e →
     type e = if decide (j = i) then Recording else Playback) →
  copyable (client s) (registers m !!! i) (sharedBuffer m) →
  GENERATION_IS_ACTIVE (DWORD (generation (registers m !!! i))) = true →
  endpointBuffers (client s) b i = Some <$> blocks →
  Z.of_nat (length blocks) = activeChannelCount (registers m !!! i) →
  Forall (λ blk, Z.of_nat (length blk)
                 = periodFrameSize (_bufferConfig (client s))
                   * sampleSize (_bufferConfig (client s))) blocks →
  ∃ s' m',
    run_tick env b s m = Ok (s', m') ∧
    length (sharedBuffer m') = length (sharedBuffer m) ∧
    (∀ (ch : nat) blk k,
       blocks !! ch = Some blk →
       0 <= k < periodFrameSize (_bufferConfig (client s)) →
       load (sharedBuffer m')
         (ring_position (bufferOffset (registers m !!! i))
            (bufferSize (registers m !!! i))
            (positionRegister (registers m !!! i))
            (sampleSize (_bufferConfig (client s))
             * activeChannelCount (registers m !!! i)) k
          + sampleSize (_bufferConfig (client s)) * Z.of_nat ch)
         (sampleSize (_bufferConfig (client s)))
       = load blk (k * sampleSize (_bufferConfig (client s)))
           (sampleSize (_bufferConfig (client s)))) ∧
    ∀ q len,
      0 <= q → 0 <= len →
      q + len <= bufferOffset (registers m !!! i) ∨
      bufferOffset (registers m !!! i) + bufferSize (registers m !!! i) <= q →
      load (sharedBuffer m') q len = load (sharedBuffer m) q len.
Proof.
  intros Hregs Hi Htypes Hcopy Hactive Hbufs Hcount Hsizes.
  set (n := length (endpoints (_driverConfig (client s)))) in *.
  destruct (tick_split GENERATION_IS_ACTIVE GENERATION_NUMBER
              sizeof_SarHandleQueueResponse env b s m n i Hi)
    as (st_i & st_i' & st_n & E1 & E2 & E3 & Hk1 & Hb1 & Hr1 & _).
  exists (session st_n), (memory st_n). split.
  { unfold tick. destruct (_registers (client s) =? nullptr) eqn:En;
      [by apply Z.eqb_eq in En|].
    fold n. by rewrite E3. }
  destruct (tick_begin_frame s m) as [[Hkb _] Hm].
  unfold tick_until in E1, E3.
  assert (Hring : sharedBuffer (memory st_i) = sharedBuffer m).
  { rewrite (loop_keeps_ring env b (seq 0 i) s (tick_begin s m) st_i Hkb);
      [by rewrite Hm| | |exact E1].
    - intros j e Hj He. apply elem_of_seq in Hj.
      rewrite (Htypes j e He). destruct (decide (j = i)); [lia|reflexivity].
    - intros j Hj. apply elem_of_seq in Hj. lia. }
  replace (seq 0 n) with (seq 0 i ++ [i] ++ seq (S i) (n - S i)) in E3.
  2:{ replace n with (i + S (n - S i))%nat at 2 by lia.
      rewrite seq_app. reflexivity. }
  rewrite for_each_app, E1 in E3. cbn [bind app for_each] in E3.
  rewrite E2 in E3. cbn [bind] in E3.
  pose proof (endpoint_step_frame GENERATION_IS_ACTIVE GENERATION_NUMBER
                sizeof_SarHandleQueueResponse _ _ _ _ _ E2) as (Hk2 & _).
  assert (Hring' : sharedBuffer (memory st_n) = sharedBuffer (memory st_i')).
  { apply (loop_keeps_ring env b (seq (S i) (n - S i)) s st_i' st_n);
      [eapply session_kept_trans; [exact Hk1|exact Hk2]| | |exact E3].
    - intros j e Hj He. apply elem_of_seq in Hj.
      rewrite (Htypes j e He). destruct (decide (j = i)); [lia|reflexivity].
    - intros j Hj. apply elem_of_seq in Hj. fold n. lia. }
  pose proof (lookup_total_eq _ _ _ Hr1) as Hr.
  destruct (endpoint_step_copies env b st_i i st_i' E2)
    as (copied & silent & Ec & _ & _ & _ & Hsnd & _).
  { rewrite Hr, (silence_path_kept GENERATION_IS_ACTIVE _ _ _ Hk1).
    by apply (period_not_silent _ _ _ Hcopy). }
  rewrite Hr, Hb1, Hring, (copy_endpoint_kept _ _ _ _ _ _ Hk1) in Ec.
  destruct Hk1 as (Hcfg & _). rewrite Hcfg in Ec.
  destruct (lookup_lt_is_Some_2 _ _ Hi) as [e He].
  rewrite (list_lookup_total_correct _ _ _ He), Hbufs in Ec.
  pose proof (Htypes i e He) as Hrec. rewrite decide_True in Hrec by reflexivity.
  destruct (copy_endpoint_captures _ _ _ Hcopy e blocks Hrec Hcount Hsizes)
    as (ring' & E' & Hlen & Hload & Hout).
  rewrite E' in Ec. injection Ec as <-. cbn [snd] in Hsnd.
  rewrite Hring', Hsnd. by repeat split.
Qed.

Lemma copy_endpoint_recording_buffers c endpoint r (bufs : list (option buffer))
    ring copied :
  type endpoint = Recording →
  copy_endpoint c endpoint r bufs ring = Ok copied → fst copied = bufs.
Proof.
  intros Hrec E. unfold copy_endpoint in E. rewrite Hrec in E.
  by apply bind_Ok in E as (ring' & _ & [= <-]).
Qed.

(** X25. [tick] puts no audio into the host buffers of a recording
    endpoint: when it returns they are as they were, or they are silenced,
    with the same null entries and every block zeroed. *)
Theorem tick_recording_keeps_host_buffers env b s m (i : nat) :
  _registers (client s) ≠ nullptr →
  (i < length (endpoints (_driverConfig (client s))))%nat →
  type (endpoints (_driverConfig (client s)) !!! i) = Recording →
  Z.of_nat (length (endpointBuffers (client s) b i)) < 2 ^ 31 →
  ∃ s' m',
    run_tick env b s m = Ok (s', m') ∧
    (endpointBuffers (client s') b i = endpointBuffers (client s) b i ∨
     silenced (hostPeriodBytes (_bufferConfig (client s)))
       (endpointBuffers (client s) b i) (endpointBuffers (client s') b i)).
Proof.
  intros Hregs Hi Hrec Hlen.
  destruct (tick_split GENERATION_IS_ACTIVE GENERATION_NUMBER
              sizeof_SarHandleQueueResponse env b s m
              (length (endpoints (_driverConfig (client s)))) i Hi)
    as (st_i & st_i' & st_n & E1 & E2 & E3 & Hk1 & Hb1 & Hr1 & _ & Hu3 & _).
  exists (session st_n), (memory st_n). split.
  { unfold tick. destruct (_registers (client s) =? nullptr) eqn:En;
      [by apply Z.eqb_eq in En|].
    by rewrite E3. }
  rewrite Hu3.
  destruct (silent_path (client (session st_i)) (registers (memory st_i) !!! i))
    eqn:Hsil.
  - right. unfold tick_endpoint in E2. rewrite Hsil in E2.
    destruct (refresh_handles_kept GENERATION_NUMBER
                sizeof_SarHandleQueueResponse env st_i i) as [Hkr _].
    destruct (silence_endpoint_returns b i
                (hostPeriodBytes (_bufferConfig (client (session st_i))))
                (endpointBuffers (client (session st_i)) b i)
                (refresh env st_i i)) as (silent & E & Hs & Hsilenced).
    rewrite E in E2. injection E2 as <-.
    destruct (session_frame_set b i _ _ silent
                (session_frame_refresh b i _ _ Hkr) Hs) as [_ Hc].
    cbn [session with_session client update]. rewrite Hc.
    rewrite Hb1, (hostPeriodBytes_kept _ _ Hk1) in Hsilenced.
    by apply Hsilenced.
  - destruct (endpoint_step_copies env b st_i i st_i' E2 Hsil)
      as (copied & silent & Ec & _ & Hsilenced & Hor & _ & _).
    destruct Hk1 as (Hcfg & Hk1). rewrite Hcfg in Ec.
    apply copy_endpoint_recording_buffers in Ec; [|exact Hrec].
    rewrite Hb1 in Ec, Hsilenced.
    assert (Hh : hostPeriodBytes (_bufferConfig (client (session st_i)))
                 = hostPeriodBytes (_bufferConfig (client s))).
    { destruct Hk1 as (H1 & H2 & _). unfold hostPeriodBytes. by rewrite H1, H2. }
    rewrite Hh in Hsilenced.
    destruct Hor as [-> | ->]; [left; exact Ec|right; by apply Hsilenced].
Qed.
End engine_path.

Lemma tick_delivers_playback_witness :
  ∃ s' m',
    tick generation_is_active generation_number 16 quiet 0
      (studio handle_77) (studio_memory g_active 0) = Ok (s', m') ∧
    (silenced 300 [Some (replicate 300 x01); None]
       (endpointBuffers (client s') 0 0) ∨
     holds_period (studio_client handle_77)
       (registers (studio_memory g_active 0) !!! 0%nat) (replicate 1024 x05)
       [Some (replicate 300 x01); None] (endpointBuffers (client s') 0 0)) ∧
    holds_period (studio_client handle_77)
      (registers (studio_memory g_active 0) !!! 0%nat) (replicate 1024 x05)
      [Some (replicate 300 x01); None] (endpointBuffers (client s') 0 0).
Proof.
  destruct (tick_delivers_playback generation_is_active generation_number 16
              quiet 0%nat (studio handle_77) (studio_memory g_active 0) 0%nat)
    as (s' & m' & E & Hor & Hpub).
  - vm_compute. discriminate.
  - cbn. lia.
  - intros j e Hj He. assert (j = 0%nat) as -> by lia.
    cbn in He. by injection He as <-.
  - constructor; by vm_compute.
  - reflexivity.
  - vm_compute. reflexivity.
  - exists s', m'. split; [exact E|]. split; [exact Hor|].
    apply Hpub; reflexivity.
Defined.

Lemma tick_captures_recording_witness :
  ∃ s' m',
    tick generation_is_active generation_number 16 quiet 0
      booth (studio_memory g_active 0) = Ok (s', m') ∧
    length (sharedBuffer m') = 1024%nat ∧
    (∀ (ch : nat) blk k,
       [replicate 300 x01; replicate 300 x02] !! ch = Some blk →
       0 <= k < 75 →
       load (sharedBuffer m')
         (ring_position 0 1024 512 (4 * 2) k + 4 * Z.of_nat ch) 4
       = load blk (k * 4) 4) ∧
    ∀ q len,
      0 <= q → 0 <= len →
      q + len <= 0 ∨ 0 + 1024 <= q →
      load (sharedBuffer m') q len = load (replicate 1024 x05) q len.
Proof.
  apply (tick_captures_recording generation_is_active generation_number 16
           quiet 0%nat booth (studio_memory g_active 0) 0%nat
           [replicate 300 x01; replicate 300 x02]).
  - vm_compute. discriminate.
  - cbn. lia.
  - intros [|j] e He; cbn in He; [by injection He as <-|discriminate].
  - constructor; by vm_compute.
  - reflexivity.
  - reflexivity.
  - reflexivity.
  - repeat constructor.
Defined.

Lemma tick_recording_keeps_host_buffers_witness :
  ∃ s' m',
    tick generation_is_active generation_number 16 quiet 0
      booth (studio_memory g_active 0) = Ok (s', m') ∧
    (endpointBuffers (client s') 0 0
     = [Some (replicate 300 x01); Some (replicate 300 x02)] ∨
     silenced 300 [Some (replicate 300 x01); Some (replicate 300 x02)]
       (endpointBuffers (client s') 0 0)).
Proof.
  apply (tick_recording_keeps_host_buffers generation_is_active
           generation_number 16 quiet 0%nat booth (studio_memory g_active 0)
           0%nat).
  - vm_compute. discriminate.
  - cbn. lia.
  - reflexivity.
  - vm_compute. reflexivity.
Defined.

(** ** Layouts that cannot be used, and refreshes that are not needed *)

Section engine_edges.
Variable GENERATION_IS_ACTIVE : Z → bool.
Variable GENERATION_NUMBER : Z → Z.
Variable sizeof_SarHandleQueueResponse : Z.

Local Abbreviation refresh :=
  (refresh_handles GENERATION_NUMBER sizeof_SarHandleQueueResponse).
Local Abbreviation endpoint_step :=
  (tick_endpoint GENERATION_IS_ACTIVE GENERATION_NUMBER
     sizeof_SarHandleQueueResponse).
Local Abbreviation run_tick :=
  (tick GENERATION_IS_ACTIVE GENERATION_NUMBER sizeof_SarHandleQueueResponse).

Lemma invalid_layout_silent c r :
  invalid_layout c r → silence_path GENERATION_IS_ACTIVE c r = true.
Proof.
  unfold invalid_layout, silence_path. intros [H|[H|H]].
  - apply Z.eqb_eq in H. rewrite H. by rewrite orb_true_r.
  - apply Z.ltb_lt in H. rewrite H. by rewrite orb_true_r.
  - apply Z.ltb_lt in H. rewrite H. by rewrite !orb_true_r.
Qed.

(** X26. An endpoint whose layout registers cannot be used is silenced,
    active or not: when its buffer size is zero, its position lies beyond
    the buffer size, or offset plus size exceed the size of the mapping,
    [tick] zeroes every host buffer of the endpoint and leaves its registers,
    the position with them, as they are. *)
Theorem tick_silences_invalid_layout env b s m (i : nat) :
  _registers (client s) ≠ nullptr →
  (i < length (endpoints (_driverConfig (client s))))%nat →
  invalid_layout (client s) (registers m !!! i) →
  Z.of_nat (length (endpointBuffers (client s) b i)) < 2 ^ 31 →
  ∃ s' m',
    run_tick env b s m = Ok (s', m') ∧
    silenced (hostPeriodBytes (_bufferConfig (client s)))
      (endpointBuffers (client s) b i) (endpointBuffers (client s') b i) ∧
    registers m' !! i = registers m !! i.
Proof.
  intros Hregs Hi Hinv Hlen.
  destruct (tick_at GENERATION_IS_ACTIVE GENERATION_NUMBER
              sizeof_SarHandleQueueResponse env b s m i Hregs Hi)
    as (st_i & s' & m' & silent & copied & _ & E & _ & _ & Hsil & _ & H).
  exists s', m'. split; [exact E|]. cbv zeta in H.
  rewrite (invalid_layout_silent _ _ Hinv) in H. destruct H as [-> ->].
  split; [by apply Hsil|reflexivity].
Qed.

Lemma refresh_not_needed env st (i : nat) :
  DWORD (notificationCount (registers (memory st) !!! i)) = 0 ∨
  GENERATION_NUMBER (DWORD (generation (registers (memory st) !!! i)))
  = GENERATION_NUMBER
      (handleGeneration (_notificationHandles (client (session st)) !!! i)) →
  refresh env st i = st.
Proof.
  unfold refresh_handles. intros [H|H].
  - apply Z.eqb_eq in H. rewrite H. cbn. by rewrite andb_false_r.
  - apply Z.eqb_eq in H. rewrite H. cbn. by rewrite andb_false_r.
Qed.

(** Past the refresh, an iteration leaves the handles and the two flags of
    the refresh alone. *)
Lemma endpoint_step_handles env b st i st' :
  endpoint_step env b st i = Ok st' →
  _notificationHandles (client (session st'))
  = _notificationHandles (client (session (refresh env st i))) ∧
  _handleQueueStarted (client (session st'))
  = _handleQueueStarted (client (session (refresh env st i))) ∧
  hasUpdatedNotificationHandles st'
  = hasUpdatedNotificationHandles (refresh env st i).
Proof.
  intros H.
  destruct (endpoint_step_result GENERATION_IS_ACTIVE GENERATION_NUMBER
              sizeof_SarHandleQueueResponse env b st i)
    as (silent1 & copied & silent2 & _ & _ & _ & _ & _ & E).
  rewrite E in H. clear E. injection H as <-.
  destruct (silence_path _ _ _); [by repeat split|]. cbv zeta.
  destruct (generation_changed _ _ _ _ _); [by repeat split|].
  destruct (crossing_due _ _); [destruct (handle_current _ _ _ _)|];
    by repeat split.
Qed.

(** The endpoint loop while no endpoint needs a refresh. *)
Lemma loop_without_refresh env b s m (n : nat) :
  handles_current GENERATION_NUMBER (_notificationHandles (client s))
    (registers m) n →
  ∀ k : nat, (k <= n)%nat →
    ∃ st new,
      for_each (endpoint_step env b) (seq 0 k) (tick_begin s m) = Ok st ∧
      _notificationHandles (client (session st)) = _notificationHandles (client s) ∧
      _handleQueueStarted (client (session st)) = _handleQueueStarted (client s) ∧
      hasUpdatedNotificationHandles st = false ∧
      calls (session st) = calls (session (tick_begin s m)) ++ new ∧
      count_calls is_poll new = 0%nat ∧
      count_calls is_wait_request new = 0%nat ∧
      ∀ j : nat, (k <= j)%nat → registers (memory st) !! j = registers m !! j.
Proof.
  intros Hcur. induction k as [|k IH]; intros Hk.
  - exists (tick_begin s m), []. cbn [seq for_each]. rewrite app_nil_r.
    repeat split; unfold tick_begin;
      by destruct (_updateSampleRateOnTick (client s)).
  - destruct (IH ltac:(lia)) as (st & new & E & Hh & Hq & Hu & Ec & Hp & Hw & Hr).
    destruct (endpoint_step_returns GENERATION_IS_ACTIVE GENERATION_NUMBER
                sizeof_SarHandleQueueResponse env b st k) as (st' & E').
    assert (Hno : refresh env st k = st).
    { apply refresh_not_needed.
      rewrite (lookup_total_eq (registers m) (registers (memory st)) k
                 (Hr k ltac:(lia))), Hh.
      apply Hcur. lia. }
    destruct (endpoint_step_handles env b st k st' E') as (Hh' & Hq' & Hu').
    rewrite Hno in Hh', Hq', Hu'.
    destruct (endpoint_step_adds GENERATION_IS_ACTIVE GENERATION_NUMBER
                sizeof_SarHandleQueueResponse env b st k st' E')
      as (w & (new' & Ec' & _ & _ & Hw' & Hp') & Hb).
    unfold refresh_budget in Hb. rewrite Hu', Hu in Hb.
    pose proof (endpoint_step_frame GENERATION_IS_ACTIVE GENERATION_NUMBER
                  sizeof_SarHandleQueueResponse env b st k st' E')
      as (_ & Hother & _).
    exists st', (new ++ new'). rewrite seq_S, for_each_app, E.
    cbn [bind for_each Nat.add].
    rewrite E'. cbn [bind].
    split; [reflexivity|]. split; [congruence|]. split; [congruence|].
    split; [congruence|]. split; [by rewrite Ec', Ec, app_assoc|].
    rewrite !count_calls_app. split; [lia|]. split; [lia|].
    intros j Hj. destruct (Hother j ltac:(lia)) as [_ ->]. apply Hr. lia.
Qed.

(** X27. No refresh without need.  When at the start of a tick every
    endpoint has a notification count of zero or a handle of the generation
    number its register holds, [tick] polls no completion port and requests
    no handles, and it leaves the handles and [_handleQueueStarted] as they
    are. *)
Theorem tick_refreshes_only_when_needed env b s m :
  handles_current GENERATION_NUMBER (_notificationHandles (client s))
    (registers m) (length (endpoints (_driverConfig (client s)))) →
  ∃ s' m' new,
    run_tick env b s m = Ok (s', m') ∧
    calls s' = calls s ++ new ∧
    count_calls is_poll new = 0%nat ∧
    count_calls is_wait_request new = 0%nat ∧
    _notificationHandles (client s') = _notificationHandles (client s) ∧
    _handleQueueStarted (client s') = _handleQueueStarted (client s).
Proof.
  intros Hcur. unfold tick, tick_until.
  destruct (_registers (client s) =? nullptr).
  { exists s, m, []. by rewrite app_nil_r. }
  destruct (loop_without_refresh env b s m _ Hcur
              (length (endpoints (_driverConfig (client s)))) ltac:(lia))
    as (st & new & -> & Hh & Hq & _ & Ec & Hp & Hw & _).
  cbn [bind].
  exists (session st), (memory st),
    ((if _updateSampleRateOnTick (client s)
      then [DeviceIoControl (_device (client s)) SAR_SEND_FORMAT_CHANGE_EVENT]
      else []) ++ new).
  split; [reflexivity|]. split.
  { rewrite Ec. unfold tick_begin.
    destruct (_updateSampleRateOnTick (client s)); cbn;
      by rewrite <- ?app_assoc. }
  rewrite !count_calls_app, Hp, Hw.
  by destruct (_updateSampleRateOnTick (client s)).
Qed.
End engine_edges.

(** The ring of the endpoint is said to begin 1000 bytes into a mapping of
    1024 bytes and to be 1024 bytes long. *)
Lemma tick_silences_invalid_layout_witness :
  ∃ s' m',
    tick generation_is_active generation_number 16 quiet 0
      (studio handle_77)
      (relayout_memory 0 1000 1024 (studio_memory g_active 1)) = Ok (s', m') ∧
    silenced 300 [Some (replicate 300 x01); None]
      (endpointBuffers (client s') 0 0) ∧
    registers m' !! 0%nat
    = registers (relayout_memory 0 1000 1024 (studio_memory g_active 1)) !! 0%nat.
Proof.
  apply (tick_silences_invalid_layout generation_is_active generation_number 16
           quiet 0%nat (studio handle_77)
           (relayout_memory 0 1000 1024 (studio_memory g_active 1)) 0%nat).
  - vm_compute. discriminate.
  - cbn. lia.
  - right. right. vm_compute. reflexivity.
  - vm_compute. reflexivity.
Defined.

Lemma tick_refreshes_only_when_needed_witness :
  ∃ s' m' new,
    tick generation_is_active generation_number 16 quiet 0
      (studio handle_77) (studio_memory g_active 1) = Ok (s', m') ∧
    calls s' = [] ++ new ∧
    count_calls is_poll new = 0%nat ∧
    count_calls is_wait_request new = 0%nat ∧
    _notificationHandles (client s') = handle_77 ∧
    _handleQueueStarted (client s') = false.
Proof.
  apply (tick_refreshes_only_when_needed generation_is_active generation_number
           16 quiet 0%nat (studio handle_77) (studio_memory g_active 1)).
  intros [|i] Hi; [right; reflexivity|cbn in Hi; lia].
Defined.
